(** * model-metadata-collection: the extraction pipeline and the catalog merge

    A shallow embedding of [cmd/model-extractor/main.go] and of
    [internal/catalog/catalog.go], with the properties of the pipeline and
    of the catalog stated and proved over it.

    Conventions.
    - Go [string] is [string]; Go [[]byte] is [bytes]; a nil slice and an
      empty slice are both the empty list.
    - Go [int64] is [Z] with the wrap-around written out ([wrap64]).
    - A Go pointer that may be nil ([*string], [*int64], [*time.Time]) is an
      [option].
    - The file system, the registry and the other collaborators are explicit:
      the state they act on is threaded through the functions. *)

From Stdlib Require Import ZArith Ascii String List Bool Lia Permutation.
From Stdlib Require Import Decimal DecimalString DecimalZ DecimalPos.
From stdpp Require Import base decidable option list gmap strings sorting.

Open Scope string_scope.
Open Scope list_scope.
Open Scope Z_scope.

Definition bytes := list Byte.byte.

(* ===================================================================== *)
(** * Part I. Definitions                                                 *)
(* ===================================================================== *)

(** ** The [strings] package of the Go standard library (on ASCII text) *)

Module GoStrings.

(** [strings.HasPrefix]. *)
Definition HasPrefix (s pfx : string) : bool := String.prefix pfx s.

(** [strings.HasSuffix]:
    [len(s) >= len(suffix) && s[len(s)-len(suffix):] == suffix]. *)
Definition HasSuffix (s sfx : string) : bool :=
  (String.length sfx <=? String.length s)%nat
  && String.eqb
       (String.substring (String.length s - String.length sfx)
                         (String.length sfx) s)
       sfx.

(** [strings.Contains]: some suffix of [s] starts with [sub]. *)
Fixpoint Contains (s sub : string) : bool :=
  String.prefix sub s
  || match s with
     | EmptyString => false
     | String _ rest => Contains rest sub
     end.

(** White space as [unicode.IsSpace] sees it below U+0080. *)
Definition isSpace (c : ascii) : bool :=
  let n := nat_of_ascii c in
  ((9 <=? n) && (n <=? 13) || (n =? 32))%nat.

Fixpoint trimLeft (s : string) : string :=
  match s with
  | String c rest => if isSpace c then trimLeft rest else s
  | EmptyString => EmptyString
  end.

(** Drops the trailing white space: a character stays when it is not a
    space or when something stays after it. *)
Fixpoint trimRight (s : string) : string :=
  match s with
  | EmptyString => EmptyString
  | String c rest =>
      match trimRight rest with
      | EmptyString => if isSpace c then EmptyString else String c EmptyString
      | kept => String c kept
      end
  end.

(** [strings.TrimSpace]. *)
Definition TrimSpace (s : string) : string := trimRight (trimLeft s).

Definition lowerChar (c : ascii) : ascii :=
  let n := nat_of_ascii c in
  if ((65 <=? n) && (n <=? 90))%nat then ascii_of_nat (n + 32) else c.

(** [strings.ToLower]. *)
Fixpoint ToLower (s : string) : string :=
  match s with
  | EmptyString => EmptyString
  | String c rest => String (lowerChar c) (ToLower rest)
  end.

Arguments HasPrefix : simpl never.
Arguments HasSuffix : simpl never.
Arguments Contains : simpl never.

End GoStrings.

(** ** The [path/filepath] package (Unix: the separator is the slash) *)

Module Filepath.
Import GoStrings.

(** [strings.Split(s, "/")]. *)
Fixpoint splitSlash (s : string) : list string :=
  match s with
  | EmptyString => [EmptyString]
  | String c rest =>
      if Ascii.eqb c "/" then EmptyString :: splitSlash rest
      else match splitSlash rest with
           | [] => [String c EmptyString]
           | x :: xs => String c x :: xs
           end
  end.

(** [strings.Join(elems, "/")]. *)
Fixpoint joinSlash (elems : list string) : string :=
  match elems with
  | [] => ""
  | [x] => x
  | x :: rest => x +:+ "/" +:+ joinSlash rest
  end.

(** One path element met by [Clean]; [out] holds the elements kept so far,
    the last one first.  Empty and [.] elements go; [..] removes the element
    before it, stays at the front of a relative path, and goes at the root. *)
Definition cleanStep (rooted : bool) (out : list string) (elem : string)
  : list string :=
  if String.eqb elem "" then out
  else if String.eqb elem "." then out
  else if String.eqb elem ".." then
    match out with
    | top :: below => if String.eqb top ".." then elem :: out else below
    | [] => if rooted then [] else [elem]
    end
  else elem :: out.

(** [filepath.Clean]. *)
Definition Clean (path : string) : string :=
  if String.eqb path "" then "."
  else
    let rooted := HasPrefix path "/" in
    let out := rev (fold_left (cleanStep rooted) (splitSlash path) []) in
    if rooted then "/" +:+ joinSlash out
    else match out with
         | [] => "."
         | _ => joinSlash out
         end.

(** [filepath.Join]: the elements from the first non-empty one on, joined
    and cleaned; the empty string when there is none. *)
Fixpoint Join (elem : list string) : string :=
  match elem with
  | [] => ""
  | e :: rest => if String.eqb e "" then Join rest else Clean (joinSlash elem)
  end.

Fixpoint hasSlash (s : string) : bool :=
  match s with
  | EmptyString => false
  | String c rest => Ascii.eqb c "/" || hasSlash rest
  end.

(** [path[:i+1]] for [i] the index of the last slash of [path]. *)
Fixpoint uptoLastSlash (path : string) : string :=
  match path with
  | EmptyString => EmptyString
  | String c rest =>
      if hasSlash path then String c (uptoLastSlash rest) else EmptyString
  end.

(** [filepath.Dir]. *)
Definition Dir (path : string) : string := Clean (uptoLastSlash path).

(** [filepath.IsAbs]. *)
Definition IsAbs (path : string) : bool := HasPrefix path "/".

(** A path element: not empty, and without a slash. *)
Definition isElement (x : string) : Prop := x <> "" /\ hasSlash x = false.

Arguments Clean : simpl never.
Arguments Join : simpl never.
Arguments Dir : simpl never.
Arguments IsAbs : simpl never.

End Filepath.

(** ** The [time] package: RFC 3339 timestamps *)

Module GoTime.

(** A [time.Time]: the seconds since 1970-01-01T00:00:00Z and the
    nanoseconds within the second. *)
Record Time := mkTime { unixSec : Z; nsec : Z }.

(** [Time.Unix]. *)
Definition Unix (t : Time) : Z := unixSec t.

Inductive Layout := RFC3339Nano | RFC3339.

Definition digit (c : ascii) : option Z :=
  let n := nat_of_ascii c in
  if ((48 <=? n) && (n <=? 57))%nat then Some (Z.of_nat n - 48) else None.

Fixpoint digits (s : string) (x : Z) : option Z :=
  match s with
  | EmptyString => Some x
  | String c rest =>
      match digit c with
      | Some d => digits rest (x * 10 + d)
      | None => None
      end
  end.

(** The decimal number [s], when it lies between [min] and [max]. *)
Definition parseUint (s : string) (min max : Z) : option Z :=
  match digits s 0 with
  | Some x => if (min <=? x) && (x <=? max) then Some x else None
  | None => None
  end.

Definition isLeap (year : Z) : bool :=
  (year mod 4 =? 0) && (negb (year mod 100 =? 0) || (year mod 400 =? 0)).

Definition daysIn (month year : Z) : Z :=
  if month =? 2 then (if isLeap year then 29 else 28)
  else if (month =? 4) || (month =? 6) || (month =? 9) || (month =? 11) then 30
  else 31.

(** Days from 1970-01-01 to the given day of the proleptic Gregorian
    calendar. *)
Definition daysFromCivil (year month day : Z) : Z :=
  let y := if month <=? 2 then year - 1 else year in
  let era := y / 400 in
  let yoe := y - era * 400 in
  let mp := (month + 9) mod 12 in
  let doy := (153 * mp + 2) / 5 + day - 1 in
  let doe := yoe * 365 + yoe / 4 - yoe / 100 + doy in
  era * 146097 + doe - 719468.

(** [time.Date(year, month, day, hour, min, sec, nsec, time.UTC)]. *)
Definition Date (year month day hour min sec ns : Z) : Time :=
  mkTime (daysFromCivil year month day * 86400 + hour * 3600 + min * 60 + sec) ns.

(** The digits at the front of [s], and what follows them. *)
Fixpoint spanDigits (s : string) : string * string :=
  match s with
  | EmptyString => (EmptyString, EmptyString)
  | String c rest =>
      match digit c with
      | Some _ => let '(ds, tl) := spanDigits rest in (String c ds, tl)
      | None => (EmptyString, s)
      end
  end.

Fixpoint scale10 (n : nat) (x : Z) : Z :=
  match n with
  | O => x
  | S n' => scale10 n' (x * 10)
  end.

(** The fraction digits as nanoseconds: at most nine digits count. *)
Definition parseNanoseconds (frac : string) : Z :=
  let kept := String.substring 0 9 frac in
  match digits kept 0 with
  | Some x => scale10 (9 - String.length kept) x
  | None => 0
  end.

Definition charAt (s : string) (i : nat) : option ascii := String.get i s.

Definition isChar (s : string) (i : nat) (c : ascii) : bool :=
  match charAt s i with
  | Some c' => Ascii.eqb c' c
  | None => false
  end.

(** The zone that ends a timestamp: [Z], or [+hh:mm] / [-hh:mm]; the
    result is the offset from UTC in seconds. *)
Definition parseZone (s : string) : option Z :=
  if String.eqb s "Z" then Some 0
  else if negb (String.length s =? 6)%nat then None
  else
    match parseUint (String.substring 1 2 s) 0 23,
          parseUint (String.substring 4 2 s) 0 59 with
    | Some hr, Some mm =>
        if (isChar s 0 "-" || isChar s 0 "+") && isChar s 3 ":" then
          let zoneOffset := (hr * 60 + mm) * 60 in
          Some (if isChar s 0 "-" then - zoneOffset else zoneOffset)
        else None
    | _, _ => None
    end.

(** The fraction of a second that may follow the seconds: a dot and at
    least one digit; the result is the nanoseconds and what follows. *)
Definition parseFraction (s : string) : Z * string :=
  match s with
  | String c after =>
      if Ascii.eqb c "." then
        match spanDigits after with
        | (String d ds, tl) => (parseNanoseconds (String d ds), tl)
        | (EmptyString, _) => (0, s)
        end
      else (0, s)
  | EmptyString => (0, s)
  end.

(** The parser the [time] package runs for the two RFC 3339 layouts:
    [yyyy-mm-ddThh:mm:ss], an optional fraction, a zone. *)
Definition parseRFC3339 (s : string) : option Time :=
  if (String.length s <? 19)%nat then None
  else
    match parseUint (String.substring 0 4 s) 0 9999,
          parseUint (String.substring 5 2 s) 1 12 with
    | Some year, Some month =>
        match parseUint (String.substring 8 2 s) 1 (daysIn month year),
              parseUint (String.substring 11 2 s) 0 23,
              parseUint (String.substring 14 2 s) 0 59,
              parseUint (String.substring 17 2 s) 0 59 with
        | Some day, Some hour, Some min, Some sec =>
            if isChar s 4 "-" && isChar s 7 "-" && isChar s 10 "T"
               && isChar s 13 ":" && isChar s 16 ":" then
              let '(ns, tl) :=
                parseFraction (String.substring 19 (String.length s - 19) s) in
              match parseZone tl with
              | Some zoneOffset =>
                  let t := Date year month day hour min sec ns in
                  Some (mkTime (unixSec t - zoneOffset) (nsec t))
              | None => None
              end
            else None
        | _, _, _, _ => None
        end
    | _, _ => None
    end.

(** [time.Parse] under one of the two layouts the extractor uses: the
    package runs its RFC 3339 parser for both, and a fraction is optional
    under either.  Texts outside RFC 3339 that only the general layout
    parser of the package would take are rejected here. *)
Definition Parse (layout : Layout) (value : string) : option Time :=
  match layout with
  | RFC3339Nano => parseRFC3339 value
  | RFC3339 => parseRFC3339 value
  end.

End GoTime.

(** ** [internal/catalog/catalog.go] *)

Module Catalog.
Import GoStrings.

(** [types.CatalogMetadata]; [deduplicateModels] reads [Name] only, the
    other fields travel with the record. *)
Record CatalogMetadata := mkCatalogMetadata {
  Name : option string;
  Provider : option string;
  Description : option string;
  License : option string;
  Language : list string;
  Tasks : list string
}.

(** A Go [map[string]bool] read with [m[k]]: a missing key reads [false]. *)
Definition mapGet (m : gmap string bool) (k : string) : bool :=
  default false (m !! k).

(** First loop of [deduplicateModels]: the normalized names of the dynamic
    models. *)
Fixpoint dynamicNames (models : list CatalogMetadata)
         (dynamicNameMap : gmap string bool) : gmap string bool :=
  match models with
  | [] => dynamicNameMap
  | model :: rest =>
      match Name model with
      | Some name =>
          let k := ToLower (TrimSpace name) in
          if String.eqb k "" then dynamicNames rest dynamicNameMap
          else dynamicNames rest (<[k := true]> dynamicNameMap)
      | None => dynamicNames rest dynamicNameMap
      end
  end.

(** Second loop of [deduplicateModels]: the static models are appended to
    [result] one by one, the map tracks the names already taken. *)
Fixpoint appendStatic (staticModels : list CatalogMetadata)
         (result : list CatalogMetadata)
         (dynamicNameMap : gmap string bool) : list CatalogMetadata :=
  match staticModels with
  | [] => result
  | staticModel :: rest =>
      match Name staticModel with
      | Some name =>
          let k := ToLower (TrimSpace name) in
          if String.eqb k "" then appendStatic rest result dynamicNameMap
          else if negb (mapGet dynamicNameMap k)
               then appendStatic rest (result ++ [staticModel])
                                 (<[k := true]> dynamicNameMap)
               else appendStatic rest result dynamicNameMap
      | None => appendStatic rest result dynamicNameMap
      end
  end.

Definition deduplicateModels (dynamicModels staticModels : list CatalogMetadata)
  : list CatalogMetadata :=
  let dynamicNameMap := dynamicNames dynamicModels ∅ in
  let result := dynamicModels in
  appendStatic staticModels result dynamicNameMap.

(** *** The description of the result, in the words of the specification *)

(** The trimmed, lowercased name of a model, when it has a name and that
    name is not blank. *)
Definition normName (m : CatalogMetadata) : option string :=
  match Name m with
  | Some name =>
      let k := ToLower (TrimSpace name) in
      if String.eqb k "" then None else Some k
  | None => None
  end.

(** A static model is kept when its normalized name exists and no dynamic
    model and no earlier static model carries it. *)
Definition keptStatic (dynamicModels earlier : list CatalogMetadata)
           (s : CatalogMetadata) : bool :=
  match normName s with
  | Some k =>
      negb (bool_decide (Some k ∈ normName <$> dynamicModels))
      && negb (bool_decide (Some k ∈ normName <$> earlier))
  | None => false
  end.

Fixpoint keptStatics (dynamicModels earlier staticModels : list CatalogMetadata)
  : list CatalogMetadata :=
  match staticModels with
  | [] => []
  | s :: rest =>
      (if keptStatic dynamicModels earlier s then [s] else [])
      ++ keptStatics dynamicModels (earlier ++ [s]) rest
  end.

(** The normalized non-empty names carried by a list of models. *)
Definition normNames (l : list CatalogMetadata) : list string :=
  omap normName l.

(** No two entries of [l] share a normalized non-empty name. *)
Definition distinctNames (l : list CatalogMetadata) : Prop :=
  forall i j x y k,
    i <> j -> l !! i = Some x -> l !! j = Some y ->
    normName x = Some k -> normName y <> Some k.

End Catalog.

(** ** [cmd/model-extractor/main.go] *)

Module Extractor.
Import GoStrings Filepath GoTime.

(** *** Data *)

(** [types.OCIArtifact]: its URI and its two timestamps, in milliseconds
    since the epoch; the custom properties are left out. *)
Record OCIArtifact := mkOCIArtifact {
  ArtifactURI : string;
  ArtifactCreateTimeSinceEpoch : option Z;
  ArtifactLastUpdateTimeSinceEpoch : option Z
}.

(** [types.ExtractedMetadata], the record persisted as [metadata.yaml], with
    the fields that [main.go], [catalog.go] and the tests use. *)
Record ExtractedMetadata := mkExtractedMetadata {
  Name : option string;
  Provider : option string;
  Description : option string;
  Readme : option string;
  Language : list string;
  License : option string;
  LicenseLink : option string;
  Tasks : list string;
  Tags : list string;
  CreateTimeSinceEpoch : option Z;
  LastUpdateTimeSinceEpoch : option Z;
  Artifacts : list OCIArtifact
}.

(** The zero [types.ExtractedMetadata]. *)
Definition zeroExtractedMetadata : ExtractedMetadata :=
  mkExtractedMetadata None None None None [] None None [] [] None None [].

Definition setTags (m : ExtractedMetadata) (tags : list string) : ExtractedMetadata :=
  mkExtractedMetadata (Name m) (Provider m) (Description m) (Readme m) (Language m)
                      (License m) (LicenseLink m) (Tasks m) tags
                      (CreateTimeSinceEpoch m) (LastUpdateTimeSinceEpoch m)
                      (Artifacts m).

Definition setArtifacts (m : ExtractedMetadata) (artifacts : list OCIArtifact)
  : ExtractedMetadata :=
  mkExtractedMetadata (Name m) (Provider m) (Description m) (Readme m) (Language m)
                      (License m) (LicenseLink m) (Tasks m) (Tags m)
                      (CreateTimeSinceEpoch m) (LastUpdateTimeSinceEpoch m)
                      artifacts.

(** [types.ModelEntry]. *)
Record ModelEntry := mkModelEntry {
  EntryType : string;
  URI : string;
  Labels : list string
}.

(** The zero [types.ModelEntry], read from [uriToEntry] at a missing key. *)
Definition zeroModelEntry : ModelEntry := mkModelEntry "" "" [].

(** [containertypes.BlobInfo]; a nil annotation map is the empty map. *)
Record BlobInfo := mkBlobInfo {
  Digest : string;
  MediaType : string;
  Size : Z;
  Annotations : gmap string string
}.

(** [OCIImageConfig]: the creation time and those of the history entries. *)
Record OCIImageConfig := mkOCIImageConfig {
  Created : string;
  History : list string
}.

(** What the tar reader delivers, one item per call of [tr.Next()]; the end
    of the list is [io.EOF].
    - [TarEntry name size body]: a header, and what [io.Copy] reads after
      it, [None] when the copy fails;
    - [TarError]: [tr.Next()] fails. *)
Inductive TarItem :=
| TarEntry (name : string) (size : Z) (body : option bytes)
| TarError.

(** What [src.GetBlob] returns: an error, a nil stream, or the blob. *)
Inductive BlobResult :=
| BlobError
| BlobNil
| BlobStream (raw : bytes).

(** A request for a blob that reached the registry. *)
Record BlobRequest := mkBlobRequest {
  reqSource : string;
  reqDigest : string;
  reqTimeoutSeconds : Z
}.

Inductive FetchError :=
| ErrParseReference
| ErrNewImageSource
| ErrGetManifest
| ErrNewImage
| ErrConfigBlob.

(** *** The collaborators

    The code outside [main.go] that the extractor calls: the registry, the
    codecs, the markdown parser, the artifact introspection, and the flags
    of the command line.  [ModelMetadata] is [types.ModelMetadata], the
    flags the markdown parser reports.  The registry is asked by reference
    and gives the same answer at every call. *)
Record Env := mkEnv {
  ModelMetadata : Type;
  zeroModelMetadata : ModelMetadata;
  outputDir : string;
  SanitizeManifestRef : string -> string;
  (* the registry, by reference *)
  ParseReference : string -> bool;
  NewImageSource : string -> bool;
  GetManifest : string -> option bytes;
  NewImage : string -> bool;
  ConfigBlob : string -> option bytes;
  LayerInfos : string -> list BlobInfo;
  registryBlob : string -> string -> BlobResult;
  (* decoding *)
  gzip_NewReader : bytes -> option bytes;
  tar_NewReader : bytes -> list TarItem;
  json_Unmarshal : bytes -> option OCIImageConfig;
  yaml_Unmarshal : bytes -> option ExtractedMetadata;
  yaml_Marshal : ExtractedMetadata -> option bytes;
  (* the other packages of the repository *)
  ParseModelCardMetadata : bytes -> ModelMetadata;
  ExtractMetadataValues : bytes -> ExtractedMetadata;
  ExtractOCIArtifactsFromRegistry : string -> list OCIArtifact;
  (* the paths at which the file system refuses to create or to write *)
  mkdirFails : string -> bool;
  writeFails : string -> bool
}.

(** [ModelResult]. *)
Record ModelResult (E : Env) := mkModelResult {
  Ref : string;
  ModelCardFound : bool;
  Metadata : ModelMetadata E
}.
Arguments mkModelResult {E} _ _ _.
Arguments Ref {E} _.
Arguments ModelCardFound {E} _.
Arguments Metadata {E} _.

(** *** The world the extractor acts on: files, directories, and the blob
    requests that reached the registry (the latest last). *)
Record World := mkWorld {
  files : gmap string bytes;
  dirs : gset string;
  requests : list BlobRequest
}.

Definition emptyWorld : World := mkWorld ∅ ∅ [].

(** [os.MkdirAll]. *)
Definition MkdirAll (E : Env) (path : string) (w : World) : option World :=
  if mkdirFails E path then None
  else Some (mkWorld (files w) ({[path]} ∪ dirs w) (requests w)).

(** [os.WriteFile]. *)
Definition WriteFile (E : Env) (path : string) (data : bytes) (w : World)
  : option World :=
  if writeFails E path then None
  else Some (mkWorld (<[path := data]> (files w)) (dirs w) (requests w)).

(** [os.ReadFile]. *)
Definition ReadFile (path : string) (w : World) : option bytes := files w !! path.

(** *** The blob cache of the registry client *)

(** Modelled from the spec: the in-memory cache handed to [GetBlob], in the
    reading most favourable to it: keyed by content digest, and a blob found
    in it is served without a request to the registry.  The client library
    is not part of the repository. *)
Abbreviation BlobInfoCache := (gmap string BlobResult).

(** [blobinfocachememory.New()]: a new, empty cache. *)
Definition blobinfocachememory_New : BlobInfoCache := ∅.

(** [src.GetBlob(ctx, BlobInfo{Digest: digest}, cache)] under a context of
    [timeout] seconds. *)
Definition GetBlob (E : Env) (src : string) (timeout : Z) (digest : string)
           (cache : BlobInfoCache) (w : World) : BlobResult * BlobInfoCache * World :=
  match cache !! digest with
  | Some blob => (blob, cache, w)
  | None =>
      let blob := registryBlob E src digest in
      (blob, <[digest := blob]> cache,
       mkWorld (files w) (dirs w) (requests w ++ [mkBlobRequest src digest timeout]))
  end.

(** *** Timestamps *)

(** An [int64] out of an integer: two's complement wrap-around. *)
Definition wrap64 (z : Z) : Z := (z + 2 ^ 63) mod 2 ^ 64 - 2 ^ 63.

(** [parseTimestampWithFallback]: the first of the two layouts that parses
    the text. *)
Definition parseTimestampWithFallback (timestampStr : string) : option Time :=
  if String.eqb timestampStr "" then None
  else
    let formats := [RFC3339Nano; RFC3339] in
    (fix try (formats : list Layout) : option Time :=
       match formats with
       | [] => None
       | format :: rest =>
           match Parse format timestampStr with
           | Some parsedTime => Some parsedTime
           | None => try rest
           end
       end) formats.

(** [parsedTime.Unix() * 1000] in [int64]. *)
Definition epochMs (parsedTime : Time) : Z := wrap64 (Unix parsedTime * 1000).

(** [extractTimestampsFromConfig]. *)
Definition extractTimestampsFromConfig (E : Env) (configBlob : bytes)
  : option Z * option Z :=
  match configBlob with
  | [] => (None, None)
  | _ =>
      match json_Unmarshal E configBlob with
      | None => (None, None)
      | Some config =>
          let createTime :=
            if negb (String.eqb (Created config) "") then
              match parseTimestampWithFallback (Created config) with
              | Some parsedTime => Some (epochMs parsedTime)
              | None => None
              end
            else None in
          let updateTime :=
            match last (History config) with
            | Some lastHistoryEntry =>
                if negb (String.eqb lastHistoryEntry "") then
                  match parseTimestampWithFallback lastHistoryEntry with
                  | Some parsedTime => Some (epochMs parsedTime)
                  | None => createTime
                  end
                else createTime
            | None => createTime
            end in
          (createTime, updateTime)
      end
  end.

(** The loop over the artifacts: a timestamp is filled in only where the
    artifact has none. *)
Definition fillTimestamps (createTime updateTime : option Z)
           (artifacts : list OCIArtifact) : list OCIArtifact :=
  map (fun a =>
         mkOCIArtifact (ArtifactURI a)
           (match ArtifactCreateTimeSinceEpoch a with
            | None => createTime
            | Some t => Some t
            end)
           (match ArtifactLastUpdateTimeSinceEpoch a with
            | None => updateTime
            | Some t => Some t
            end))
      artifacts.

(** *** Label tags *)

(** [contains]. *)
Fixpoint contains (slice : list string) (item : string) : bool :=
  match slice with
  | [] => false
  | s :: rest => if String.eqb s item then true else contains rest item
  end.

(** The loop of [addModelLabelTags] over the labels: the tag list and the
    [changed] flag after it. *)
Fixpoint addLabels (labels : list string) (tags : list string) (changed : bool)
  : list string * bool :=
  match labels with
  | [] => (tags, changed)
  | label :: rest =>
      if negb (String.eqb label "") && negb (contains tags label)
      then addLabels rest (tags ++ [label]) true
      else addLabels rest tags changed
  end.

(** The [metadata.yaml] that [addModelLabelTags] reads and writes. *)
Definition metadataPathOf (E : Env) (manifestRef : string) : string :=
  Join [outputDir E; SanitizeManifestRef E manifestRef; "models"; "metadata.yaml"].

(** [addModelLabelTags]. *)
Definition addModelLabelTags (E : Env) (manifestRef : string) (entry : ModelEntry)
           (w : World) : World :=
  let metadataPath := metadataPathOf E manifestRef in
  match ReadFile metadataPath w with
  | None => w
  | Some data =>
      match yaml_Unmarshal E data with
      | None => w
      | Some metadata =>
          let '(tags, changed) := addLabels (Labels entry) (Tags metadata) false in
          if changed then
            match yaml_Marshal E (setTags metadata tags) with
            | None => w
            | Some updatedData =>
                match WriteFile E metadataPath updatedData w with
                | None => w
                | Some w' => w'
                end
            end
          else w
      end
  end.

(** *** Skeleton metadata *)

(** [createSkeletonMetadata]. *)
Definition createSkeletonMetadata (E : Env) (manifestRef : string)
           (configBlob : bytes) (w : World) : World :=
  let sanitizedDir := SanitizeManifestRef E manifestRef in
  let modelDir := Join [outputDir E; sanitizedDir; "models"] in
  match MkdirAll E modelDir w with
  | None => w
  | Some w =>
      let '(createTime, updateTime) := extractTimestampsFromConfig E configBlob in
      let metadata :=
        setArtifacts zeroExtractedMetadata
          (fillTimestamps createTime updateTime
             (ExtractOCIArtifactsFromRegistry E manifestRef)) in
      let metadataFilePath := Join [modelDir; "metadata.yaml"] in
      match yaml_Marshal E metadata with
      | None => w
      | Some metadataYaml =>
          match WriteFile E metadataFilePath metadataYaml w with
          | None => w
          | Some w' => w'
          end
      end
  end.

(** *** The scan of the layers *)

(** The loop over the entries of the archive: the number of [.md] entries
    met (the loop stops at the second), the name of the first one, and its
    content. *)
Fixpoint scanTar (tr : list TarItem) (mdFileCount : Z)
         (singleMdFileName : string) (singleMdContent : bytes)
  : Z * string * bytes :=
  match tr with
  | [] => (mdFileCount, singleMdFileName, singleMdContent)
  | TarError :: _ => (mdFileCount, singleMdFileName, singleMdContent)
  | TarEntry name _ body :: rest =>
      if HasSuffix name ".md" then
        let mdFileCount := mdFileCount + 1 in
        if 1 <? mdFileCount then (mdFileCount, singleMdFileName, singleMdContent)
        else
          match body with
          | None => scanTar rest mdFileCount name singleMdContent
          | Some content => scanTar rest mdFileCount name content
          end
      else scanTar rest mdFileCount singleMdFileName singleMdContent
  end.

(** How the body of the loop over the layers ends: with the [return] of
    the function, or by going on to the next layer. *)
Inductive LayerOutcome (E : Env) :=
| Return (found : bool) (metadata : ModelMetadata E) (w : World)
| Continue (w : World).
Arguments Return {E} _ _ _.
Arguments Continue {E} _.

(** The directory of a model: the output directory joined with the
    sanitized reference. *)
Definition modelDirOf (E : Env) (manifestRef : string) : string :=
  Join [outputDir E; SanitizeManifestRef E manifestRef].

(** The branch [mdFileCount == 1]: the path checks, the model card file
    and its [metadata.yaml]. *)
Definition writeModelCard (E : Env) (manifestRef : string) (configBlob : bytes)
           (singleMdFileName : string) (singleMdContent : bytes) (w : World)
  : LayerOutcome E :=
  let sanitizedDir := SanitizeManifestRef E manifestRef in
  let modelDir := Join [outputDir E; sanitizedDir] in
  let safeName := Clean singleMdFileName in
  if IsAbs safeName || HasPrefix safeName "../" then Continue w
  else
    let outputFilePath := Join [modelDir; safeName] in
    let modelDirClean := Clean modelDir +:+ "/" in
    let outputFilePathClean := Clean outputFilePath in
    if negb (HasPrefix outputFilePathClean modelDirClean)
       && negb (String.eqb outputFilePathClean (Clean modelDir))
    then Continue w
    else
      let outputFileDir := Dir outputFilePath in
      match MkdirAll E outputFileDir w with
      | None => Continue w
      | Some w =>
          match WriteFile E outputFilePath singleMdContent w with
          | None => Continue w
          | Some w =>
              let metadataFlags := ParseModelCardMetadata E singleMdContent in
              let extractedMetadata := ExtractMetadataValues E singleMdContent in
              let '(createTime, updateTime) := extractTimestampsFromConfig E configBlob in
              let extractedMetadata :=
                setArtifacts extractedMetadata
                  (fillTimestamps createTime updateTime
                     (ExtractOCIArtifactsFromRegistry E manifestRef)) in
              let metadataFilePath := Join [outputFileDir; "metadata.yaml"] in
              let w :=
                match yaml_Marshal E extractedMetadata with
                | None => w
                | Some metadataYaml =>
                    match WriteFile E metadataFilePath metadataYaml w with
                    | None => w
                    | Some w' => w'
                    end
                end in
              Return true metadataFlags w
          end
      end.

(** The layers that carry the model card annotation. *)
Definition isModelCardLayer (layer : BlobInfo) : bool :=
  match Annotations layer !! "io.opendatahub.modelcar.layer.type" with
  | Some layerType => String.eqb layerType "modelcard"
  | None => false
  end.

(** The body of the loop of [scanLayersForModelCard], for one layer. *)
Definition scanLayer (E : Env) (layer : BlobInfo) (src : string)
           (manifestRef : string) (configBlob : bytes) (w : World)
  : LayerOutcome E :=
  if isModelCardLayer layer then
    let '(layerBlob, _, w) :=
      GetBlob E src 60 (Digest layer) blobinfocachememory_New w in
    match layerBlob with
    | BlobError => Continue w
    | BlobNil => Continue w
    | BlobStream raw =>
        let reader :=
          if Contains (MediaType layer) "+gzip" then gzip_NewReader E raw
          else Some raw in
        match reader with
        | None => Continue w
        | Some reader =>
            let '(mdFileCount, singleMdFileName, singleMdContent) :=
              scanTar (tar_NewReader E reader) 0 "" [] in
            if mdFileCount =? 1
            then writeModelCard E manifestRef configBlob
                                singleMdFileName singleMdContent w
            else Continue w
        end
    end
  else Continue w.

(** [scanLayersForModelCard]. *)
Fixpoint scanLayersForModelCard (E : Env) (layers : list BlobInfo) (src : string)
         (manifestRef : string) (configBlob : bytes) (w : World)
  : bool * ModelMetadata E * World :=
  match layers with
  | [] =>
      let w := createSkeletonMetadata E manifestRef configBlob w in
      (false, zeroModelMetadata E, w)
  | layer :: rest =>
      match scanLayer E layer src manifestRef configBlob w with
      | Return found metadata w => (found, metadata, w)
      | Continue w => scanLayersForModelCard E rest src manifestRef configBlob w
      end
  end.

(** [scanLayersForModelCardWithTags]. *)
Definition scanLayersForModelCardWithTags (E : Env) (layers : list BlobInfo)
           (src : string) (manifestRef : string) (configBlob : bytes)
           (entry : ModelEntry) (w : World) : bool * ModelMetadata E * World :=
  let '(modelCardFound, metadata, w) :=
    scanLayersForModelCard E layers src manifestRef configBlob w in
  let w := addModelLabelTags E manifestRef entry w in
  (modelCardFound, metadata, w).

(** *** One model *)

(** [fetchManifestSrcAndLayers]: the image source (named by its reference),
    the layers and the config blob, or the step that failed. *)
Definition fetchManifestSrcAndLayers (E : Env) (manifestRef : string)
  : FetchError + (string * list BlobInfo * bytes) :=
  if negb (ParseReference E ("//" +:+ manifestRef)) then inl ErrParseReference
  else if negb (NewImageSource E manifestRef) then inl ErrNewImageSource
  else
    match GetManifest E manifestRef with
    | None => inl ErrGetManifest
    | Some manifest =>
        if negb (NewImage E manifestRef) then inl ErrNewImage
        else
          match ConfigBlob E manifestRef with
          | None => inl ErrConfigBlob
          | Some configBlob => inr (manifestRef, LayerInfos E manifestRef, configBlob)
          end
    end.

(** The goroutine [processModelsInParallelWithEntryMap] starts for one
    reference: the result it sends, and the world it leaves. *)
Definition worker (E : Env) (ref : string) (entry : ModelEntry) (w : World)
  : ModelResult E * World :=
  match fetchManifestSrcAndLayers E ref with
  | inl err => (mkModelResult ref false (zeroModelMetadata E), w)
  | inr (src, layers, configBlob) =>
      let '(modelCardFound, metadata, w) :=
        scanLayersForModelCardWithTags E layers src ref configBlob entry w in
      (mkModelResult ref modelCardFound metadata, w)
  end.

(** *** The coordinator *)

(** [uriToEntry[manifestRef]]. *)
Definition entryOf (uriToEntry : gmap string ModelEntry) (manifestRef : string)
  : ModelEntry :=
  default zeroModelEntry (uriToEntry !! manifestRef).

(** The state of [processModelsInParallelWithEntryMap] while its goroutines
    run: the references its loop has not reached, the goroutines that hold
    a permit of the semaphore and have not sent their result, the buffer of
    the [results] channel, and the world. *)
Record Coord (E : Env) := mkCoord {
  pending : list string;
  running : list (string * ModelEntry);
  results : list (ModelResult E);
  world : World
}.
Arguments mkCoord {E} _ _ _ _.
Arguments pending {E} _.
Arguments running {E} _.
Arguments results {E} _.
Arguments world {E} _.

(** The correction of [maxConcurrent]: whether the warning is logged, and
    the value the function goes on with. *)
Definition correctMaxConcurrent (maxConcurrent : Z) : bool * Z :=
  if maxConcurrent <? 1 then (true, 1) else (false, maxConcurrent).

(** The capacity of the semaphore: [maxConcurrent] after the correction. *)
Definition permits (maxConcurrent : Z) : Z := (correctMaxConcurrent maxConcurrent).2.

(** One step of the coordinator and its goroutines, for a semaphore of
    [sem] permits and a [results] channel of capacity [cap].
    - The loop sends to the semaphore, which takes the send while less than
      [sem] permits are held, and starts the goroutine of the next
      reference.
    - A goroutine processes its model, sends its result, which the channel
      takes while it holds less than [cap] results, and gives its permit
      back.  The file operations of one goroutine count as one step. *)
Inductive step (E : Env) (uriToEntry : gmap string ModelEntry) (sem cap : Z)
  : Coord E -> Coord E -> Prop :=
| step_start manifestRef rest run res w :
    Z.of_nat (length run) < sem ->
    step E uriToEntry sem cap
         (mkCoord (manifestRef :: rest) run res w)
         (mkCoord rest (run ++ [(manifestRef, entryOf uriToEntry manifestRef)]) res w)
| step_finish pend run1 ref entry run2 res w result w' :
    worker E ref entry w = (result, w') ->
    Z.of_nat (length res) < cap ->
    step E uriToEntry sem cap
         (mkCoord pend (run1 ++ (ref, entry) :: run2) res w)
         (mkCoord pend (run1 ++ run2) (res ++ [result]) w').

(** [wg.Wait()] returns: every goroutine was started and is done. *)
Definition joined {E : Env} (c : Coord E) : Prop :=
  pending c = [] /\ running c = [].

(** [processModelsInParallelWithEntryMap manifestRefs uriToEntry
    maxConcurrent], run from the world [w]: it may return [modelResults]
    and leave the world [w']. *)
Definition processModelsInParallelWithEntryMap (E : Env)
           (manifestRefs : list string) (uriToEntry : gmap string ModelEntry)
           (maxConcurrent : Z) (w : World)
           (modelResults : list (ModelResult E)) (w' : World) : Prop :=
  let sem := permits maxConcurrent in
  let cap := Z.of_nat (length manifestRefs) in
  rtc (step E uriToEntry sem cap)
      (mkCoord manifestRefs [] [] w) (mkCoord [] [] modelResults w').

(** The run in which each goroutine is done before the next one starts. *)
Fixpoint runInOrder (E : Env) (manifestRefs : list string)
         (uriToEntry : gmap string ModelEntry) (w : World)
  : list (ModelResult E) * World :=
  match manifestRefs with
  | [] => ([], w)
  | manifestRef :: rest =>
      let '(result, w) := worker E manifestRef (entryOf uriToEntry manifestRef) w in
      let '(modelResults, w) := runInOrder E rest uriToEntry w in
      (result :: modelResults, w)
  end.

(** *** Notions the statements use *)

(** Whether the loop appends [label] to [tags]. *)
Definition isNew (tags : list string) (label : string) : bool :=
  negb (String.eqb label "") && negb (contains tags label).

(** The tags that [metadata.yaml] of a model holds, when it can be read. *)
Definition persistedTags (E : Env) (manifestRef : string) (w : World)
  : option (list string) :=
  match ReadFile (metadataPathOf E manifestRef) w with
  | Some data => Tags <$> yaml_Unmarshal E data
  | None => None
  end.

(** A record whose tags are read back as they were written. *)
Definition keepsTags (E : Env) (m : ExtractedMetadata) : Prop :=
  forall data m',
    yaml_Marshal E m = Some data -> yaml_Unmarshal E data = Some m' ->
    Tags m' = Tags m.

(** The [.md] entries the reader delivers before it fails. *)
Fixpoint mdEntries (tr : list TarItem) : list (string * option bytes) :=
  match tr with
  | [] => []
  | TarError :: _ => []
  | TarEntry name _ body :: rest =>
      if HasSuffix name ".md" then (name, body) :: mdEntries rest
      else mdEntries rest
  end.

(** The buffer after [io.Copy]: empty when the copy failed. *)
Definition buffered (body : option bytes) : bytes := default [] body.

(** The world after a blob request reached the registry. *)
Definition requested (src : string) (layer : BlobInfo) (w : World) : World :=
  mkWorld (files w) (dirs w) (requests w ++ [mkBlobRequest src (Digest layer) 60]).

(** The archive of a layer: its blob is served, and decompresses when its
    media type says it is compressed. *)
Definition layerArchive (E : Env) (src : string) (layer : BlobInfo)
  : option (list TarItem) :=
  match registryBlob E src (Digest layer) with
  | BlobStream raw =>
      tar_NewReader E <$>
        (if Contains (MediaType layer) "+gzip" then gzip_NewReader E raw else Some raw)
  | _ => None
  end.

(** [path] is [dir] or below it, as the extractor checks it. *)
Definition inside (dir path : string) : bool :=
  HasPrefix (Clean path) (Clean dir +:+ "/") || String.eqb (Clean path) (Clean dir).

(** Where the model card of an entry goes. *)
Definition cardPath (E : Env) (manifestRef name : string) : string :=
  Join [modelDirOf E manifestRef; Clean name].

(** The cleaned name is absolute or starts with a parent segment. *)
Definition violates (name : string) : bool :=
  IsAbs (Clean name) || HasPrefix (Clean name) "../".

(** The two checks of the extractor on the name of an entry. *)
Definition safeEntryName (E : Env) (manifestRef name : string) : bool :=
  negb (violates name)
  && inside (modelDirOf E manifestRef) (cardPath E manifestRef name).

(** Every file that [w'] holds and [w] does not hold alike is one of
    [paths]. *)
Definition wroteOnly (w w' : World) (paths : list string) : Prop :=
  forall p, files w' !! p <> files w !! p -> p ∈ paths.

(** The world a layer outcome carries. *)
Definition outcomeWorld {E : Env} (o : LayerOutcome E) : World :=
  match o with
  | Return _ _ w => w
  | Continue w => w
  end.

(** Whether the body of the loop returned, with a model card. *)
Definition returns {E : Env} (o : LayerOutcome E) : bool :=
  match o with
  | Return found _ _ => found
  | Continue _ => false
  end.

(** Where the skeleton metadata of a model goes. *)
Definition skeletonPath (E : Env) (manifestRef : string) : string :=
  Join [Join [outputDir E; SanitizeManifestRef E manifestRef; "models"]; "metadata.yaml"].

(** The requests the scan of [layers] sends when it visits them all. *)
Definition docRequests (src : string) (layers : list BlobInfo) : list BlobRequest :=
  (fun layer => mkBlobRequest src (Digest layer) 60)
    <$> List.filter isModelCardLayer layers.

(** The result of a reference whose fetch failed. *)
Definition failedResult (E : Env) (ref : string) : ModelResult E :=
  mkModelResult ref false (zeroModelMetadata E).

(** What is left to do: two steps for a reference that waits, one for a
    goroutine that runs. *)
Definition work {E : Env} (c : Coord E) : nat := 2 * length (pending c) + length (running c).

(** The references of a state: those answered, those running, those that
    wait. *)
Definition refsOf {E : Env} (c : Coord E) : list string :=
  (Ref <$> results c) ++ (fst <$> running c) ++ pending c.

(** With one permit the goroutines run one after the other, in the order
    of the references. *)
Definition inOrder (E : Env) (uriToEntry : gmap string ModelEntry)
           (refs : list string) (w0 : World) (c : Coord E) : Prop :=
  exists finished,
    (results c, world c) = runInOrder E finished uriToEntry w0
    /\ (running c = [] /\ refs = finished ++ pending c
        \/ exists ref, running c = [(ref, entryOf uriToEntry ref)]
                       /\ refs = finished ++ ref :: pending c).

(** The state in which [processModelsInParallelWithEntryMap] starts its
    loop. *)
Definition start {E : Env} (refs : list string) (w : World) : Coord E :=
  mkCoord refs [] [] w.

End Extractor.

(** ** A small registry, for the examples *)

Module Demo.
Import GoStrings Filepath GoTime Extractor.

(** Slashes and colons become underscores. *)
Fixpoint sanitize (s : string) : string :=
  match s with
  | EmptyString => EmptyString
  | String c rest =>
      String (if Ascii.eqb c "/" || Ascii.eqb c ":" then "_"%char else c)
             (sanitize rest)
  end.

Fixpoint splitLines (s : string) : list string :=
  match s with
  | EmptyString => [EmptyString]
  | String c rest =>
      if Ascii.eqb c "010" then EmptyString :: splitLines rest
      else match splitLines rest with
           | [] => [String c EmptyString]
           | x :: xs => String c x :: xs
           end
  end.

(** A codec that keeps the tags of a record, one per line. *)
Definition marshalTags (m : ExtractedMetadata) : option bytes :=
  Some (list_byte_of_string (String.concat (String "010" "") (Tags m))).

Definition unmarshalTags (data : bytes) : option ExtractedMetadata :=
  let tags := match data with
              | [] => []
              | _ => splitLines (string_of_list_byte data)
              end in
  Some (setTags zeroExtractedMetadata tags).

(** The registry serves [layers] for every reference whose name does not
    start with [unreachable]; every blob holds [archive]; every config blob
    decodes to [config]; the file system refuses the paths in [denied]. *)
Definition demoEnv (archive : list TarItem) (layers : list BlobInfo)
           (config : OCIImageConfig) (denied : list string) : Env :=
  mkEnv bool false "output" sanitize
        (fun ref => negb (String.eqb ref "//"))
        (fun ref => negb (HasPrefix ref "unreachable"))
        (fun _ => Some [])
        (fun _ => true)
        (fun _ => Some [Byte.x7b; Byte.x7d])
        (fun _ => layers)
        (fun _ _ => BlobStream [Byte.x00])
        (fun raw => Some raw)
        (fun _ => archive)
        (fun _ => Some config)
        unmarshalTags
        marshalTags
        (fun _ => true)
        (fun _ => zeroExtractedMetadata)
        (fun ref => [mkOCIArtifact ("oci://" +:+ ref) None None])
        (fun path => bool_decide (path ∈ denied))
        (fun path => bool_decide (path ∈ denied)).

Definition docLayer (digest : string) : BlobInfo :=
  mkBlobInfo digest "application/vnd.oci.image.layer.v1.tar" 1024
             {["io.opendatahub.modelcar.layer.type" := "modelcard"]}.

Definition dataLayer (digest : string) : BlobInfo :=
  mkBlobInfo digest "application/vnd.oci.image.layer.v1.tar" 4096 ∅.

Definition readme : bytes := list_byte_of_string "# Model".

Definition noConfig : OCIImageConfig := mkOCIImageConfig "" [].

Definition exampleConfig : OCIImageConfig :=
  mkOCIImageConfig "2024-01-15T10:00:00Z" ["2024-02-01T00:00:00.123456789Z"].

Definition taggedWorld : World :=
  mkWorld {["output/quay.io_org_model_1.0/models/metadata.yaml"
            := list_byte_of_string "validated"]} ∅ [].

Definition taggedEntry : ModelEntry :=
  mkModelEntry "oci" "quay.io/org/model:1.0" ["validated"; "featured"; ""; "featured"].

Definition oneReadme : list TarItem :=
  [TarEntry "weights.bin" 4096 (Some []);
   TarEntry "models/README.md" 7 (Some readme);
   TarEntry "LICENSE" 11 (Some [])].

Definition mixedRefs : list string :=
  ["quay.io/org/model:1.0"; "unreachable.example/model:1"; "quay.io/org/model:1.0"].

(** A catalog model that has a name and nothing else. *)
Definition modelNamed (n : string) : Catalog.CatalogMetadata :=
  Catalog.mkCatalogMetadata (Some n) None None None [] [].

End Demo.

Module WorldOrder.
Import Extractor.

(** The world [w'] holds every file and directory of [w], and the requests
    of [w] are the first requests of [w']. *)
Definition grows (w w' : World) : Prop :=
  dom (files w) ⊆ dom (files w')
  /\ dirs w ⊆ dirs w'
  /\ requests w `prefix_of` requests w'.

End WorldOrder.

Module RegistryDemo.
Import GoStrings Filepath Extractor.

(** As [Demo.demoEnv] with the archive [Demo.oneReadme], but the registry
    answers [blob digest] for the blob of [digest], and blobs starting with
    a zero byte do not decompress. *)
Definition registryEnv (blob : string -> BlobResult) (layers : list BlobInfo) : Env :=
  mkEnv bool false "output" Demo.sanitize
        (fun ref => negb (String.eqb ref "//"))
        (fun ref => negb (HasPrefix ref "unreachable"))
        (fun _ => Some [])
        (fun _ => true)
        (fun _ => Some [Byte.x7b; Byte.x7d])
        (fun _ => layers)
        (fun _ digest => blob digest)
        (fun raw => match raw with Byte.x00 :: _ => None | _ => Some raw end)
        (fun _ => Demo.oneReadme)
        (fun _ => Some Demo.noConfig)
        Demo.unmarshalTags
        Demo.marshalTags
        (fun _ => true)
        (fun _ => zeroExtractedMetadata)
        (fun ref => [mkOCIArtifact ("oci://" +:+ ref) None None])
        (fun _ => false)
        (fun _ => false).

(** The blob [sha256:aa] is not served. *)
Definition lostBlob (digest : string) : BlobResult :=
  if String.eqb digest "sha256:aa" then BlobError else BlobStream [Byte.x01].

End RegistryDemo.

Module CleanPaths.
Import GoStrings Filepath.

(** An element that [Clean] keeps as a name. *)
Definition isName (x : string) : Prop := isElement x /\ x <> "." /\ x <> "..".

(** The elements [Clean] holds while it reads a path, the last one first:
    names, and below them, in a relative path only, parent elements. *)
Definition cleanStack (rooted : bool) (st : list string) : Prop :=
  exists names dots,
    st = names ++ dots
    /\ Forall isName names
    /\ Forall (fun x => x = "..") dots
    /\ (rooted = true -> dots = []).

(** The elements of a path after [Clean], the last one first. *)
Definition elements (path : string) : list string :=
  fold_left (cleanStep (HasPrefix path "/")) (splitSlash path) [].

(** The path that [Clean] writes for the elements [out]. *)
Definition render (rooted : bool) (out : list string) : string :=
  if rooted then "/" +:+ joinSlash out
  else match out with
       | [] => "."
       | _ => joinSlash out
       end.

End CleanPaths.

(** ** More of the Go library: [strings.Split], [strconv.FormatInt],
    [sort.Strings], [encoding/base64], [os.Stat] *)

Module GoLib.
Import GoStrings Extractor.

(** [strings.Split(s, sep)] for a separator of one character. *)
Fixpoint Split (s : string) (sep : ascii) : list string :=
  match s with
  | EmptyString => [EmptyString]
  | String c rest =>
      if Ascii.eqb c sep then EmptyString :: Split rest sep
      else match Split rest sep with
           | [] => [String c EmptyString]
           | x :: xs => String c x :: xs
           end
  end.

(** [strconv.FormatInt(i, 10)]. *)
Definition FormatInt (i : Z) : string := NilZero.string_of_int (Z.to_int i).

(** [sort.Strings]: the strings in increasing order, byte by byte. *)
Definition sort_Strings (x : list string) : list string := merge_sort String.le x.

(** Whether the character [c] occurs in [s]. *)
Fixpoint hasChar (c : ascii) (s : string) : bool :=
  match s with
  | EmptyString => false
  | String c' rest => Ascii.eqb c' c || hasChar c rest
  end.

(** A string that does not start with white space. *)
Definition headOK (s : string) : Prop :=
  match s with
  | String c _ => isSpace c = false
  | EmptyString => True
  end.

(** [os.Stat] succeeds on the files and the directories of the world. *)
Definition Stat (path : string) (w : World) : bool :=
  bool_decide (is_Some (files w !! path)) || bool_decide (path ∈ dirs w).

(** The alphabet of [base64.StdEncoding]. *)
Definition encodeStd : string :=
  "ABCDEFGHIJKLMNOPQRSTUVWXYZabcdefghijklmnopqrstuvwxyz0123456789+/".

(** [enc.encode[val>>shift&0x3F]]. *)
Definition encode (val : N) (shift : N) : ascii :=
  default "="%char
    (String.get (N.to_nat (N.land (N.shiftr val shift) 63)) encodeStd).

(** [base64.StdEncoding.EncodeToString]: three bytes give four characters;
    one or two bytes left at the end give two or three, padded to four. *)
Fixpoint EncodeToString (src : bytes) : string :=
  match src with
  | [] => ""
  | [b0] =>
      let val := N.shiftl (Byte.to_N b0) 16 in
      String (encode val 18) (String (encode val 12) "==")
  | [b0; b1] =>
      let val := N.lor (N.shiftl (Byte.to_N b0) 16) (N.shiftl (Byte.to_N b1) 8) in
      String (encode val 18) (String (encode val 12) (String (encode val 6) "="))
  | b0 :: b1 :: b2 :: rest =>
      let val := N.lor (N.lor (N.shiftl (Byte.to_N b0) 16) (N.shiftl (Byte.to_N b1) 8))
                       (Byte.to_N b2) in
      String (encode val 18)
        (String (encode val 12)
           (String (encode val 6) (String (encode val 0) (EncodeToString rest))))
  end.

End GoLib.

(** ** [internal/catalog/catalog.go]: the static catalogs and the conversion
    of the extracted metadata *)

Module CatalogIO.
Import GoStrings GoLib.

(** [types.MetadataValue]. *)
Record MetadataValue := mkMetadataValue {
  MetadataType : string;
  StringValue : string
}.

(** [types.CatalogOCIArtifact]; as for [Extractor.OCIArtifact], the custom
    properties, which are copied as they are, are left out. *)
Record CatalogOCIArtifact := mkCatalogOCIArtifact {
  URI : string;
  ArtifactCreateTimeSinceEpoch : option string;
  ArtifactLastUpdateTimeSinceEpoch : option string
}.

(** [types.CatalogMetadata] with every field that [catalog.go] sets;
    [Catalog.CatalogMetadata] is the part of it that [deduplicateModels]
    carries. *)
Record CatalogMetadata := mkCatalogMetadata {
  Name : option string;
  Provider : option string;
  Description : option string;
  Readme : option string;
  Language : list string;
  License : option string;
  LicenseLink : option string;
  Tasks : list string;
  CreateTimeSinceEpoch : option string;
  LastUpdateTimeSinceEpoch : option string;
  CustomProperties : gmap string MetadataValue;
  Artifacts : list CatalogOCIArtifact;
  Logo : option string
}.

(** [types.ModelsCatalog]. *)
Record ModelsCatalog := mkModelsCatalog {
  Source : string;
  Models : list CatalogMetadata
}.

(** What the package reads from outside: the embedded [assets/*.svg] and
    the YAML decoder of a catalog file. *)
Record CatalogEnv := mkCatalogEnv {
  assetsFS : gmap string bytes;
  yaml_UnmarshalCatalog : bytes -> option ModelsCatalog
}.

(** *** [validateStaticCatalog] *)

(** The errors of [validateStaticCatalog], with the values their messages
    are formatted with. *)
Inductive ValidationError :=
| ErrMissingSource
| ErrMissingName (i : nat)
| ErrNoArtifacts (name : string)
| ErrMissingURI (name : string) (j : nat).

(** The loop over the artifacts of a model, from index [j] on. *)
Fixpoint validateArtifacts (name : string) (artifacts : list CatalogOCIArtifact)
         (j : nat) : option ValidationError :=
  match artifacts with
  | [] => None
  | artifact :: rest =>
      if String.eqb (URI artifact) "" then Some (ErrMissingURI name j)
      else validateArtifacts name rest (S j)
  end.

(** The loop over the models, from index [i] on. *)
Fixpoint validateModels (models : list CatalogMetadata) (i : nat)
  : option ValidationError :=
  match models with
  | [] => None
  | model :: rest =>
      match Name model with
      | None => Some (ErrMissingName i)
      | Some name =>
          if String.eqb name "" then Some (ErrMissingName i)
          else if Nat.eqb (length (Artifacts model)) 0 then Some (ErrNoArtifacts name)
          else match validateArtifacts name (Artifacts model) 0 with
               | Some err => Some err
               | None => validateModels rest (S i)
               end
      end
  end.

(** [validateStaticCatalog]: the error, [None] for [nil]. *)
Definition validateStaticCatalog (catalog : ModelsCatalog) : option ValidationError :=
  if String.eqb (Source catalog) "" then Some ErrMissingSource
  else validateModels (Models catalog) 0.

(** *** [LoadStaticCatalogs] *)

(** The loop of [LoadStaticCatalogs] over the file paths; the error the
    function returns beside the models is [nil] on every path. *)
Fixpoint loadFrom (C : CatalogEnv) (filePaths : list string) (w : Extractor.World)
         (allStaticModels : list CatalogMetadata) : list CatalogMetadata :=
  match filePaths with
  | [] => allStaticModels
  | filePath :: rest =>
      if negb (Stat filePath w) then loadFrom C rest w allStaticModels
      else
        match Extractor.ReadFile filePath w with
        | None => loadFrom C rest w allStaticModels
        | Some data =>
            match yaml_UnmarshalCatalog C data with
            | None => loadFrom C rest w allStaticModels
            | Some staticCatalog =>
                match validateStaticCatalog staticCatalog with
                | Some err => loadFrom C rest w allStaticModels
                | None => loadFrom C rest w (allStaticModels ++ Models staticCatalog)
                end
            end
        end
  end.

Definition LoadStaticCatalogs (C : CatalogEnv) (filePaths : list string)
           (w : Extractor.World) : list CatalogMetadata :=
  loadFrom C filePaths w [].

(** *** The conversion *)

(** [convertTimestampToString]. *)
Definition convertTimestampToString (timestamp : option Z) : option string :=
  match timestamp with
  | None => None
  | Some t => Some (FormatInt t)
  end.

(** The loop of [convertTagsToCustomProperties]. *)
Fixpoint addTagProperties (tags : list string) (customProps : gmap string MetadataValue)
  : gmap string MetadataValue :=
  match tags with
  | [] => customProps
  | tag :: rest =>
      if negb (String.eqb tag "")
      then addTagProperties rest
             (<[tag := mkMetadataValue "MetadataStringValue" ""]> customProps)
      else addTagProperties rest customProps
  end.

(** [convertTagsToCustomProperties]. *)
Definition convertTagsToCustomProperties (tags : list string)
  : gmap string MetadataValue :=
  addTagProperties tags ∅.

(** The double quote. *)
Definition dq : string := String "034" "".

(** The tabulator and the line feed. *)
Definition tab : string := String "009" "".
Definition lf : string := String "010" "".

(** The text of the fallback logo. *)
Definition fallbackSVG : string :=
  "<svg xmlns=" +:+ dq +:+ "http://www.w3.org/2000/svg" +:+ dq
  +:+ " width=" +:+ dq +:+ "100" +:+ dq
  +:+ " height=" +:+ dq +:+ "100" +:+ dq
  +:+ " viewBox=" +:+ dq +:+ "0 0 100 100" +:+ dq +:+ ">" +:+ lf
  +:+ tab +:+ tab +:+ "<circle cx=" +:+ dq +:+ "50" +:+ dq
  +:+ " cy=" +:+ dq +:+ "50" +:+ dq
  +:+ " r=" +:+ dq +:+ "40" +:+ dq
  +:+ " fill=" +:+ dq +:+ "#888" +:+ dq
  +:+ " stroke=" +:+ dq +:+ "#333" +:+ dq
  +:+ " stroke-width=" +:+ dq +:+ "2" +:+ dq +:+ "/>" +:+ lf
  +:+ tab +:+ tab +:+ "<text x=" +:+ dq +:+ "50" +:+ dq
  +:+ " y=" +:+ dq +:+ "60" +:+ dq
  +:+ " font-family=" +:+ dq +:+ "Arial, sans-serif" +:+ dq
  +:+ " font-size=" +:+ dq +:+ "36" +:+ dq
  +:+ " font-weight=" +:+ dq +:+ "bold" +:+ dq +:+ " " +:+ lf
  +:+ tab +:+ tab +:+ tab +:+ "  text-anchor=" +:+ dq +:+ "middle" +:+ dq
  +:+ " fill=" +:+ dq +:+ "white" +:+ dq +:+ ">M</text>" +:+ lf
  +:+ tab +:+ "</svg>".

(** [getFallbackLogo]. *)
Definition getFallbackLogo : option string :=
  let base64Content := EncodeToString (list_byte_of_string fallbackSVG) in
  let dataUri := "data:image/svg+xml;base64," +:+ base64Content in
  Some dataUri.

(** [encodeSVGToDataURI]. *)
Definition encodeSVGToDataURI (C : CatalogEnv) (svgPath : string) : option string :=
  match assetsFS C !! svgPath with
  | None => getFallbackLogo
  | Some svgContent =>
      let base64Content := EncodeToString svgContent in
      let dataUri := "data:image/svg+xml;base64," +:+ base64Content in
      Some dataUri
  end.

(** The loop of [determineLogo] over the tags: it leaves at the first tag
    that reads [validated]. *)
Fixpoint validatedPath (tags : list string) (svgPath : string) : string :=
  match tags with
  | [] => svgPath
  | raw :: rest =>
      let tag := TrimSpace (ToLower raw) in
      if String.eqb tag "validated" then "assets/catalog-validated_model.svg"
      else validatedPath rest svgPath
  end.

(** [determineLogo]. *)
Definition determineLogo (C : CatalogEnv) (tags : list string) : option string :=
  let svgPath := validatedPath tags "" in
  let svgPath := if String.eqb svgPath "" then "assets/catalog-model.svg" else svgPath in
  encodeSVGToDataURI C svgPath.

(** [convertExtractedToCatalogMetadata]. *)
Definition convertExtractedToCatalogMetadata (C : CatalogEnv)
           (model : Extractor.ExtractedMetadata) : CatalogMetadata :=
  let createTimeStr := convertTimestampToString (Extractor.CreateTimeSinceEpoch model) in
  let lastUpdateTimeStr :=
    convertTimestampToString (Extractor.LastUpdateTimeSinceEpoch model) in
  let createTimeStr :=
    match createTimeStr, Extractor.Artifacts model with
    | None, first :: _ =>
        match Extractor.ArtifactCreateTimeSinceEpoch first with
        | Some t => convertTimestampToString (Some t)
        | None => createTimeStr
        end
    | _, _ => createTimeStr
    end in
  let lastUpdateTimeStr :=
    match lastUpdateTimeStr, Extractor.Artifacts model with
    | None, first :: _ =>
        match Extractor.ArtifactLastUpdateTimeSinceEpoch first with
        | Some t => convertTimestampToString (Some t)
        | None => lastUpdateTimeStr
        end
    | _, _ => lastUpdateTimeStr
    end in
  let catalogArtifacts :=
    (fun artifact =>
       mkCatalogOCIArtifact
         (Extractor.ArtifactURI artifact)
         (convertTimestampToString (Extractor.ArtifactCreateTimeSinceEpoch artifact))
         (convertTimestampToString (Extractor.ArtifactLastUpdateTimeSinceEpoch artifact)))
      <$> Extractor.Artifacts model in
  let customProps := convertTagsToCustomProperties (Extractor.Tags model) in
  mkCatalogMetadata (Extractor.Name model) (Extractor.Provider model)
                    (Extractor.Description model) (Extractor.Readme model)
                    (Extractor.Language model) (Extractor.License model)
                    (Extractor.LicenseLink model) (Extractor.Tasks model)
                    createTimeStr lastUpdateTimeStr customProps catalogArtifacts
                    (determineLogo C (Extractor.Tags model)).

(** *** Notions the statements use *)

(** A model that [validateStaticCatalog] accepts: a name that is not empty,
    an artifact at least, and a URI for every artifact. *)
Definition validModel (model : CatalogMetadata) : Prop :=
  (exists name, Name model = Some name /\ name <> "")
  /\ Artifacts model <> []
  /\ Forall (fun artifact => URI artifact <> "") (Artifacts model).

(** The models that the file at [filePath] contributes: those of its
    catalog, when the file exists, decodes and is valid. *)
Definition catalogOf (C : CatalogEnv) (filePath : string) (w : Extractor.World)
  : list CatalogMetadata :=
  match Extractor.ReadFile filePath w with
  | Some data =>
      match yaml_UnmarshalCatalog C data with
      | Some staticCatalog =>
          match validateStaticCatalog staticCatalog with
          | None => Models staticCatalog
          | Some _ => []
          end
      | None => []
      end
  | None => []
  end.

(** A tag that [determineLogo] reads as [validated]. *)
Definition isValidatedTag (raw : string) : bool :=
  String.eqb (TrimSpace (ToLower raw)) "validated".

(** The data URI of an embedded asset, or of the fallback logo when the
    asset is missing. *)
Definition logoOf (C : CatalogEnv) (svgPath : string) : string :=
  "data:image/svg+xml;base64,"
  +:+ EncodeToString (default (list_byte_of_string fallbackSVG) (assetsFS C !! svgPath)).

End CatalogIO.

(** ** [cmd/model-extractor/main.go]: the inputs of a run and its manifest *)

Module Main.
Import GoStrings Filepath GoLib Extractor.

(** What [main.go] reads from the other packages and from the file system:
    the glob of a pattern, and the two loaders of the [config] package. *)
Inductive LoadError :=
| ErrConfig (msg : string)
| ErrNoIndexFile (modelsIndexPath : string).

Inductive GlobError :=
| ErrGlob
| ErrNoVersionIndex.

Record MainEnv := mkMainEnv {
  Glob : string -> World -> option (list string);
  LoadModelsConfigFromYAML : string -> World -> LoadError + list ModelEntry;
  LoadModelsFromVersionIndex : string -> World -> LoadError + list string
}.

(** *** [getStaticCatalogPaths] *)

(** The loop over the pieces of the flag. *)
Fixpoint appendCustomPaths (customPaths : list string) (paths : list string)
  : list string :=
  match customPaths with
  | [] => paths
  | path :: rest =>
      let path := TrimSpace path in
      if negb (String.eqb path "") then appendCustomPaths rest (paths ++ [path])
      else appendCustomPaths rest paths
  end.

(** [getStaticCatalogPaths]. *)
Definition getStaticCatalogPaths (staticCatalogFiles : string)
           (skipDefaultStaticCatalog : bool) (w : World) : list string :=
  let paths := [] in
  let paths :=
    if negb (String.eqb staticCatalogFiles "")
    then appendCustomPaths (Split staticCatalogFiles ",") paths
    else paths in
  if negb skipDefaultStaticCatalog then
    let defaultPath := "input/supplemental-catalog.yaml" in
    if Stat defaultPath w then paths ++ [defaultPath] else paths
  else paths.

(** *** [getLatestVersionIndexFile] and [loadModelsWithMetadata] *)

(** [getLatestVersionIndexFile]. *)
Definition getLatestVersionIndexFile (M : MainEnv) (w : World) : GlobError + string :=
  match Glob M "data/hugging-face-redhat-ai-validated-v*.yaml" w with
  | None => inl ErrGlob
  | Some files =>
      if Nat.eqb (length files) 0 then inl ErrNoVersionIndex
      else
        match last (sort_Strings files) with
        | Some latest => inr latest
        | None => inl ErrNoVersionIndex
        end
  end.

(** [loadModelsWithMetadata]. *)
Definition loadModelsWithMetadata (M : MainEnv) (modelsIndexPath : string) (w : World)
  : LoadError + list ModelEntry :=
  if Stat modelsIndexPath w then LoadModelsConfigFromYAML M modelsIndexPath w
  else
    match getLatestVersionIndexFile M w with
    | inr latestIndexFile =>
        match LoadModelsFromVersionIndex M latestIndexFile w with
        | inl err => inl err
        | inr modelURIs =>
            inr ((fun uri => mkModelEntry "oci" uri ["validated"]) <$> modelURIs)
        end
    | inl _ => inl (ErrNoIndexFile modelsIndexPath)
    end.

(** *** [processModelsInParallelWithMetadata] *)

(** The loop over the entries: the references, and the entry of each URI. *)
Fixpoint collectRefs (modelEntries : list ModelEntry) (manifestRefs : list string)
         (uriToEntry : gmap string ModelEntry)
  : list string * gmap string ModelEntry :=
  match modelEntries with
  | [] => (manifestRefs, uriToEntry)
  | entry :: rest =>
      collectRefs rest (manifestRefs ++ [URI entry]) (<[URI entry := entry]> uriToEntry)
  end.

(** [processModelsInParallelWithMetadata], run from the world [w]: it may
    return [modelResults] and leave the world [w']. *)
Definition processModelsInParallelWithMetadata (E : Env)
           (modelEntries : list ModelEntry) (maxConcurrent : Z) (w : World)
           (modelResults : list (ModelResult E)) (w' : World) : Prop :=
  let '(manifestRefs, uriToEntry) := collectRefs modelEntries [] ∅ in
  processModelsInParallelWithEntryMap E manifestRefs uriToEntry maxConcurrent
                                      w modelResults w'.

(** *** [generateManifestsYAML] *)

(** [types.ModelManifest], with its [ModelCard] flattened. *)
Record ModelManifest (E : Env) := mkModelManifest {
  ManifestRef : string;
  Present : bool;
  CardMetadata : ModelMetadata E
}.
Arguments mkModelManifest {E} _ _ _.
Arguments ManifestRef {E} _.
Arguments Present {E} _.
Arguments CardMetadata {E} _.

Inductive ManifestError :=
| ErrMarshal
| ErrMkdir
| ErrWrite.

(** [generateManifestsYAML]; [yaml_MarshalManifests] is the YAML encoder of
    [types.ManifestsData]. *)
Definition generateManifestsYAML (E : Env)
           (yaml_MarshalManifests : list (ModelManifest E) -> option bytes)
           (modelResults : list (ModelResult E)) (outputDir : string) (w : World)
  : option ManifestError * World :=
  let manifests :=
    (fun result => mkModelManifest (Ref result) (ModelCardFound result) (Metadata result))
      <$> modelResults in
  match yaml_MarshalManifests manifests with
  | None => (Some ErrMarshal, w)
  | Some yamlData =>
      match MkdirAll E outputDir w with
      | None => (Some ErrMkdir, w)
      | Some w =>
          let manifestsPath := Join [outputDir; "manifests.yaml"] in
          match WriteFile E manifestsPath yamlData w with
          | None => (Some ErrWrite, w)
          | Some w => (None, w)
          end
      end
  end.

(** *** Notions the statements use *)

(** The last entry of [modelEntries] with the URI [uri]. *)
Definition lastWithURI (modelEntries : list ModelEntry) (uri : string)
  : option ModelEntry :=
  last (List.filter (fun entry => String.eqb (URI entry) uri) modelEntries).

(** The pieces of the flag after trimming, without the empty ones. *)
Definition customPaths (staticCatalogFiles : string) : list string :=
  List.filter (fun path => negb (String.eqb path ""))
              (TrimSpace <$> Split staticCatalogFiles ",").

End Main.

Module CatalogDemo.
Import GoLib CatalogIO Extractor.

Definition artifact (uri : string) : CatalogOCIArtifact :=
  mkCatalogOCIArtifact uri None None.

Definition model (name : option string) (artifacts : list CatalogOCIArtifact)
  : CatalogMetadata :=
  mkCatalogMetadata name None None None [] None None [] None None ∅ artifacts None.

Definition goodCatalog : ModelsCatalog :=
  mkModelsCatalog "Red Hat" [model (Some "granite") [artifact "oci://quay.io/org/granite"]].

(** The second artifact of the second model has no URI. *)
Definition badCatalog : ModelsCatalog :=
  mkModelsCatalog "Red Hat"
    [model (Some "granite") [artifact "oci://quay.io/org/granite"];
     model (Some "llama") [artifact "oci://quay.io/org/llama"; artifact ""]].

(** A decoder that knows two files by their first byte, and no embedded
    asset. *)
Definition catalogEnv : CatalogEnv :=
  mkCatalogEnv ∅
    (fun data =>
       match data with
       | [Byte.x01] => Some goodCatalog
       | [Byte.x02] => Some badCatalog
       | _ => None
       end).

Definition catalogWorld : World :=
  mkWorld {["good.yaml" := [Byte.x01]; "bad.yaml" := [Byte.x02]; "junk.yaml" := []]}
          {["input"]} [].

End CatalogDemo.

Module MainDemo.
Import GoLib Main Extractor.

(** Two version index files, found by the glob in the order of their
    creation; no loader knows any file. *)
Definition versionFiles : list string :=
  ["data/hugging-face-redhat-ai-validated-v1-0.yaml";
   "data/hugging-face-redhat-ai-validated-v2-1.yaml";
   "data/hugging-face-redhat-ai-validated-v1-5.yaml"].

Definition mainEnv : MainEnv :=
  mkMainEnv (fun _ _ => Some versionFiles)
            (fun path _ => inl (ErrConfig path))
            (fun path _ =>
               if String.eqb path "data/hugging-face-redhat-ai-validated-v2-1.yaml"
               then inr ["quay.io/org/model:1.0"; "quay.io/org/model:2.0"]
               else inl (ErrConfig path)).

(** Two entries for one reference, with different labels. *)
Definition twiceListed : list ModelEntry :=
  [mkModelEntry "oci" "quay.io/org/model:1.0" ["validated"];
   mkModelEntry "oci" "quay.io/org/model:2.0" [];
   mkModelEntry "oci" "quay.io/org/model:1.0" ["featured"]].

End MainDemo.

(* ===================================================================== *)
(** * Part II. Properties                                                 *)
(* ===================================================================== *)

Module FilepathTests.
Import Filepath.

Example Clean_parent_traversal : Clean "../../etc/passwd" = "../../etc/passwd".
Proof. reflexivity. Qed.

Example Clean_inner_parent : Clean "docs/../../README.md" = "../README.md".
Proof. reflexivity. Qed.

Example Clean_rooted_parent : Clean "/../a//b/./c/.." = "/a/b".
Proof. reflexivity. Qed.

Example Clean_empty : Clean "" = "." /\ Clean "a/.." = "." /\ Clean "/" = "/".
Proof. repeat split. Qed.

Example Join_elements : Join ["output"; "quay.io_org_model"; "models/README.md"]
                        = "output/quay.io_org_model/models/README.md".
Proof. reflexivity. Qed.

Example Join_skips_empty : Join [""; "a"; ""; "b"] = "a/b" /\ Join [""; ""] = "".
Proof. split; reflexivity. Qed.

Example Dir_examples :
  Dir "out/m/models/README.md" = "out/m/models" /\ Dir "README.md" = "."
  /\ Dir "/README.md" = "/".
Proof. repeat split. Qed.

End FilepathTests.

Module FilepathProps.
Import GoStrings Filepath.

Lemma splitSlash_no_slash s : Forall (fun x => hasSlash x = false) (splitSlash s).
Proof.
  induction s as [|c rest IH]; simpl; [by repeat constructor|].
  destruct (Ascii.eqb c "/") eqn:Hc; [by constructor|].
  destruct (splitSlash rest) as [|x xs]; [by repeat constructor; simpl; rewrite Hc|].
  inversion IH; subst. constructor; [|done]. simpl. by rewrite Hc.
Qed.

Lemma cleanStep_elements rooted out elem :
  Forall isElement out -> hasSlash elem = false ->
  Forall isElement (cleanStep rooted out elem).
Proof.
  intros Hout Helem. unfold cleanStep.
  destruct (String.eqb_spec elem ""); [done|].
  destruct (String.eqb_spec elem "."); [done|].
  destruct (String.eqb_spec elem "..").
  - subst elem. destruct out as [|top below].
    + destruct rooted; [done|]. constructor; [by split | done].
    + destruct (String.eqb top "..").
      * constructor; [by split | done].
      * by inversion Hout.
  - by constructor.
Qed.

Lemma fold_cleanStep_elements rooted elems : forall out,
  Forall isElement out -> Forall (fun x => hasSlash x = false) elems ->
  Forall isElement (fold_left (cleanStep rooted) elems out).
Proof.
  induction elems as [|e elems IH]; intros out Hout Helems; simpl; [done|].
  inversion Helems; subst. apply IH; [|done]. by apply cleanStep_elements.
Qed.

Lemma joinSlash_first x rest :
  isElement x -> IsAbs (joinSlash (x :: rest)) = false.
Proof.
  intros [Hne Hslash]. destruct x as [|c x]; [done|].
  simpl in Hslash. apply orb_false_iff in Hslash as [Hc _].
  unfold IsAbs, HasPrefix.
  assert (Hhead : exists tl, joinSlash (String c x :: rest) = String c tl).
  { destruct rest; simpl; eauto. }
  destruct Hhead as [tl ->].
  change (String.prefix "/" (String c tl))
    with (if Ascii.ascii_dec "/" c then String.prefix "" tl else false).
  destruct (Ascii.ascii_dec "/" c) as [<-|]; [|done].
  by rewrite Ascii.eqb_refl in Hc.
Qed.

Lemma prefix_empty s : String.prefix "" s = true.
Proof. by destruct s. Qed.

Lemma IsAbs_slash s : IsAbs ("/" +:+ s) = true.
Proof.
  unfold IsAbs, HasPrefix.
  change (String.prefix "/" ("/" +:+ s))
    with (if Ascii.ascii_dec "/" "/" then String.prefix "" s else false).
  destruct (Ascii.ascii_dec "/" "/"); [apply prefix_empty | done].
Qed.

(** [Clean] keeps a path absolute or relative. *)
Lemma Clean_IsAbs path : IsAbs (Clean path) = IsAbs path.
Proof.
  unfold Clean. destruct (String.eqb_spec path "") as [->|Hne]; [done|].
  fold (IsAbs path). destruct (IsAbs path) eqn:Habs; [apply IsAbs_slash|].
  pose proof (fold_cleanStep_elements false (splitSlash path) []
                (List.Forall_nil _) (splitSlash_no_slash path)) as Hout.
  apply Forall_rev in Hout.
  destruct (rev _) as [|x rest]; [done|].
  inversion Hout; subst. by apply joinSlash_first.
Qed.

End FilepathProps.

Module GoTimeTests.
Import GoTime.

Example daysFromCivil_epoch : daysFromCivil 1970 1 1 = 0.
Proof. reflexivity. Qed.

Example parse_seconds :
  parseRFC3339 "2024-01-15T10:00:00Z" = Some (mkTime 1705312800 0).
Proof. vm_compute. reflexivity. Qed.

Example parse_nanoseconds :
  parseRFC3339 "2024-02-01T00:00:00.123456789Z" = Some (mkTime 1706745600 123456789).
Proof. vm_compute. reflexivity. Qed.

Example parse_zone :
  parseRFC3339 "2024-02-01T01:30:00.5+01:30" = Some (mkTime 1706745600 500000000).
Proof. vm_compute. reflexivity. Qed.

Example parse_rejects :
  parseRFC3339 "2024-02-30T00:00:00Z" = None
  /\ parseRFC3339 "2024-01-15 10:00:00Z" = None
  /\ parseRFC3339 "2024-01-15T10:00:00" = None
  /\ parseRFC3339 "yesterday" = None.
Proof. repeat split. Qed.

End GoTimeTests.

Module TimestampProps.
Import GoTime Extractor.

Lemma parseUint_range s lo hi x : parseUint s lo hi = Some x -> lo <= x <= hi.
Proof.
  unfold parseUint. destruct (digits s 0); [|done].
  destruct (_ && _) eqn:H; [|done]. intros [= <-].
  apply andb_true_iff in H as [H1 H2]. lia.
Qed.

Lemma daysIn_le month year : daysIn month year <= 31.
Proof. unfold daysIn. repeat case_match; lia. Qed.

Lemma daysFromCivil_range year month day :
  0 <= year <= 9999 -> 1 <= month <= 12 -> 1 <= day <= 31 ->
  -719528 <= daysFromCivil year month day <= 2932896.
Proof.
  intros Hy Hm Hd. unfold daysFromCivil.
  destruct (month <=? 2) eqn:E; [apply Z.leb_le in E | apply Z.leb_gt in E];
    Z.div_mod_to_equations; lia.
Qed.

Lemma parseZone_range s z : parseZone s = Some z -> -86340 <= z <= 86340.
Proof.
  unfold parseZone. destruct (String.eqb s "Z"); [intros [= <-]; lia|].
  destruct (negb _); [done|].
  destruct (parseUint _ 0 23) as [hr|] eqn:Hhr; [|done].
  destruct (parseUint _ 0 59) as [mm|] eqn:Hmm; [|done].
  apply parseUint_range in Hhr, Hmm.
  destruct (_ && _); [|done]. intros [= <-]. destruct (isChar s 0 "-"); lia.
Qed.

(** The years 0 to 9999, whatever the zone: the seconds of a parsed time. *)
Lemma parseRFC3339_range s t :
  parseRFC3339 s = Some t -> -62167305540 <= Unix t <= 253402387139.
Proof.
  unfold parseRFC3339. intros H.
  repeat case_match; simplify_eq.
  repeat match goal with
         | Hu : parseUint _ _ _ = Some _ |- _ => apply parseUint_range in Hu
         | Hz : parseZone _ = Some _ |- _ => apply parseZone_range in Hz
         end.
  unfold Unix, Date. simpl.
  match goal with
  | |- _ <= daysFromCivil ?y ?m ?d * _ + _ + _ + _ - _ <= _ =>
      pose proof (daysIn_le m y);
      assert (-719528 <= daysFromCivil y m d <= 2932896)
        by (apply daysFromCivil_range; lia)
  end.
  lia.
Qed.

Lemma parseTimestampWithFallback_parse text t :
  parseTimestampWithFallback text = Some t <-> text <> "" /\ parseRFC3339 text = Some t.
Proof.
  unfold parseTimestampWithFallback.
  destruct (String.eqb_spec text ""); [naive_solver|].
  simpl. destruct (parseRFC3339 text); naive_solver.
Qed.

Lemma parseTimestampWithFallback_empty : parseTimestampWithFallback "" = None.
Proof. reflexivity. Qed.

Lemma wrap64_small z : - 2 ^ 63 <= z < 2 ^ 63 -> wrap64 z = z.
Proof. intros H. unfold wrap64. rewrite Z.mod_small; lia. Qed.

(** The multiplication by 1000 never leaves [int64]. *)
Lemma epochMs_exact text t :
  parseTimestampWithFallback text = Some t -> epochMs t = Unix t * 1000.
Proof.
  intros [_ H]%parseTimestampWithFallback_parse. apply parseRFC3339_range in H.
  unfold epochMs. apply wrap64_small. lia.
Qed.

Lemma extractTimestampsFromConfig_eq E configBlob config :
  configBlob <> [] -> json_Unmarshal E configBlob = Some config ->
  extractTimestampsFromConfig E configBlob
  = (epochMs <$> parseTimestampWithFallback (Created config),
     match last (History config) with
     | Some lastHistoryEntry =>
         match parseTimestampWithFallback lastHistoryEntry with
         | Some parsedTime => Some (epochMs parsedTime)
         | None => epochMs <$> parseTimestampWithFallback (Created config)
         end
     | None => epochMs <$> parseTimestampWithFallback (Created config)
     end).
Proof.
  intros Hne Hjson. unfold extractTimestampsFromConfig.
  destruct configBlob as [|b bs]; [done|]. rewrite Hjson.
  assert (Hc : (if negb (String.eqb (Created config) "")
                then match parseTimestampWithFallback (Created config) with
                     | Some parsedTime => Some (epochMs parsedTime)
                     | None => None
                     end
                else None)
               = epochMs <$> parseTimestampWithFallback (Created config)).
  { destruct (String.eqb_spec (Created config) "") as [->|_]; simpl; [done|].
    by destruct (parseTimestampWithFallback (Created config)). }
  rewrite Hc. f_equal.
  destruct (last (History config)) as [h|]; [|done].
  by destruct (String.eqb_spec h "") as [->|_].
Qed.

(** C4.  With [created = 2024-01-15T10:00:00Z] and the single history entry
    [2024-02-01T00:00:00.123456789Z], the creation epoch is that of
    2024-01-15T10:00:00Z and the update epoch that of the second in which
    2024-02-01T00:00:00.123456789Z falls.  In general the update time is the
    creation time, unless the last history entry parses: then it is the
    time of that entry. *)
Theorem extractTimestampsFromConfig_create_update E configBlob config :
  configBlob <> [] ->
  json_Unmarshal E configBlob = Some config ->
  let createTime := epochMs <$> parseTimestampWithFallback (Created config) in
  extractTimestampsFromConfig E configBlob
  = (createTime,
     match last (History config) with
     | Some lastHistoryEntry =>
         match parseTimestampWithFallback lastHistoryEntry with
         | Some parsedTime => Some (epochMs parsedTime)
         | None => createTime
         end
     | None => createTime
     end)
  /\ (Created config = "2024-01-15T10:00:00Z" ->
      History config = ["2024-02-01T00:00:00.123456789Z"] ->
      extractTimestampsFromConfig E configBlob
      = (Some (Unix (Date 2024 1 15 10 0 0 0) * 1000),
         Some (Unix (Date 2024 2 1 0 0 0 123456789) * 1000))
      /\ Unix (Date 2024 1 15 10 0 0 0) * 1000 = 1705312800000
      /\ Unix (Date 2024 2 1 0 0 0 123456789) * 1000 = 1706745600000).
Proof.
  intros Hne Hjson createTime.
  split; [by apply extractTimestampsFromConfig_eq|].
  intros Hc Hh. rewrite (extractTimestampsFromConfig_eq E configBlob config Hne Hjson).
  rewrite Hc, Hh. vm_compute. done.
Qed.

Lemma extractTimestampsFromConfig_create_update_witness :
  extractTimestampsFromConfig (Demo.demoEnv [] [] Demo.exampleConfig []) [Byte.x7b; Byte.x7d]
  = (Some 1705312800000, Some 1706745600000).
Proof.
  pose proof (extractTimestampsFromConfig_create_update
                (Demo.demoEnv [] [] Demo.exampleConfig []) [Byte.x7b; Byte.x7d] Demo.exampleConfig
                ltac:(discriminate) eq_refl) as H.
  cbv zeta in H. destruct H as [_ H].
  destruct (H eq_refl eq_refl) as (H1 & H2 & H3).
  rewrite H1, H2, H3. reflexivity.
Defined.

(** C10.  An epoch that [extractTimestampsFromConfig] produces is the Unix
    seconds of a parsed time, times 1000, computed without overflow: a whole
    number of seconds.  The nanoseconds of
    [2024-02-01T00:00:00.123456789Z] leave no trace in it. *)
Theorem extractTimestampsFromConfig_whole_seconds E configBlob ms :
  (extractTimestampsFromConfig E configBlob).1 = Some ms
  \/ (extractTimestampsFromConfig E configBlob).2 = Some ms ->
  (ms mod 1000 = 0
   /\ exists text parsedTime,
        parseTimestampWithFallback text = Some parsedTime
        /\ ms = Unix parsedTime * 1000)
  /\ epochMs <$> parseTimestampWithFallback "2024-02-01T00:00:00.123456789Z"
     = Some 1706745600000
  /\ nsec <$> parseTimestampWithFallback "2024-02-01T00:00:00.123456789Z"
     = Some 123456789.
Proof.
  intros H. split; [|by vm_compute].
  assert (Hex : exists text parsedTime,
             parseTimestampWithFallback text = Some parsedTime
             /\ ms = epochMs parsedTime).
  { unfold extractTimestampsFromConfig in H.
    destruct configBlob as [|b bs]; [simpl in H; naive_solver|].
    destruct (json_Unmarshal E (b :: bs)) as [config|]; [|simpl in H; naive_solver].
    simpl in H. destruct H as [H|H].
    - destruct (negb _); [|done].
      destruct (parseTimestampWithFallback (Created config)) eqn:Hp; naive_solver.
    - destruct (last (History config)) as [h|].
      + destruct (negb (String.eqb h "")).
        * destruct (parseTimestampWithFallback h) eqn:Hp; [naive_solver|].
          destruct (negb _); [|done].
          destruct (parseTimestampWithFallback (Created config)) eqn:Hp'; naive_solver.
        * destruct (negb _); [|done].
          destruct (parseTimestampWithFallback (Created config)) eqn:Hp'; naive_solver.
      + destruct (negb _); [|done].
        destruct (parseTimestampWithFallback (Created config)) eqn:Hp'; naive_solver. }
  destruct Hex as (text & parsedTime & Hp & ->).
  rewrite (epochMs_exact text parsedTime Hp). split.
  - apply Z.mod_mul. lia.
  - eauto.
Qed.

Lemma extractTimestampsFromConfig_whole_seconds_witness :
  (extractTimestampsFromConfig (Demo.demoEnv [] [] Demo.exampleConfig [])
                               [Byte.x7b; Byte.x7d]).2 = Some 1706745600000
  /\ 1706745600000 mod 1000 = 0.
Proof.
  assert (H : (extractTimestampsFromConfig (Demo.demoEnv [] [] Demo.exampleConfig [])
                                           [Byte.x7b; Byte.x7d]).2 = Some 1706745600000)
    by (vm_compute; reflexivity).
  split; [exact H|].
  apply (extractTimestampsFromConfig_whole_seconds
           (Demo.demoEnv [] [] Demo.exampleConfig []) [Byte.x7b; Byte.x7d] 1706745600000).
  right. exact H.
Defined.

End TimestampProps.

Module LabelProps.
Import GoStrings Filepath Extractor.

Lemma contains_elem_of (slice : list string) item :
  contains slice item = true <-> item ∈ slice.
Proof.
  induction slice as [|s rest IH]; simpl.
  - rewrite elem_of_nil. naive_solver.
  - rewrite elem_of_cons. destruct (String.eqb_spec s item); naive_solver.
Qed.

Lemma contains_false (slice : list string) item :
  contains slice item = false <-> item ∉ slice.
Proof. rewrite <- contains_elem_of. by destruct (contains slice item). Qed.

Lemma isNew_true (tags : list string) label :
  isNew tags label = true <-> label <> "" /\ label ∉ tags.
Proof.
  unfold isNew. rewrite andb_true_iff, !negb_true_iff, contains_false.
  destruct (String.eqb_spec label ""); naive_solver.
Qed.

(** The loop appends to the tags the labels that are new, each once, in the
    order of the labels; the flag records whether it appended. *)
Lemma addLabels_appends (labels : list string) : forall (tags : list string) changed,
  exists new,
    addLabels labels tags changed
    = (tags ++ new, changed || negb (bool_decide (new = [])))
    /\ NoDup new
    /\ sublist new labels
    /\ forall x, x ∈ new <-> x ∈ labels /\ x <> "" /\ x ∉ tags.
Proof.
  induction labels as [|label rest IH]; intros tags changed; simpl.
  - exists []. rewrite app_nil_r, orb_false_r.
    split_and!; [done | constructor | done | ].
    intros x. rewrite !elem_of_nil. naive_solver.
  - fold (isNew tags label). destruct (isNew tags label) eqn:Hnew.
    + apply isNew_true in Hnew as [Hne Hnot].
      destruct (IH (tags ++ [label]) true) as (new & Heq & Hnd & Hsub & Hmem).
      exists (label :: new). rewrite Heq, <- app_assoc. simpl.
      rewrite orb_true_r. split_and!; [done | | | intros x; split].
      * constructor; [|done]. rewrite Hmem, elem_of_app, list_elem_of_singleton.
        naive_solver.
      * by constructor.
      * intros [->|Hx]%elem_of_cons; [by rewrite elem_of_cons; auto|].
        apply Hmem in Hx. rewrite elem_of_app in Hx. rewrite elem_of_cons. naive_solver.
      * intros (Hx & Hxne & Hxnot). rewrite elem_of_cons.
        destruct (decide (x = label)) as [->|Hxl]; [by left|]. right.
        apply Hmem. rewrite elem_of_app, list_elem_of_singleton.
        apply elem_of_cons in Hx. naive_solver.
    + destruct (IH tags changed) as (new & Heq & Hnd & Hsub & Hmem).
      exists new. rewrite Heq. split_and!; [done | done | by constructor | intros x; split].
      * intros Hx. apply Hmem in Hx. rewrite elem_of_cons. naive_solver.
      * intros (Hx & Hxne & Hxnot). apply Hmem.
        apply elem_of_cons in Hx as [->|Hx]; [|done].
        assert (isNew tags label = true) by (apply isNew_true; done). congruence.
Qed.

(** Labels that are already tags, or empty, change nothing. *)
Lemma addLabels_present (labels tags : list string) changed :
  (forall x, x ∈ labels -> x = "" \/ x ∈ tags) ->
  addLabels labels tags changed = (tags, changed).
Proof.
  intros Hall. destruct (addLabels_appends labels tags changed)
    as (new & Heq & _ & _ & Hmem).
  assert (new = []) as ->.
  { destruct new as [|x new]; [done|]. exfalso.
    assert (Hx : x ∈ x :: new) by (apply elem_of_cons; auto).
    apply Hmem in Hx as (Hx & ? & ?). destruct (Hall x Hx); done. }
  by rewrite Heq, app_nil_r, orb_false_r.
Qed.

(** After the loop every label is a tag, or empty. *)
Lemma addLabels_covers (labels tags : list string) changed x :
  x ∈ labels -> x = "" \/ x ∈ (addLabels labels tags changed).1.
Proof.
  intros Hx. destruct (addLabels_appends labels tags changed)
    as (new & Heq & _ & _ & Hmem).
  rewrite Heq. simpl. rewrite elem_of_app.
  destruct (decide (x = "")); [by left|]. right.
  destruct (decide (x ∈ tags)); [by left|]. right. by apply Hmem.
Qed.

Lemma ReadFile_WriteFile E path data w w' :
  WriteFile E path data w = Some w' -> ReadFile path w' = Some data.
Proof.
  unfold WriteFile, ReadFile. destruct (writeFails E path); [done|].
  intros [= <-]. simpl. apply lookup_insert_eq.
Qed.

(** With labels that are all present, the file is not touched. *)
Lemma addModelLabelTags_present E manifestRef entry w tags :
  persistedTags E manifestRef w = Some tags ->
  (forall x, x ∈ Labels entry -> x = "" \/ x ∈ tags) ->
  addModelLabelTags E manifestRef entry w = w.
Proof.
  unfold persistedTags, addModelLabelTags. intros Hp Hall.
  destruct (ReadFile _ w) as [data|]; [|done].
  destruct (yaml_Unmarshal E data) as [metadata|]; [|done].
  simpl in Hp. injection Hp as ->.
  by rewrite (addLabels_present _ _ _ Hall).
Qed.

(** What [addModelLabelTags] leaves in the file, when it writes. *)
Lemma addModelLabelTags_cases E manifestRef entry w :
  addModelLabelTags E manifestRef entry w = w
  \/ exists data metadata updated w',
       ReadFile (metadataPathOf E manifestRef) w = Some data
       /\ yaml_Unmarshal E data = Some metadata
       /\ yaml_Marshal E (setTags metadata
                            (addLabels (Labels entry) (Tags metadata) false).1)
          = Some updated
       /\ WriteFile E (metadataPathOf E manifestRef) updated w = Some w'
       /\ addModelLabelTags E manifestRef entry w = w'.
Proof.
  unfold addModelLabelTags.
  destruct (ReadFile _ w) as [data|] eqn:Hr; [|by left].
  destruct (yaml_Unmarshal E data) as [metadata|] eqn:Hu; [|by left].
  destruct (addLabels _ _ false) as [tags changed] eqn:Ha.
  destruct changed; [|by left].
  destruct (yaml_Marshal E _) as [updated|] eqn:Hm; [|by left].
  destruct (WriteFile E _ updated w) as [w'|] eqn:Hw; [|by left].
  right. exists data, metadata, updated, w'. rewrite Ha. by split_and!.
Qed.

(** C8.  For a model whose [metadata.yaml] holds the tags [tags]:
    - the merged list is [tags] followed by the labels that are neither
      empty nor already among the tags, each once, in the order of the
      labels; a list without duplicates stays without duplicates;
    - when every label is already a tag, [addModelLabelTags] changes
      nothing;
    - merging the same labels into the merged list changes nothing, and
      applying [addModelLabelTags] a second time leaves the world of the
      first application, as long as the record is read back with the
      tags it was written with;
    - after [addModelLabelTags] the [metadata.yaml] of the model holds the
      merged list, and still holds it after a second application, as long
      as the file can be written and a record with the merged tags is
      encoded and read back with these tags;
    - [addModelLabelTags] writes no other file, creates no directory and
      sends no request. *)
Theorem addModelLabelTags_idempotent_union E manifestRef entry w tags :
  persistedTags E manifestRef w = Some tags ->
  let merged := (addLabels (Labels entry) tags false).1 in
  let w1 := addModelLabelTags E manifestRef entry w in
  (exists new,
      merged = tags ++ new
      /\ NoDup new
      /\ sublist new (Labels entry)
      /\ (forall x, x ∈ new <-> x ∈ Labels entry /\ x <> "" /\ x ∉ tags)
      /\ (NoDup tags -> NoDup merged))
  /\ ((forall x, x ∈ Labels entry -> x = "" \/ x ∈ tags) -> merged = tags /\ w1 = w)
  /\ addLabels (Labels entry) merged false = (merged, false)
  /\ ((forall m, Tags m = merged -> keepsTags E m) ->
      addModelLabelTags E manifestRef entry w1 = w1
      /\ persistedTags E manifestRef (addModelLabelTags E manifestRef entry w1)
         = persistedTags E manifestRef w1)
  /\ (writeFails E (metadataPathOf E manifestRef) = false ->
      (forall m, Tags m = merged ->
                 exists data m',
                   yaml_Marshal E m = Some data
                   /\ yaml_Unmarshal E data = Some m'
                   /\ Tags m' = merged) ->
      persistedTags E manifestRef w1 = Some merged
      /\ persistedTags E manifestRef (addModelLabelTags E manifestRef entry w1)
         = Some merged)
  /\ (wroteOnly w w1 [metadataPathOf E manifestRef]
      /\ dirs w1 = dirs w
      /\ requests w1 = requests w).
Proof.
  intros Hp merged w1.
  destruct (addLabels_appends (Labels entry) tags false)
    as (new & Heq & Hnd & Hsub & Hmem).
  assert (Hmerged : merged = tags ++ new) by (unfold merged; by rewrite Heq).
  assert (Hfix : addLabels (Labels entry) merged false = (merged, false)).
  { apply addLabels_present. intros x Hx. unfold merged.
    by apply addLabels_covers. }
  assert (Hworld : wroteOnly w w1 [metadataPathOf E manifestRef]
                   /\ dirs w1 = dirs w /\ requests w1 = requests w).
  { destruct (addModelLabelTags_cases E manifestRef entry w)
      as [Hsame | (data & metadata & updated & w' & Hr & Hu & Hm & Hw & Hres)].
    - unfold w1. rewrite Hsame. split; [|done]. intros p Hp'. by destruct Hp'.
    - unfold w1. rewrite Hres. unfold WriteFile in Hw.
      destruct (writeFails E (metadataPathOf E manifestRef)); [done|].
      injection Hw as <-. simpl. split; [|done].
      intros p Hp'. simpl in Hp'. apply list_elem_of_singleton.
      destruct (decide (p = metadataPathOf E manifestRef)) as [->|Hne]; [done|].
      by rewrite lookup_insert_ne in Hp'. }
  split_and!.
  - exists new. split_and!; [done | done | done | done |].
    intros Htags. rewrite Hmerged. apply NoDup_app. split_and!; [done | | done].
    intros x Hx Hx'. apply Hmem in Hx'. naive_solver.
  - intros Hall. split.
    + unfold merged. by rewrite (addLabels_present _ _ _ Hall).
    + by apply (addModelLabelTags_present E manifestRef entry w tags).
  - done.
  - intros Hkeep.
    assert (Hw1 : addModelLabelTags E manifestRef entry w1 = w1); [|by rewrite Hw1].
    destruct (addModelLabelTags_cases E manifestRef entry w)
      as [Hsame | (data & metadata & updated & w' & Hr & Hu & Hm & Hw & Hres)].
    + unfold w1. by rewrite !Hsame.
    + assert (Htags : Tags metadata = tags).
      { unfold persistedTags in Hp. rewrite Hr, Hu in Hp. simpl in Hp. congruence. }
      rewrite Htags in Hm. fold merged in Hm.
      unfold w1. rewrite Hres.
      unfold addModelLabelTags at 1. rewrite (ReadFile_WriteFile _ _ _ _ _ Hw).
      destruct (yaml_Unmarshal E updated) as [m'|] eqn:Hu'; [|done].
      assert (Hm' : Tags m' = merged).
      { rewrite (Hkeep (setTags metadata merged) eq_refl updated m' Hm Hu'). done. }
      by rewrite Hm', Hfix.
  - intros Hwr Hcodec.
    assert (Hw1 : persistedTags E manifestRef w1 = Some merged).
    { unfold w1, addModelLabelTags. unfold persistedTags in Hp.
      destruct (ReadFile (metadataPathOf E manifestRef) w) as [data|] eqn:Hr; [|done].
      destruct (yaml_Unmarshal E data) as [metadata|] eqn:Hu; [|done].
      simpl in Hp. injection Hp as Htags. rewrite Htags, Heq.
      destruct (bool_decide (new = [])) eqn:Hnew; simpl.
      - apply bool_decide_eq_true in Hnew. subst new.
        unfold persistedTags. rewrite Hr, Hu. simpl.
        by rewrite Htags, Hmerged, app_nil_r.
      - destruct (Hcodec (setTags metadata (tags ++ new)))
          as (updated & m' & Hm & Hu' & Ht); [by rewrite Hmerged|].
        rewrite Hm. unfold WriteFile. rewrite Hwr.
        unfold persistedTags, ReadFile. simpl. rewrite lookup_insert_eq, Hu'. simpl.
        by rewrite Ht. }
    split; [exact Hw1|].
    unfold addModelLabelTags at 1. unfold persistedTags in Hw1.
    destruct (ReadFile (metadataPathOf E manifestRef) w1) as [data1|] eqn:Hr1; [|done].
    destruct (yaml_Unmarshal E data1) as [metadata1|] eqn:Hu1; [|done].
    simpl in Hw1. injection Hw1 as Htags1. rewrite Htags1, Hfix.
    unfold persistedTags. by rewrite Hr1, Hu1, <- Htags1.
  - apply Hworld.
  - apply Hworld.
  - apply Hworld.
Qed.

Lemma addModelLabelTags_idempotent_union_witness :
  persistedTags (Demo.demoEnv [] [] Demo.noConfig []) "quay.io/org/model:1.0" Demo.taggedWorld
  = Some ["validated"]
  /\ addLabels (Labels Demo.taggedEntry)
               (addLabels (Labels Demo.taggedEntry) ["validated"] false).1 false
     = ((addLabels (Labels Demo.taggedEntry) ["validated"] false).1, false)
  /\ persistedTags (Demo.demoEnv [] [] Demo.noConfig []) "quay.io/org/model:1.0"
       (addModelLabelTags (Demo.demoEnv [] [] Demo.noConfig []) "quay.io/org/model:1.0"
                          Demo.taggedEntry Demo.taggedWorld)
     = Some ["validated"; "featured"].
Proof.
  assert (H : persistedTags (Demo.demoEnv [] [] Demo.noConfig []) "quay.io/org/model:1.0"
                            Demo.taggedWorld = Some ["validated"]) by (vm_compute; reflexivity).
  split; [exact H|].
  pose proof (addModelLabelTags_idempotent_union
                (Demo.demoEnv [] [] Demo.noConfig []) "quay.io/org/model:1.0"
                Demo.taggedEntry Demo.taggedWorld ["validated"] H)
    as (_ & _ & Hfix & _ & Hpersisted & _).
  split; [exact Hfix|].
  apply Hpersisted; [reflexivity|].
  intros m Hm.
  exists (list_byte_of_string (String.concat (String "010" "") ["validated"; "featured"])),
         (setTags zeroExtractedMetadata ["validated"; "featured"]).
  split_and!; [|reflexivity|reflexivity].
  change (yaml_Marshal (Demo.demoEnv [] [] Demo.noConfig []) m)
    with (Some (list_byte_of_string (String.concat (String "010" "") (Tags m)))).
  by rewrite Hm.
Defined.

Example addModelLabelTags_merges :
  let E := Demo.demoEnv [] [] Demo.noConfig [] in
  let w1 := addModelLabelTags E "quay.io/org/model:1.0" Demo.taggedEntry Demo.taggedWorld in
  persistedTags E "quay.io/org/model:1.0" w1 = Some ["validated"; "featured"]
  /\ addModelLabelTags E "quay.io/org/model:1.0" Demo.taggedEntry w1 = w1.
Proof. split; vm_compute; reflexivity. Qed.

End LabelProps.

Module ScanProps.
Import GoStrings Filepath Extractor.

(** *** The archive *)

Lemma scanTar_second (tr : list TarItem) name content :
  scanTar tr 1 name content
  = (match mdEntries tr with [] => 1 | _ :: _ => 2 end, name, content).
Proof.
  induction tr as [|[entry size body|] rest IH]; simpl; [done | | done].
  destruct (HasSuffix entry ".md"); [done | apply IH].
Qed.

(** The loop over the archive counts the [.md] entries up to two and keeps
    the first one. *)
Lemma scanTar_mdEntries (tr : list TarItem) :
  scanTar tr 0 "" []
  = match mdEntries tr with
    | [] => (0, "", [])
    | [(name, body)] => (1, name, buffered body)
    | (name, body) :: _ :: _ => (2, name, buffered body)
    end.
Proof.
  induction tr as [|[entry size body|] rest IH]; simpl; [done | | done].
  destruct (HasSuffix entry ".md"); [|apply IH].
  destruct body as [content|]; simpl; rewrite scanTar_second;
    by destruct (mdEntries rest).
Qed.


(** An entry that is no [.md] file does not stop the loop, whatever its
    name, and leaves no trace. *)
Lemma scanTar_skips name size body rest count first content :
  HasSuffix name ".md" = false ->
  scanTar (TarEntry name size body :: rest) count first content
  = scanTar rest count first content.
Proof. intros H. simpl. by rewrite H. Qed.

(** *** The layer *)

(** A request with a new cache always reaches the registry. *)
Lemma GetBlob_new_cache E src timeout digest w :
  GetBlob E src timeout digest blobinfocachememory_New w
  = (registryBlob E src digest,
     <[digest := registryBlob E src digest]> blobinfocachememory_New,
     mkWorld (files w) (dirs w) (requests w ++ [mkBlobRequest src digest timeout])).
Proof. unfold GetBlob, blobinfocachememory_New. by rewrite lookup_empty. Qed.

(** A cache that holds the blob would answer without a request. *)
Lemma GetBlob_cached E src timeout digest cache blob w :
  cache !! digest = Some blob ->
  GetBlob E src timeout digest cache w = (blob, cache, w).
Proof. intros H. unfold GetBlob. by rewrite H. Qed.

Lemma scanLayer_other E layer src manifestRef configBlob w :
  isModelCardLayer layer = false ->
  scanLayer E layer src manifestRef configBlob w = Continue w.
Proof. intros H. unfold scanLayer. by rewrite H. Qed.

Lemma scanLayer_doc E layer src manifestRef configBlob w :
  isModelCardLayer layer = true ->
  scanLayer E layer src manifestRef configBlob w
  = match layerArchive E src layer with
    | Some tr =>
        match mdEntries tr with
        | [(name, body)] =>
            writeModelCard E manifestRef configBlob name (buffered body)
                           (requested src layer w)
        | _ => Continue (requested src layer w)
        end
    | None => Continue (requested src layer w)
    end.
Proof.
  intros H. unfold scanLayer, layerArchive. rewrite H, GetBlob_new_cache.
  fold (requested src layer w).
  destruct (registryBlob E src (Digest layer)) as [| |raw]; [done | done |].
  destruct (if Contains (MediaType layer) "+gzip" then gzip_NewReader E raw else Some raw)
    as [reader|]; [|done].
  simpl. rewrite scanTar_mdEntries.
  by destruct (mdEntries (tar_NewReader E reader)) as [|[n b] [|? ?]].
Qed.

(** *** The path checks *)

Lemma writeModelCard_unsafe E manifestRef configBlob name content w :
  safeEntryName E manifestRef name = false ->
  writeModelCard E manifestRef configBlob name content w = Continue w.
Proof.
  unfold safeEntryName, violates, inside, cardPath, modelDirOf, writeModelCard.
  intros H. destruct (IsAbs (Clean name) || HasPrefix (Clean name) "../"); [done|].
  simpl in H. apply orb_false_iff in H as [H1 H2]. by rewrite H1, H2.
Qed.

Lemma wroteOnly_refl w paths : wroteOnly w w paths.
Proof. by intros p Hp. Qed.

Lemma wroteOnly_WriteFile E path data w0 w w' (paths : list string) :
  wroteOnly w0 w paths -> path ∈ paths ->
  WriteFile E path data w = Some w' -> wroteOnly w0 w' paths.
Proof.
  unfold WriteFile. intros Hw Hin. destruct (writeFails E path); [done|].
  intros [= <-] p Hp. simpl in Hp.
  destruct (decide (path = p)) as [<-|Hne]; [done|].
  rewrite lookup_insert_ne in Hp by done. by apply Hw.
Qed.

Lemma wroteOnly_MkdirAll E path w0 w w' (paths : list string) :
  wroteOnly w0 w paths -> MkdirAll E path w = Some w' -> wroteOnly w0 w' paths.
Proof.
  unfold MkdirAll. intros Hw. destruct (mkdirFails E path); [done|].
  by intros [= <-].
Qed.

(** With a safe name the function returns when the directory and the file
    can be written; it writes the model card and at most its
    [metadata.yaml]. *)
Lemma writeModelCard_safe E manifestRef configBlob name content w :
  safeEntryName E manifestRef name = true ->
  let o := writeModelCard E manifestRef configBlob name content w in
  (returns o = true
   <-> mkdirFails E (Dir (cardPath E manifestRef name)) = false
       /\ writeFails E (cardPath E manifestRef name) = false)
  /\ (returns o = false -> files (outcomeWorld o) = files w)
  /\ wroteOnly w (outcomeWorld o)
       [cardPath E manifestRef name;
        Join [Dir (cardPath E manifestRef name); "metadata.yaml"]]
  /\ requests (outcomeWorld o) = requests w.
Proof.
  unfold safeEntryName, violates, inside. intros [H1 H2]%andb_true_iff.
  apply negb_true_iff in H1. apply orb_true_iff in H2.
  unfold writeModelCard. fold (modelDirOf E manifestRef). fold (cardPath E manifestRef name).
  rewrite H1.
  assert (Hg : negb (HasPrefix (Clean (cardPath E manifestRef name))
                               (Clean (modelDirOf E manifestRef) +:+ "/"))
               && negb (Clean (cardPath E manifestRef name)
                        =? Clean (modelDirOf E manifestRef))%string = false).
  { apply andb_false_iff. destruct H2 as [->| ->]; auto. }
  rewrite Hg. unfold MkdirAll, WriteFile.
  destruct (mkdirFails E (Dir (cardPath E manifestRef name))) eqn:Hmk; simpl.
  { split_and!; [naive_solver | done | apply wroteOnly_refl | done]. }
  destruct (writeFails E (cardPath E manifestRef name)) eqn:Hwr; simpl.
  { split_and!; [naive_solver | done | by intros p Hp | done]. }
  destruct (extractTimestampsFromConfig E configBlob) as [createTime updateTime].
  simpl. split_and!; [done | done | |].
  - intros p Hp. rewrite !elem_of_cons.
    destruct (decide (p = cardPath E manifestRef name)) as [->|Hne]; [by left|].
    right; left.
    destruct (yaml_Marshal E _) as [y|]; simpl in Hp.
    + destruct (writeFails E (Join [Dir (cardPath E manifestRef name); "metadata.yaml"]));
        simpl in Hp.
      * by rewrite lookup_insert_ne in Hp.
      * destruct (decide (p = Join [Dir (cardPath E manifestRef name); "metadata.yaml"]))
          as [->|Hne']; [done|].
        by rewrite !lookup_insert_ne in Hp.
    + by rewrite lookup_insert_ne in Hp.
  - destruct (yaml_Marshal E _) as [y|]; [|done].
    by destruct (writeFails E (Join [Dir (cardPath E manifestRef name); "metadata.yaml"])).
Qed.

(** *** The skeleton and the labels leave the requests alone *)

Lemma createSkeletonMetadata_world E manifestRef configBlob w :
  requests (createSkeletonMetadata E manifestRef configBlob w) = requests w
  /\ wroteOnly w (createSkeletonMetadata E manifestRef configBlob w)
               [skeletonPath E manifestRef].
Proof.
  unfold createSkeletonMetadata, MkdirAll, WriteFile, skeletonPath.
  destruct (mkdirFails E _); [split; [done | apply wroteOnly_refl]|].
  destruct (extractTimestampsFromConfig E configBlob) as [createTime updateTime].
  destruct (yaml_Marshal E _) as [y|]; [|split; [done | by intros p Hp]].
  destruct (writeFails E _); simpl; [split; [done | by intros p Hp]|].
  split; [done|]. intros p Hp. simpl in Hp. apply elem_of_cons. left.
  destruct (decide (p = Join [Join [outputDir E; SanitizeManifestRef E manifestRef; "models"];
                              "metadata.yaml"])) as [->|Hne]; [done|].
  by rewrite lookup_insert_ne in Hp.
Qed.

Lemma addModelLabelTags_requests E manifestRef entry w :
  requests (addModelLabelTags E manifestRef entry w) = requests w.
Proof.
  destruct (LabelProps.addModelLabelTags_cases E manifestRef entry w)
    as [->|(data & metadata & updated & w' & _ & _ & _ & Hw & ->)]; [done|].
  unfold WriteFile in Hw. destruct (writeFails E _); [done|]. by injection Hw as <-.
Qed.

(** *** The loop over the layers *)

Lemma scanLayersForModelCard_continue E layer rest src manifestRef configBlob w w' :
  scanLayer E layer src manifestRef configBlob w = Continue w' ->
  scanLayersForModelCard E (layer :: rest) src manifestRef configBlob w
  = scanLayersForModelCard E rest src manifestRef configBlob w'.
Proof. intros H. simpl. by rewrite H. Qed.

Lemma scanLayer_requests E layer src manifestRef configBlob w :
  requests (outcomeWorld (scanLayer E layer src manifestRef configBlob w))
  = requests w ++ docRequests src [layer].
Proof.
  unfold docRequests. simpl.
  destruct (isModelCardLayer layer) eqn:Hdoc.
  - rewrite scanLayer_doc by done. simpl.
    destruct (layerArchive E src layer) as [tr|]; [|done].
    destruct (mdEntries tr) as [|[name body] [|? ?]]; [done | | done].
    destruct (safeEntryName E manifestRef name) eqn:Hsafe.
    + by destruct (writeModelCard_safe E manifestRef configBlob name (buffered body)
                     (requested src layer w) Hsafe) as (_ & _ & _ & ->).
    + by rewrite writeModelCard_unsafe.
  - rewrite scanLayer_other by done. simpl. by rewrite app_nil_r.
Qed.

Lemma docRequests_cons src layer layers :
  docRequests src (layer :: layers) = docRequests src [layer] ++ docRequests src layers.
Proof. unfold docRequests. simpl. by destruct (isModelCardLayer layer). Qed.

(** The body of the loop returns only with a model card. *)
Lemma writeModelCard_Return E manifestRef configBlob name content w found md w' :
  writeModelCard E manifestRef configBlob name content w = Return found md w' ->
  found = true.
Proof.
  unfold writeModelCard. repeat case_match; try done; intros Hret; by inversion Hret.
Qed.

Lemma scanLayer_Return E layer src manifestRef configBlob w found md w' :
  scanLayer E layer src manifestRef configBlob w = Return found md w' ->
  found = true.
Proof.
  destruct (isModelCardLayer layer) eqn:Hdoc.
  - rewrite scanLayer_doc by done.
    destruct (layerArchive E src layer) as [tr|]; [|done].
    destruct (mdEntries tr) as [|[name body] [|? ?]]; [done | | done].
    apply writeModelCard_Return.
  - by rewrite scanLayer_other.
Qed.

Lemma scanLayersForModelCard_requests E layers src manifestRef configBlob : forall w,
  let r := scanLayersForModelCard E layers src manifestRef configBlob w in
  (exists visited unvisited,
      layers = visited ++ unvisited
      /\ requests r.2 = requests w ++ docRequests src visited)
  /\ (r.1.1 = false -> requests r.2 = requests w ++ docRequests src layers).
Proof.
  induction layers as [|layer rest IH]; intros w; simpl.
  - destruct (createSkeletonMetadata_world E manifestRef configBlob w) as [Hreq _].
    split; [exists [], []; split; [done|] |]; simpl; rewrite Hreq;
      unfold docRequests; simpl; by rewrite app_nil_r.
  - pose proof (scanLayer_requests E layer src manifestRef configBlob w) as Hreq.
    destruct (scanLayer E layer src manifestRef configBlob w) as [found md w'|w'] eqn:Hs;
      simpl in *.
    + apply scanLayer_Return in Hs as ->. split; [|done].
      exists [layer], rest. by rewrite Hreq.
    + destruct (IH w') as [(visited & unvisited & -> & Hv) Hall]. split.
      * exists (layer :: visited), unvisited. split; [done|].
        rewrite Hv, Hreq, (docRequests_cons src layer visited). by rewrite app_assoc.
      * intros Hf. rewrite (Hall Hf), Hreq.
        rewrite (docRequests_cons src layer (visited ++ unvisited)).
        by rewrite app_assoc.
Qed.

(** *** The model card of a layer *)





(** *** Names that leave the directory *)

Lemma violates_unsafe E manifestRef name :
  violates name = true -> safeEntryName E manifestRef name = false.
Proof. unfold safeEntryName. by intros ->. Qed.

Lemma scanTar_first_md name size body rest :
  HasSuffix name ".md" = true ->
  scanTar (TarEntry name size body :: rest) 0 "" []
  = scanTar rest 1 name (buffered body).
Proof. intros H. simpl. rewrite H. by destruct body. Qed.

(** C3.  An entry whose name is absolute, or whose cleaned name starts with
    a parent segment, fails the checks of the extractor: nothing is written
    for it, no file and no directory, and the scan goes on with the next
    layer.  Whatever its name, an entry does not stop the loop over the
    archive: the entries after it are read.  What the extractor writes under
    the name of an entry lies in the directory of the model, and beside it
    only the [metadata.yaml] next to it is written.  The entry
    [../../etc/passwd] is no [.md] file and is passed over; as the name of
    an [.md] file it would fail the checks. *)
Theorem unsafe_entry_is_skipped E manifestRef configBlob name content w :
  let o := writeModelCard E manifestRef configBlob name content w in
  (IsAbs name = true \/ HasPrefix (Clean name) "../" = true ->
   violates name = true /\ o = Continue w)
  /\ (safeEntryName E manifestRef name = false -> o = Continue w)
  /\ (forall layer rest src tr body,
        isModelCardLayer layer = true ->
        layerArchive E src layer = Some tr ->
        mdEntries tr = [(name, body)] ->
        safeEntryName E manifestRef name = false ->
        scanLayersForModelCard E (layer :: rest) src manifestRef configBlob w
        = scanLayersForModelCard E rest src manifestRef configBlob
                                 (requested src layer w))
  /\ (forall size body rest count first buffer,
        HasSuffix name ".md" = false ->
        scanTar (TarEntry name size body :: rest) count first buffer
        = scanTar rest count first buffer)
  /\ (forall size body rest,
        HasSuffix name ".md" = true ->
        scanTar (TarEntry name size body :: rest) 0 "" []
        = scanTar rest 1 name (buffered body))
  /\ (forall p, files (outcomeWorld o) !! p <> files w !! p ->
        violates name = false
        /\ inside (modelDirOf E manifestRef) (cardPath E manifestRef name) = true
        /\ (p = cardPath E manifestRef name
            \/ p = Join [Dir (cardPath E manifestRef name); "metadata.yaml"]))
  /\ HasSuffix "../../etc/passwd" ".md" = false
  /\ violates "../../etc/passwd.md" = true.
Proof.
  intros o.
  assert (Hunsafe : safeEntryName E manifestRef name = false -> o = Continue w)
    by apply writeModelCard_unsafe.
  split_and!.
  - intros Hv.
    assert (violates name = true) as Hviol.
    { unfold violates. rewrite FilepathProps.Clean_IsAbs.
      apply orb_true_iff. done. }
    split; [done|]. apply Hunsafe. by apply violates_unsafe.
  - done.
  - intros layer rest src tr body Hdoc Harch Hmd Hsafe.
    apply scanLayersForModelCard_continue.
    rewrite (scanLayer_doc E layer src manifestRef configBlob w Hdoc), Harch, Hmd.
    by apply writeModelCard_unsafe.
  - intros. by apply scanTar_skips.
  - intros. by apply scanTar_first_md.
  - intros p Hp. destruct (safeEntryName E manifestRef name) eqn:Hsafe.
    + destruct (writeModelCard_safe E manifestRef configBlob name content w Hsafe)
        as (_ & _ & Hw & _).
      apply Hw in Hp. unfold safeEntryName in Hsafe.
      apply andb_true_iff in Hsafe as [Hv Hin]. apply negb_true_iff in Hv.
      split_and!; [done | done |].
      rewrite !elem_of_cons, elem_of_nil in Hp. naive_solver.
    + exfalso. apply Hp. unfold o. by rewrite writeModelCard_unsafe.
  - reflexivity.
  - reflexivity.
Qed.

(** An archive with [../../etc/passwd] before the model card: the card is
    written in the directory of the model, and nothing else. *)
Example traversal_entry_passed_over :
  let E := Demo.demoEnv [TarEntry "../../etc/passwd" 7 (Some Demo.readme);
                         TarEntry "models/README.md" 7 (Some Demo.readme)]
                        [Demo.docLayer "sha256:aa"] Demo.noConfig [] in
  let r := scanLayersForModelCard E [Demo.docLayer "sha256:aa"] "quay.io/org/model:1.0"
                                  "quay.io/org/model:1.0" [] emptyWorld in
  r.1.1 = true
  /\ dom (files r.2) = {["output/quay.io_org_model_1.0/models/README.md";
                         "output/quay.io_org_model_1.0/models/metadata.yaml"]}.
Proof. split; vm_compute; reflexivity. Qed.

(** An archive whose only [.md] entry leaves the directory: the entry is
    not written, and the model gets the skeleton metadata. *)
Example traversal_md_skipped :
  let E := Demo.demoEnv [TarEntry "../../etc/passwd.md" 7 (Some Demo.readme)]
                        [] Demo.noConfig [] in
  let r := scanLayersForModelCard E [Demo.docLayer "sha256:aa"] "quay.io/org/model:1.0"
                                  "quay.io/org/model:1.0" [] emptyWorld in
  r.1.1 = false
  /\ dom (files r.2) = {["output/quay.io_org_model_1.0/models/metadata.yaml"]}.
Proof. split; vm_compute; reflexivity. Qed.

(** *** The blob requests *)

(** C6, as amended.  Every layer that carries the annotation and is visited
    by the scan costs one request to the registry, under a context of 60
    seconds and with a cache that is new for that request: the requests of a
    scan are those of the layers it visits, in order, one per layer, and all
    of them when no model card is found.  A cache that held the blob would
    save the request; the extractor never hands over such a cache. *)
Theorem blob_requests_one_per_layer E layers src manifestRef configBlob w :
  let r := scanLayersForModelCard E layers src manifestRef configBlob w in
  (exists visited unvisited,
      layers = visited ++ unvisited
      /\ requests r.2 = requests w ++ docRequests src visited)
  /\ (r.1.1 = false -> requests r.2 = requests w ++ docRequests src layers)
  /\ Forall (fun q => reqTimeoutSeconds q = 60) (docRequests src layers)
  /\ (forall layer,
        isModelCardLayer layer = true ->
        requests (outcomeWorld (scanLayer E layer src manifestRef configBlob w))
        = requests w ++ [mkBlobRequest src (Digest layer) 60])
  /\ (forall digest w0,
        (GetBlob E src 60 digest blobinfocachememory_New w0).2
        = mkWorld (files w0) (dirs w0) (requests w0 ++ [mkBlobRequest src digest 60]))
  /\ (forall digest cache blob w0,
        cache !! digest = Some blob ->
        GetBlob E src 60 digest cache w0 = (blob, cache, w0)).
Proof.
  intros r.
  destruct (scanLayersForModelCard_requests E layers src manifestRef configBlob w)
    as [Hvis Hall].
  split_and!; [exact Hvis | exact Hall | | | |].
  - unfold docRequests. apply Forall_fmap. by apply Forall_true.
  - intros layer Hdoc. rewrite scanLayer_requests. unfold docRequests. simpl.
    by rewrite Hdoc.
  - intros digest w0. by rewrite GetBlob_new_cache.
  - intros digest cache blob w0 Hc. by apply GetBlob_cached.
Qed.

(** C6 as stated fails: the blob of one digest is requested twice, by the
    scan of an image that lists it twice, and by the scans of two images
    that share it. *)
Lemma same_digest_requested_twice :
  let E := Demo.demoEnv [] [Demo.docLayer "sha256:aa"; Demo.dataLayer "sha256:bb";
                            Demo.docLayer "sha256:aa"] Demo.noConfig [] in
  let E' := Demo.demoEnv [] [Demo.dataLayer "sha256:bb"; Demo.docLayer "sha256:aa"]
                         Demo.noConfig [] in
  reqDigest <$> requests
      (scanLayersForModelCard E (LayerInfos E "quay.io/org/model:1.0")
         "quay.io/org/model:1.0" "quay.io/org/model:1.0" [] emptyWorld).2
  = ["sha256:aa"; "sha256:aa"]
  /\ reqDigest <$> requests
       (runInOrder E' ["quay.io/org/model:1.0"; "quay.io/org/model:2.0"] ∅ emptyWorld).2
     = ["sha256:aa"; "sha256:aa"].
Proof. split; vm_compute; reflexivity. Qed.

End ScanProps.

Module CoordinatorProps.
Import GoStrings Filepath Extractor.

Section Run.
Variable E : Env.
Variable uriToEntry : gmap string ModelEntry.

(** *** One model *)

Lemma worker_Ref ref entry w : Ref (worker E ref entry w).1 = ref.
Proof.
  unfold worker. destruct (fetchManifestSrcAndLayers E ref) as [err|[[src layers] cfg]];
    [done|].
  by destruct (scanLayersForModelCardWithTags E layers src ref cfg entry w) as [[? ?] ?].
Qed.

Lemma fetch_fails_iff ref :
  (exists err, fetchManifestSrcAndLayers E ref = inl err)
  <-> ParseReference E ("//" +:+ ref) = false
      \/ NewImageSource E ref = false
      \/ GetManifest E ref = None
      \/ NewImage E ref = false
      \/ ConfigBlob E ref = None.
Proof.
  unfold fetchManifestSrcAndLayers.
  destruct (ParseReference E _); simpl; [|split; eauto 6].
  destruct (NewImageSource E ref); simpl; [|split; eauto 6].
  destruct (GetManifest E ref); [|split; eauto 6].
  destruct (NewImage E ref); simpl; [|split; eauto 6].
  destruct (ConfigBlob E ref); [|split; eauto 6].
  split; [by intros [err ?] | naive_solver].
Qed.

Lemma worker_failed ref entry w err :
  fetchManifestSrcAndLayers E ref = inl err ->
  worker E ref entry w = (failedResult E ref, w).
Proof. intros H. unfold worker. by rewrite H. Qed.

(** *** The run in order *)

Lemma runInOrder_app refs1 refs2 w :
  runInOrder E (refs1 ++ refs2) uriToEntry w
  = let '(rs1, w1) := runInOrder E refs1 uriToEntry w in
    let '(rs2, w2) := runInOrder E refs2 uriToEntry w1 in
    (rs1 ++ rs2, w2).
Proof.
  revert w. induction refs1 as [|ref refs1 IH]; intros w; simpl.
  - by destruct (runInOrder E refs2 uriToEntry w).
  - destruct (worker E ref (entryOf uriToEntry ref) w) as [res w'].
    rewrite IH. destruct (runInOrder E refs1 uriToEntry w') as [rs1 w1].
    by destruct (runInOrder E refs2 uriToEntry w1).
Qed.

Lemma runInOrder_length refs w :
  length (runInOrder E refs uriToEntry w).1 = length refs.
Proof.
  revert w. induction refs as [|ref refs IH]; intros w; simpl; [done|].
  destruct (worker E ref (entryOf uriToEntry ref) w) as [res w'].
  specialize (IH w'). destruct (runInOrder E refs uriToEntry w'). simpl in *.
  by rewrite IH.
Qed.

(** *** The steps *)

Local Abbreviation stepS sem cap := (step E uriToEntry sem cap).

Lemma step_work sem cap c c' : stepS sem cap c c' -> (work c' < work c)%nat.
Proof.
  intros [ref rest run res w Hsem | pend run1 ref entry run2 res w result w' Hw Hcap];
    unfold work; simpl; rewrite !length_app; simpl; lia.
Qed.

Lemma step_refsOf sem cap c c' : stepS sem cap c c' -> refsOf c' ≡ₚ refsOf c.
Proof.
  intros [ref rest run res w Hsem | pend run1 ref entry run2 res w result w' Hw Hcap];
    unfold refsOf; simpl.
  - rewrite fmap_app. simpl. by rewrite <- (app_assoc (fst <$> run)).
  - assert (Ref result = ref) as <-.
    { pose proof (worker_Ref ref entry w) as Hr. by rewrite Hw in Hr. }
    rewrite !fmap_app. simpl. rewrite <- !app_assoc. simpl.
    apply Permutation_app_head. apply Permutation_middle.
Qed.

Lemma rtc_step_refsOf sem cap c c' : rtc (stepS sem cap) c c' -> refsOf c' ≡ₚ refsOf c.
Proof.
  induction 1 as [|c1 c2 c3 Hs _ IH]; [done|].
  rewrite IH. by eapply step_refsOf.
Qed.

Lemma refsOf_length (c : Coord E) :
  length (refsOf c) = (length (results c) + length (running c) + length (pending c))%nat.
Proof. unfold refsOf. rewrite !length_app, !length_fmap. lia. Qed.

(** A state that is not joined can take a step, as long as the semaphore
    has a permit and the channel has room for every reference. *)
Lemma step_progress sem cap (c : Coord E) :
  1 <= sem -> Z.of_nat (length (refsOf c)) <= cap ->
  joined c \/ exists c', stepS sem cap c c'.
Proof.
  intros Hsem Hcap. rewrite refsOf_length in Hcap.
  destruct c as [pend run res w]. simpl in *.
  destruct run as [|[ref entry] run].
  - destruct pend as [|ref rest]; [by left|]. right.
    eexists. apply step_start. simpl. lia.
  - right. destruct (worker E ref entry w) as [result w'] eqn:Hw.
    exists (mkCoord pend ([] ++ run) (res ++ [result]) w').
    apply (step_finish E uriToEntry sem cap pend [] ref entry run res w result w' Hw).
    simpl in Hcap. lia.
Qed.

(** The run in order is a run, whatever the number of permits. *)
Lemma runInOrder_run sem cap refs : forall res w,
  1 <= sem -> Z.of_nat (length res + length refs) <= cap ->
  rtc (stepS sem cap)
      (mkCoord refs [] res w)
      (mkCoord [] [] (res ++ (runInOrder E refs uriToEntry w).1)
               (runInOrder E refs uriToEntry w).2).
Proof.
  induction refs as [|ref rest IH]; intros res w Hsem Hcap; simpl.
  - rewrite app_nil_r. apply rtc_refl.
  - destruct (worker E ref (entryOf uriToEntry ref) w) as [result w'] eqn:Hw.
    eapply rtc_l; [apply step_start; simpl; lia|].
    eapply rtc_l.
    { apply (step_finish E uriToEntry sem cap rest [] ref (entryOf uriToEntry ref) []
                         res w result w' Hw). simpl in Hcap. lia. }
    simpl. specialize (IH (res ++ [result]) w' Hsem).
    destruct (runInOrder E rest uriToEntry w') as [rs w'']. simpl in *.
    rewrite <- app_assoc in IH. simpl in IH. apply IH.
    rewrite length_app. simpl. lia.
Qed.

Lemma step_inOrder cap refs w0 c c' :
  inOrder E uriToEntry refs w0 c -> stepS 1 cap c c' -> inOrder E uriToEntry refs w0 c'.
Proof.
  intros (finished & Hres & Hrun) Hstep.
  inversion Hstep
    as [ref rest run res w Hsem | pend run1 ref entry run2 res w result w' Hw Hcap];
    subst; simpl in *.
  - destruct Hrun as [[-> Hrefs] | (r & -> & _)]; [|simpl in Hsem; lia].
    exists finished. split; [done|]. right. exists ref. done.
  - destruct Hrun as [[Hnil _] | (r & Hone & Hrefs)].
    { by destruct run1. }
    destruct run1 as [|x run1]; simpl in Hone; [|by destruct run1].
    injection Hone as -> -> ->.
    exists (finished ++ [r]). split.
    + rewrite runInOrder_app. rewrite <- Hres. simpl. by rewrite Hw.
    + left. split; [done|]. by rewrite <- app_assoc.
Qed.

Lemma rtc_step_inOrder cap refs w0 c c' :
  inOrder E uriToEntry refs w0 c -> rtc (stepS 1 cap) c c' -> inOrder E uriToEntry refs w0 c'.
Proof.
  intros Hc Hrtc. induction Hrtc as [|c1 c2 c3 Hs _ IH]; [done|].
  apply IH. by eapply step_inOrder.
Qed.

Lemma permits_ge_1 maxConcurrent : 1 <= permits maxConcurrent.
Proof.
  unfold permits, correctMaxConcurrent.
  destruct (Z.ltb_spec maxConcurrent 1); simpl; lia.
Qed.

Lemma reachable_room maxConcurrent refs w c :
  rtc (stepS (permits maxConcurrent) (Z.of_nat (length refs))) (start refs w) c ->
  Z.of_nat (length (refsOf c)) <= Z.of_nat (length refs).
Proof.
  intros Hrtc. apply rtc_step_refsOf in Hrtc. rewrite Hrtc.
  unfold refsOf, start. simpl. lia.
Qed.

(** C1.  Every run of [processModelsInParallelWithEntryMap] returns one
    result per reference: as many results as references, and the
    references of the results are those of the input, repetitions
    included.  It holds whatever the registry answers, so whatever the
    number of fetches that fail.  Such a run exists, no state of a run is
    stuck before every goroutine is done, and every step brings the end
    nearer. *)
Theorem one_result_per_reference manifestRefs maxConcurrent w :
  (forall modelResults w',
      processModelsInParallelWithEntryMap E manifestRefs uriToEntry maxConcurrent
                                          w modelResults w' ->
      length modelResults = length manifestRefs
      /\ Ref <$> modelResults ≡ₚ manifestRefs)
  /\ (exists modelResults w',
         processModelsInParallelWithEntryMap E manifestRefs uriToEntry maxConcurrent
                                             w modelResults w')
  /\ (forall c,
         rtc (stepS (permits maxConcurrent) (Z.of_nat (length manifestRefs)))
             (start manifestRefs w) c ->
         joined c
         \/ exists c', stepS (permits maxConcurrent)
                             (Z.of_nat (length manifestRefs)) c c')
  /\ (forall c c',
         stepS (permits maxConcurrent) (Z.of_nat (length manifestRefs)) c c' ->
         (work c' < work c)%nat).
Proof.
  split_and!.
  - intros modelResults w' Hrun. apply rtc_step_refsOf in Hrun.
    unfold refsOf in Hrun. simpl in Hrun. rewrite app_nil_r in Hrun.
    split; [|done]. apply Permutation_length in Hrun.
    by rewrite length_fmap in Hrun.
  - exists (runInOrder E manifestRefs uriToEntry w).1,
           (runInOrder E manifestRefs uriToEntry w).2.
    apply (runInOrder_run (permits maxConcurrent) _ manifestRefs [] w).
    + apply permits_ge_1.
    + simpl. lia.
  - intros c Hc. apply step_progress; [apply permits_ge_1|].
    by eapply reachable_room.
  - intros c c'. apply step_work.
Qed.

(** C5.  A [maxConcurrent] that is not positive is corrected to 1, with the
    warning: the semaphore has one permit, the runs are those with
    [maxConcurrent = 1], and each of them is the run in order, which exists:
    the call returns.  No state of such a run is stuck.  A semaphore of the
    uncorrected capacity would take no send: the loop would not start its
    first goroutine. *)
Theorem nonpositive_maxConcurrent_is_one manifestRefs maxConcurrent w :
  maxConcurrent <= 0 ->
  correctMaxConcurrent maxConcurrent = (true, 1)
  /\ (forall modelResults w',
        processModelsInParallelWithEntryMap E manifestRefs uriToEntry maxConcurrent
                                            w modelResults w'
        <-> processModelsInParallelWithEntryMap E manifestRefs uriToEntry 1
                                                w modelResults w')
  /\ (forall modelResults w',
        processModelsInParallelWithEntryMap E manifestRefs uriToEntry maxConcurrent
                                            w modelResults w'
        <-> (modelResults, w') = runInOrder E manifestRefs uriToEntry w)
  /\ (forall c,
         rtc (stepS (permits maxConcurrent) (Z.of_nat (length manifestRefs)))
             (start manifestRefs w) c ->
         joined c
         \/ exists c', stepS (permits maxConcurrent)
                             (Z.of_nat (length manifestRefs)) c c')
  /\ (manifestRefs <> [] ->
      forall c', ~ stepS maxConcurrent (Z.of_nat (length manifestRefs))
                         (start manifestRefs w) c').
Proof.
  intros Hmax.
  assert (Hcorr : correctMaxConcurrent maxConcurrent = (true, 1)).
  { unfold correctMaxConcurrent. destruct (Z.ltb_spec maxConcurrent 1); [done | lia]. }
  assert (Hp : permits maxConcurrent = 1) by (unfold permits; by rewrite Hcorr).
  split_and!.
  - done.
  - intros modelResults w'. unfold processModelsInParallelWithEntryMap.
    by rewrite Hp.
  - intros modelResults w'. unfold processModelsInParallelWithEntryMap.
    rewrite Hp. simpl. split.
    + intros Hrun.
      assert (Hin : inOrder E uriToEntry manifestRefs w (mkCoord manifestRefs [] [] w)).
      { exists []. split; [done|]. left. done. }
      apply (rtc_step_inOrder _ _ _ _ _ Hin) in Hrun.
      destruct Hrun as (finished & Hres & [[_ Hrefs] | (ref & Hone & _)]); [|done].
      simpl in *. rewrite app_nil_r in Hrefs. by subst.
    + intros Heq.
      pose proof (runInOrder_run 1 (Z.of_nat (length manifestRefs)) manifestRefs [] w
                    ltac:(lia) ltac:(simpl; lia)) as Hrun.
      rewrite <- Heq in Hrun. exact Hrun.
  - intros c Hc. apply step_progress; [apply permits_ge_1|].
    by eapply reachable_room.
  - intros Hne c' Hstep. unfold start in Hstep.
    inversion Hstep as [ref rest run res w1 Hsem | pend run1 ref entry run2 res w1 result w1' Hw Hcap];
      subst; simpl in *.
    + lia.
    + by destruct run1.
Qed.

(** C7.  When a step of the fetch fails for a reference (the reference
    does not parse, the image source or the image cannot be opened, the
    manifest or the config blob cannot be read), the fetch fails, the result
    is [found = false] with the empty metadata, and the goroutine leaves the
    world as it found it: no file, no directory.  The other references are
    processed as if it were not there. *)
Theorem failed_fetch_leaves_no_output ref entry w :
  ParseReference E ("//" +:+ ref) = false
  \/ NewImageSource E ref = false
  \/ GetManifest E ref = None
  \/ NewImage E ref = false
  \/ ConfigBlob E ref = None ->
  (exists err, fetchManifestSrcAndLayers E ref = inl err)
  /\ worker E ref entry w = (mkModelResult ref false (zeroModelMetadata E), w)
  /\ files (worker E ref entry w).2 = files w
  /\ dirs (worker E ref entry w).2 = dirs w
  /\ (forall before after w0,
        runInOrder E (before ++ ref :: after) uriToEntry w0
        = let '(rs1, w1) := runInOrder E before uriToEntry w0 in
          let '(rs2, w2) := runInOrder E after uriToEntry w1 in
          (rs1 ++ mkModelResult ref false (zeroModelMetadata E) :: rs2, w2))
  /\ (forall sem cap pend run1 run2 res,
        Z.of_nat (length res) < cap ->
        stepS sem cap
              (mkCoord pend (run1 ++ (ref, entry) :: run2) res w)
              (mkCoord pend (run1 ++ run2)
                       (res ++ [mkModelResult ref false (zeroModelMetadata E)]) w)).
Proof.
  intros Hfail. apply fetch_fails_iff in Hfail as [err Hfetch].
  pose proof (worker_failed ref entry w err Hfetch) as Hw. unfold failedResult in Hw.
  split_and!.
  - eauto.
  - done.
  - by rewrite Hw.
  - by rewrite Hw.
  - intros before after w0. rewrite runInOrder_app. simpl.
    destruct (runInOrder E before uriToEntry w0) as [rs1 w1].
    rewrite (worker_failed ref _ w1 err Hfetch). unfold failedResult.
    by destruct (runInOrder E after uriToEntry w1).
  - intros sem cap pend run1 run2 res Hcap. by apply step_finish.
Qed.

End Run.

Lemma one_result_per_reference_witness :
  let E := Demo.demoEnv Demo.oneReadme [Demo.docLayer "sha256:aa"] Demo.noConfig [] in
  length (runInOrder E Demo.mixedRefs ∅ emptyWorld).1 = 3%nat.
Proof.
  intros E.
  apply (proj1 (proj1 (one_result_per_reference E ∅ Demo.mixedRefs 2 emptyWorld) _
                      (runInOrder E Demo.mixedRefs ∅ emptyWorld).2
                      (runInOrder_run E ∅ 2 3 Demo.mixedRefs [] emptyWorld
                                      ltac:(lia) ltac:(simpl; lia)))).
Defined.

Lemma nonpositive_maxConcurrent_is_one_witness :
  let E := Demo.demoEnv Demo.oneReadme [Demo.docLayer "sha256:aa"] Demo.noConfig [] in
  correctMaxConcurrent 0 = (true, 1)
  /\ processModelsInParallelWithEntryMap E Demo.mixedRefs ∅ 0 emptyWorld
       (runInOrder E Demo.mixedRefs ∅ emptyWorld).1 (runInOrder E Demo.mixedRefs ∅ emptyWorld).2.
Proof.
  intros E.
  destruct (nonpositive_maxConcurrent_is_one E ∅ Demo.mixedRefs 0 emptyWorld ltac:(lia))
    as (Hp & _ & Hrun & _).
  split; [exact Hp|]. apply Hrun. by destruct (runInOrder E Demo.mixedRefs ∅ emptyWorld).
Defined.

Lemma failed_fetch_leaves_no_output_witness :
  let E := Demo.demoEnv Demo.oneReadme [Demo.docLayer "sha256:aa"] Demo.noConfig [] in
  worker E "unreachable.example/model:1" zeroModelEntry emptyWorld
  = (mkModelResult "unreachable.example/model:1" false (zeroModelMetadata E), emptyWorld).
Proof.
  intros E.
  apply (proj1 (proj2 (failed_fetch_leaves_no_output E ∅ "unreachable.example/model:1"
                         zeroModelEntry emptyWorld (or_intror (or_introl eq_refl))))).
Defined.

Example run_of_mixedRefs :
  let E := Demo.demoEnv Demo.oneReadme [Demo.docLayer "sha256:aa"] Demo.noConfig [] in
  (fun r => (Ref r, ModelCardFound r)) <$> (runInOrder E Demo.mixedRefs ∅ emptyWorld).1
  = [("quay.io/org/model:1.0", true); ("unreachable.example/model:1", false);
     ("quay.io/org/model:1.0", true)]
  /\ dom (files (runInOrder E Demo.mixedRefs ∅ emptyWorld).2)
     = {["output/quay.io_org_model_1.0/models/README.md";
         "output/quay.io_org_model_1.0/models/metadata.yaml"]}.
Proof. split; vm_compute; reflexivity. Qed.

End CoordinatorProps.

Module CatalogProps.
Import GoStrings Catalog.

Lemma normName_Some model k :
  normName model = Some k <->
  exists name, Name model = Some name /\ k = ToLower (TrimSpace name) /\ k <> "".
Proof.
  unfold normName. destruct (Name model) as [name|]; split.
  - destruct (String.eqb_spec (ToLower (TrimSpace name)) ""); [done|].
    intros [= <-]. eauto.
  - intros (name' & [= <-] & -> & Hne).
    by destruct (String.eqb_spec (ToLower (TrimSpace name)) "").
  - done.
  - by intros (? & ? & _).
Qed.

Lemma mapGet_insert m k k' :
  mapGet (<[k := true]> m) k' = true <-> k = k' \/ mapGet m k' = true.
Proof.
  unfold mapGet. rewrite lookup_insert. case_decide; naive_solver.
Qed.

Lemma mapGet_empty k : mapGet ∅ k = false.
Proof. unfold mapGet. by rewrite lookup_empty. Qed.

(** The first loop marks exactly the normalized names of its models. *)
Lemma dynamicNames_get models : forall m k,
  mapGet (dynamicNames models m) k = true
  <-> mapGet m k = true \/ Some k ∈ normName <$> models.
Proof.
  induction models as [|model rest IH]; intros m k; simpl.
  - rewrite elem_of_nil. naive_solver.
  - rewrite elem_of_cons. unfold normName at 1.
    destruct (Name model) as [name|]; simpl.
    + destruct (String.eqb_spec (ToLower (TrimSpace name)) "") as [E|E];
        rewrite IH; [naive_solver|].
      rewrite mapGet_insert. naive_solver.
    + rewrite IH. naive_solver.
Qed.

Lemma elem_of_snoc_normName k (earlier : list CatalogMetadata) s :
  Some k ∈ normName <$> (earlier ++ [s])
  <-> Some k ∈ normName <$> earlier \/ normName s = Some k.
Proof.
  rewrite fmap_app, elem_of_app. simpl. rewrite list_elem_of_singleton.
  naive_solver.
Qed.

(** The second loop appends the static models the specification keeps. *)
Lemma appendStatic_keptStatics dyn stat : forall earlier result m,
  (forall k, mapGet m k = true
             <-> Some k ∈ normName <$> dyn \/ Some k ∈ normName <$> earlier) ->
  appendStatic stat result m = result ++ keptStatics dyn earlier stat.
Proof.
  induction stat as [|s rest IH]; intros earlier result m Hm; simpl.
  - by rewrite app_nil_r.
  - unfold keptStatic.
    destruct (normName s) as [k0|] eqn:Hs.
    + apply normName_Some in Hs as Hs'. destruct Hs' as (name & Hname & -> & Hne).
      rewrite Hname.
      destruct (String.eqb_spec (ToLower (TrimSpace name)) "") as [E|_]; [done|].
      destruct (mapGet m (ToLower (TrimSpace name))) eqn:Hget; simpl.
      * assert (Hin : Some (ToLower (TrimSpace name)) ∈ normName <$> dyn
                      \/ Some (ToLower (TrimSpace name)) ∈ normName <$> earlier)
          by by apply Hm.
        assert (Hk : negb (bool_decide (Some (ToLower (TrimSpace name)) ∈ normName <$> dyn))
                     && negb (bool_decide (Some (ToLower (TrimSpace name)) ∈ normName <$> earlier))
                     = false).
        { apply andb_false_iff. destruct Hin as [Hin|Hin]; [left|right];
            by rewrite negb_false_iff, bool_decide_eq_true. }
        rewrite Hk. simpl. apply IH. intros k.
        rewrite elem_of_snoc_normName, Hm, Hs. naive_solver.
      * assert (Hk : negb (bool_decide (Some (ToLower (TrimSpace name)) ∈ normName <$> dyn))
                     && negb (bool_decide (Some (ToLower (TrimSpace name)) ∈ normName <$> earlier))
                     = true).
        { apply andb_true_iff.
          split; rewrite negb_true_iff, bool_decide_eq_false; intros Hin;
            (assert (mapGet m (ToLower (TrimSpace name)) = true) by (apply Hm; auto));
            congruence. }
        rewrite Hk. simpl.
        rewrite (IH (earlier ++ [s])); [by rewrite <- app_assoc|]. intros k.
        rewrite elem_of_snoc_normName, mapGet_insert, Hm, Hs. naive_solver.
    + simpl.
      assert (Hskip : forall k,
                 mapGet m k = true
                 <-> Some k ∈ normName <$> dyn \/ Some k ∈ normName <$> (earlier ++ [s])).
      { intros k. rewrite elem_of_snoc_normName, Hm, Hs. naive_solver. }
      unfold normName in Hs.
      destruct (Name s) as [name|]; [|by apply IH].
      destruct (String.eqb_spec (ToLower (TrimSpace name)) ""); [by apply IH | done].
Qed.

Lemma elem_of_normNames k l : k ∈ normNames l <-> Some k ∈ normName <$> l.
Proof.
  unfold normNames. rewrite list_elem_of_omap, list_elem_of_fmap. naive_solver.
Qed.

Lemma normNames_app (l1 l2 : list CatalogMetadata) : normNames (l1 ++ l2) = normNames l1 ++ normNames l2.
Proof. apply omap_app. Qed.

(** What is kept carries fresh names, each once. *)
Lemma keptStatics_fresh dyn stat : forall earlier,
  NoDup (normNames (keptStatics dyn earlier stat))
  /\ forall k, k ∈ normNames (keptStatics dyn earlier stat) ->
               (k ∉ normNames dyn) /\ (k ∉ normNames earlier).
Proof.
  induction stat as [|s rest IH]; intros earlier; simpl.
  - split; [constructor | intros k Hk; by apply elem_of_nil in Hk].
  - destruct (IH (earlier ++ [s])) as [IHnd IHfresh].
    rewrite normNames_app.
    assert (Hrest : forall k, k ∈ normNames (keptStatics dyn (earlier ++ [s]) rest) ->
              (k ∉ normNames dyn) /\ (k ∉ normNames earlier) /\ normName s <> Some k).
    { intros k Hk. destruct (IHfresh k Hk) as [H1 H2]. split; [done|].
      rewrite elem_of_normNames, elem_of_snoc_normName in H2.
      rewrite elem_of_normNames. naive_solver. }
    destruct (keptStatic dyn earlier s) eqn:Hkept.
    + unfold keptStatic in Hkept. destruct (normName s) as [k0|] eqn:Hs; [|done].
      apply andb_true_iff in Hkept as [Hd He].
      apply negb_true_iff, bool_decide_eq_false in Hd, He.
      unfold normNames at 1 3. simpl. rewrite Hs. simpl. split.
      * constructor; [|done]. intros Hin. by destruct (Hrest k0 Hin) as (_ & _ & ?).
      * intros k [->|Hk]%elem_of_cons.
        -- by rewrite !elem_of_normNames.
        -- destruct (Hrest k Hk) as (? & ? & _). done.
    + simpl. split; [done|]. intros k Hk. destruct (Hrest k Hk) as (? & ? & _). done.
Qed.

Lemma distinctNames_NoDup l : NoDup (normNames l) -> distinctNames l.
Proof.
  induction l as [|a l IH]; intros Hnd i j x y k Hij Hi Hj Hx Hy.
  - by rewrite lookup_nil in Hi.
  - unfold normNames in Hnd. simpl in Hnd.
    assert (Hin : forall n z, l !! n = Some z -> normName z = Some k -> k ∈ normNames l).
    { intros n z Hn Hz. apply list_elem_of_omap. exists z. split; [|done].
      apply list_elem_of_lookup. eauto. }
    destruct i as [|i], j as [|j]; simpl in Hi, Hj; simplify_eq.
    + rewrite Hx in Hnd. apply NoDup_cons in Hnd as [Hnot _]. eauto.
    + rewrite Hy in Hnd. apply NoDup_cons in Hnd as [Hnot _]. eauto.
    + assert (Hnd' : NoDup (normNames l)).
      { destruct (normName a); [by apply NoDup_cons in Hnd as [_ ?] | done]. }
      apply (IH Hnd' i j x y k); auto.
Qed.

(** C9, as amended.  [deduplicateModels] returns the dynamic models in
    their order, followed by exactly the static models whose normalized
    name exists and is carried by no dynamic model and by no earlier static
    model.  The static models it appends carry pairwise distinct names that
    no dynamic model carries; the whole result is free of repeated names
    as soon as the dynamic models are. *)
Theorem deduplicateModels_result (dynamicModels staticModels : list CatalogMetadata) :
  deduplicateModels dynamicModels staticModels
    = dynamicModels ++ keptStatics dynamicModels [] staticModels
  /\ NoDup (normNames (keptStatics dynamicModels [] staticModels))
  /\ (forall k, k ∈ normNames (keptStatics dynamicModels [] staticModels) ->
                k ∉ normNames dynamicModels)
  /\ (NoDup (normNames dynamicModels) ->
      distinctNames (deduplicateModels dynamicModels staticModels)).
Proof.
  assert (Heq : deduplicateModels dynamicModels staticModels
                = dynamicModels ++ keptStatics dynamicModels [] staticModels).
  { unfold deduplicateModels. apply appendStatic_keptStatics.
    intros k. rewrite dynamicNames_get, mapGet_empty. simpl.
    rewrite elem_of_nil. naive_solver. }
  destruct (keptStatics_fresh dynamicModels staticModels []) as [Hnd Hfresh].
  split; [exact Heq|]. split; [exact Hnd|].
  split; [intros k Hk; exact (proj1 (Hfresh k Hk))|].
  intros Hdyn. apply distinctNames_NoDup. rewrite Heq, normNames_app.
  apply NoDup_app. repeat split; [done | | done].
  intros k Hk Hk'. by apply (proj1 (Hfresh k Hk')).
Qed.

(** The amended statement at a concrete merge: the names of the dynamic
    models differ, so do the names of the result. *)
Lemma deduplicateModels_result_witness :
  NoDup (normNames [Demo.modelNamed "Model A"; Demo.modelNamed "Model B"])
  /\ distinctNames (deduplicateModels
                      [Demo.modelNamed "Model A"; Demo.modelNamed "Model B"]
                      [Demo.modelNamed " model b "; Demo.modelNamed "Model C"; Demo.modelNamed "MODEL C"]).
Proof.
  assert (H : NoDup (normNames [Demo.modelNamed "Model A"; Demo.modelNamed "Model B"])).
  { apply (bool_decide_unpack _). vm_compute. reflexivity. }
  split; [exact H|].
  apply (proj2 (proj2 (proj2 (deduplicateModels_result _ _)))). exact H.
Defined.

(** C9 as stated fails: two dynamic models of one name both stay. *)
Lemma deduplicateModels_repeats_dynamic :
  deduplicateModels [Demo.modelNamed "Model A"; Demo.modelNamed " model a"] []
  = [Demo.modelNamed "Model A"; Demo.modelNamed " model a"]
  /\ normName (Demo.modelNamed "Model A") = Some "model a"
  /\ normName (Demo.modelNamed " model a") = Some "model a"
  /\ ~ distinctNames
        (deduplicateModels [Demo.modelNamed "Model A"; Demo.modelNamed " model a"] []).
Proof.
  split_and!; [reflexivity | reflexivity | reflexivity |].
  intros H.
  apply (H 0%nat 1%nat (Demo.modelNamed "Model A") (Demo.modelNamed " model a") "model a");
    [lia | reflexivity | reflexivity | reflexivity | reflexivity].
Qed.

Example deduplicateModels_test_WithOverlap :
  deduplicateModels [Demo.modelNamed "Model A"; Demo.modelNamed "Model B"]
                    [Demo.modelNamed "Model B"; Demo.modelNamed "Model C"]
  = [Demo.modelNamed "Model A"; Demo.modelNamed "Model B"; Demo.modelNamed "Model C"].
Proof. reflexivity. Qed.

Example deduplicateModels_test_NilNames :
  deduplicateModels
    [Demo.modelNamed "Valid Dynamic"; mkCatalogMetadata None None None None [] []]
    [mkCatalogMetadata None None None None [] []; Demo.modelNamed "Valid Static"]
  = [Demo.modelNamed "Valid Dynamic"; mkCatalogMetadata None None None None [] [];
     Demo.modelNamed "Valid Static"].
Proof. reflexivity. Qed.

End CatalogProps.

Module GoLibTests.
Import GoLib CatalogIO.

Example EncodeToString_examples :
  EncodeToString (list_byte_of_string "Man") = "TWFu"
  /\ EncodeToString (list_byte_of_string "Ma") = "TWE="
  /\ EncodeToString (list_byte_of_string "M") = "TQ=="
  /\ EncodeToString (list_byte_of_string "<svg/>") = "PHN2Zy8+".
Proof. vm_compute. done. Qed.

Example FormatInt_examples :
  FormatInt 1705312800000 = "1705312800000" /\ FormatInt 0 = "0"
  /\ FormatInt (-42) = "-42".
Proof. vm_compute. done. Qed.

Example Split_examples :
  Split "a.yaml, b.yaml,,c" "," = ["a.yaml"; " b.yaml"; ""; "c"]
  /\ Split "" "," = [""].
Proof. vm_compute. done. Qed.

Example sort_Strings_example :
  sort_Strings ["v2.yaml"; "v10.yaml"; "v1.yaml"] = ["v1.yaml"; "v10.yaml"; "v2.yaml"].
Proof. vm_compute. done. Qed.

End GoLibTests.

Module CleanPathProps.
Import GoStrings Filepath CleanPaths FilepathProps.

Lemma splitSlash_cons s : exists x xs, splitSlash s = x :: xs.
Proof.
  destruct s as [|c rest]; simpl; [eauto|].
  destruct (Ascii.eqb c "/"); [eauto|]. destruct (splitSlash rest); eauto.
Qed.

Lemma splitSlash_app_slash a b :
  splitSlash (a +:+ "/" +:+ b) = splitSlash a ++ splitSlash b.
Proof.
  induction a as [|c a IH]; simpl; [done|].
  destruct (Ascii.eqb c "/"); [by rewrite IH|].
  rewrite IH. destruct (splitSlash_cons a) as (x & xs & ->). done.
Qed.

Lemma splitSlash_element x : hasSlash x = false -> splitSlash x = [x].
Proof.
  induction x as [|c x IH]; simpl; [done|].
  intros [Hc Hx]%orb_false_iff. rewrite Hc, (IH Hx). done.
Qed.

Lemma splitSlash_joinSlash out :
  out <> [] -> Forall (fun x => hasSlash x = false) out ->
  splitSlash (joinSlash out) = out.
Proof.
  induction out as [|x rest IH]; [done|]. intros _ Hall.
  inversion Hall as [|? ? Hx Hrest]; subst.
  destruct rest as [|y rest]; [by apply splitSlash_element|].
  change (joinSlash (x :: y :: rest)) with (x +:+ "/" +:+ joinSlash (y :: rest)).
  rewrite splitSlash_app_slash, (splitSlash_element x Hx), IH by done. done.
Qed.

Lemma cleanStack_nil rooted : cleanStack rooted [].
Proof. exists [], []. by split_and!. Qed.

Lemma cleanStack_tail rooted x st : cleanStack rooted (x :: st) -> cleanStack rooted st.
Proof.
  intros (names & dots & Heq & Hn & Hd & Hr).
  destruct names as [|n names]; simpl in Heq.
  - destruct dots as [|d dots]; [done|]. injection Heq as -> ->.
    exists [], dots. inversion Hd; subst. split_and!; [done..|].
    intros Hroot. by specialize (Hr Hroot).
  - injection Heq as -> ->. exists names, dots. inversion Hn; subst. by split_and!.
Qed.

Lemma cleanStack_elements rooted st : cleanStack rooted st -> Forall isElement st.
Proof.
  intros (names & dots & -> & Hn & Hd & _). apply Forall_app. split.
  - eapply Forall_impl; [exact Hn|]. by intros x [? _].
  - eapply Forall_impl; [exact Hd|]. by intros x ->.
Qed.

Lemma cleanStep_cleanStack rooted st elem :
  cleanStack rooted st -> hasSlash elem = false ->
  cleanStack rooted (cleanStep rooted st elem).
Proof.
  intros Hst Helem. unfold cleanStep.
  destruct (String.eqb_spec elem "") as [|Hne]; [done|].
  destruct (String.eqb_spec elem ".") as [|Hdot]; [done|].
  destruct (String.eqb_spec elem "..") as [->|Hdots].
  - destruct st as [|top below].
    + destruct rooted; [apply cleanStack_nil|].
      exists [], [".."]. split_and!; [done | done | by repeat constructor | done].
    + destruct (String.eqb_spec top "..") as [->|Htop].
      * destruct Hst as (names & dots & Heq & Hn & Hd & Hr).
        destruct names as [|n names]; simpl in Heq.
        -- exists [], (".." :: dots). subst dots.
           split_and!; [done | done | by constructor | ].
           intros Hroot. by specialize (Hr Hroot).
        -- injection Heq as <- _. inversion Hn as [|? ? [_ [_ Hnn]] _]; subst. done.
      * by eapply cleanStack_tail.
  - destruct Hst as (names & dots & -> & Hn & Hd & Hr).
    exists (elem :: names), dots. split_and!; [done | | done | done].
    constructor; [|done]. by split_and!.
Qed.

Lemma fold_cleanStack rooted elems : forall st,
  cleanStack rooted st -> Forall (fun x => hasSlash x = false) elems ->
  cleanStack rooted (fold_left (cleanStep rooted) elems st).
Proof.
  induction elems as [|e elems IH]; intros st Hst Hall; simpl; [done|].
  inversion Hall; subst. apply IH; [|done]. by apply cleanStep_cleanStack.
Qed.

Lemma elements_cleanStack path : cleanStack (HasPrefix path "/") (elements path).
Proof. apply fold_cleanStack; [apply cleanStack_nil | apply splitSlash_no_slash]. Qed.

(** Pushing an element of a stack on the stack below it. *)
Lemma cleanStep_push rooted x st :
  cleanStack rooted (x :: st) -> cleanStep rooted st x = x :: st.
Proof.
  intros Hst. pose proof (cleanStack_elements _ _ Hst) as Hel.
  inversion Hel as [|? ? [Hne Hslash] _]; subst.
  destruct Hst as (names & dots & Heq & Hn & Hd & Hr).
  unfold cleanStep.
  destruct (String.eqb_spec x "") as [|_]; [done|].
  destruct names as [|n names]; simpl in Heq.
  - destruct dots as [|d dots]; [done|]. injection Heq as <- <-.
    inversion Hd as [|? ? Hx Hdots]; subst. simpl.
    destruct rooted; [by specialize (Hr eq_refl)|].
    destruct st as [|d st]; [done|].
    inversion Hdots; subst. done.
  - injection Heq as -> ->. inversion Hn as [|? ? [_ [Hdot Hdots]] _]; subst.
    destruct (String.eqb_spec n ".") as [|_]; [done|].
    by destruct (String.eqb_spec n "..") as [|_].
Qed.

(** Reading the elements of a stack again gives the stack. *)
Lemma fold_cleanStep_replay rooted st :
  cleanStack rooted st -> fold_left (cleanStep rooted) (rev st) [] = st.
Proof.
  induction st as [|x st IH]; [done|]. intros Hst.
  simpl. rewrite fold_left_app. simpl.
  rewrite IH by (by eapply cleanStack_tail). by apply cleanStep_push.
Qed.

Lemma Clean_render path :
  path <> "" -> Clean path = render (HasPrefix path "/") (rev (elements path)).
Proof.
  intros Hne. unfold Clean, render, elements.
  by destruct (String.eqb_spec path "").
Qed.

Lemma Clean_nonempty path : Clean path <> "".
Proof.
  unfold Clean. destruct (String.eqb_spec path ""); [done|].
  destruct (HasPrefix path "/"); [done|].
  pose proof (fold_cleanStep_elements false (splitSlash path) []
                (List.Forall_nil _) (splitSlash_no_slash path)) as Hout.
  apply Forall_rev in Hout.
  destruct (rev _) as [|x rest]; [done|].
  inversion Hout as [|? ? [Hx _] _]; subst.
  destruct x; [done|]. by destruct rest.
Qed.

Lemma HasPrefix_app_nonempty a b : a <> "" -> HasPrefix (a +:+ b) "/" = HasPrefix a "/".
Proof.
  destruct a as [|c a]; [done|]. intros _. unfold HasPrefix.
  change (String.prefix "/" (String c a +:+ b))
    with (if Ascii.ascii_dec "/" c then String.prefix "" (a +:+ b) else false).
  change (String.prefix "/" (String c a))
    with (if Ascii.ascii_dec "/" c then String.prefix "" a else false).
  destruct (Ascii.ascii_dec "/" c); [|done]. by rewrite !prefix_empty.
Qed.

(** The elements of a rendered stack are the stack. *)
Lemma elements_render rooted st :
  cleanStack rooted st ->
  fold_left (cleanStep rooted) (splitSlash (render rooted (rev st))) [] = st.
Proof.
  intros Hst. pose proof (cleanStack_elements _ _ Hst) as Hel.
  assert (Hslash : Forall (fun x => hasSlash x = false) (rev st)).
  { apply Forall_rev. eapply Forall_impl; [exact Hel|]. by intros x [_ ?]. }
  unfold render. destruct rooted.
  - change ("/" +:+ joinSlash (rev st)) with ("" +:+ "/" +:+ joinSlash (rev st)).
    rewrite splitSlash_app_slash. simpl.
    destruct (rev st) as [|y out] eqn:Hrev.
    + apply (f_equal (@rev string)) in Hrev. rewrite rev_involutive in Hrev.
      by subst st.
    + rewrite splitSlash_joinSlash by done. rewrite <- Hrev.
      by apply fold_cleanStep_replay.
  - destruct (rev st) as [|y out] eqn:Hrev.
    + apply (f_equal (@rev string)) in Hrev. rewrite rev_involutive in Hrev.
      by subst st.
    + rewrite splitSlash_joinSlash by done. rewrite <- Hrev.
      by apply fold_cleanStep_replay.
Qed.

(** [Clean] of a cleaned path followed by more elements. *)
Lemma Clean_Clean_slash path more :
  path <> "" -> Clean (Clean path +:+ "/" +:+ more) = Clean (path +:+ "/" +:+ more).
Proof.
  intros Hne.
  assert (Hrooted : HasPrefix (Clean path) "/" = HasPrefix path "/")
    by apply Clean_IsAbs.
  rewrite (Clean_render (Clean path +:+ "/" +:+ more)).
  2:{ pose proof (Clean_nonempty path). by destruct (Clean path). }
  rewrite (Clean_render (path +:+ "/" +:+ more)) by (by destruct path).
  rewrite !HasPrefix_app_nonempty by (done || apply Clean_nonempty).
  rewrite Hrooted. f_equal. f_equal. unfold elements.
  rewrite !HasPrefix_app_nonempty by (done || apply Clean_nonempty).
  rewrite Hrooted, !splitSlash_app_slash, !fold_left_app. f_equal.
  rewrite (Clean_render path Hne).
  apply elements_render. apply elements_cleanStack.
Qed.

Lemma Clean_idem path : Clean (Clean path) = Clean path.
Proof.
  destruct (String.eqb_spec path "") as [->|Hne]; [done|].
  rewrite (Clean_render (Clean path)) by apply Clean_nonempty.
  assert (Hrooted : HasPrefix (Clean path) "/" = HasPrefix path "/")
    by apply Clean_IsAbs.
  rewrite Hrooted. rewrite (Clean_render path Hne) at 2.
  f_equal. f_equal. unfold elements at 1. rewrite Hrooted.
  rewrite (Clean_render path Hne). apply elements_render, elements_cleanStack.
Qed.

Lemma append_assoc (a b c : string) : (a +:+ b) +:+ c = a +:+ (b +:+ c).
Proof.
  induction a as [|x a IH]; [done|].
  change (String x ((a +:+ b) +:+ c) = String x (a +:+ (b +:+ c))). by f_equal.
Qed.

Lemma joinSlash_snoc x l d :
  joinSlash ((x :: l) ++ [d]) = joinSlash (x :: l) +:+ "/" +:+ d.
Proof.
  revert x. induction l as [|y l IH]; intros x; [done|].
  transitivity (x +:+ "/" +:+ joinSlash ((y :: l) ++ [d])); [done|]. rewrite IH.
  transitivity ((x +:+ "/" +:+ joinSlash (y :: l)) +:+ "/" +:+ d); [|done].
  rewrite append_assoc. f_equal.
Qed.

Lemma joinSlash_nonempty x l : x <> "" -> joinSlash (x :: l) <> "".
Proof. destruct x; [done|]. by destruct l. Qed.

Lemma Join_cons_empty l : Join ("" :: l) = Join l.
Proof. done. Qed.

Lemma Join_cons x l : x <> "" -> Join (x :: l) = Clean (joinSlash (x :: l)).
Proof.
  intros Hx. change (Join (x :: l))
    with (if String.eqb x "" then Join l else Clean (joinSlash (x :: l))).
  by destruct (String.eqb_spec x "").
Qed.

(** Joining in two steps is joining at once. *)
Lemma Join_snoc l d : Join [Join l; d] = Join (l ++ [d]).
Proof.
  induction l as [|x l IH]; [done|].
  destruct (String.eqb_spec x "") as [->|Hx].
  - by rewrite Join_cons_empty.
  - change ((x :: l) ++ [d]) with (x :: (l ++ [d])).
    rewrite (Join_cons x (l ++ [d]) Hx), (Join_cons x l Hx).
    rewrite (Join_cons (Clean (joinSlash (x :: l)))) by apply Clean_nonempty.
    change (joinSlash [Clean (joinSlash (x :: l)); d])
      with (Clean (joinSlash (x :: l)) +:+ "/" +:+ d).
    rewrite Clean_Clean_slash by (by apply joinSlash_nonempty).
    change (x :: (l ++ [d])) with ((x :: l) ++ [d]). by rewrite joinSlash_snoc.
Qed.

(** *** The elements of a joined path *)

Lemma cleanStep_name rooted st x : isName x -> cleanStep rooted st x = x :: st.
Proof.
  intros [[Hne _] [Hdot Hdots]]. unfold cleanStep.
  destruct (String.eqb_spec x ""); [done|].
  destruct (String.eqb_spec x "."); [done|].
  by destruct (String.eqb_spec x "..").
Qed.

Lemma cleanStack_name rooted st x :
  cleanStack rooted st -> isName x -> cleanStack rooted (x :: st).
Proof.
  intros (names & dots & -> & Hn & Hd & Hr) Hx.
  exists (x :: names), dots. split_and!; [done | by constructor | done | done].
Qed.

Lemma render_rooted rooted st :
  cleanStack rooted st -> HasPrefix (render rooted (rev st)) "/" = rooted.
Proof.
  intros Hst. unfold render. destruct rooted; [apply IsAbs_slash|].
  pose proof (cleanStack_elements _ _ Hst) as Hel. apply Forall_rev in Hel.
  destruct (rev st) as [|y out]; [done|].
  inversion Hel; subst. by apply joinSlash_first.
Qed.

Lemma render_nonempty rooted st : cleanStack rooted st -> render rooted (rev st) <> "".
Proof.
  intros Hst. unfold render. destruct rooted; [done|].
  pose proof (cleanStack_elements _ _ Hst) as Hel. apply Forall_rev in Hel.
  destruct (rev st) as [|y out]; [done|].
  inversion Hel as [|? ? [Hy _] _]; subst. by apply joinSlash_nonempty.
Qed.

(** A rendered stack is clean, and stays so with more elements read. *)
Lemma Clean_render_more rooted st more :
  cleanStack rooted st ->
  Clean (render rooted (rev st) +:+ "/" +:+ more)
  = render rooted (rev (fold_left (cleanStep rooted) (splitSlash more) st)).
Proof.
  intros Hst. pose proof (render_nonempty _ _ Hst) as Hne.
  rewrite Clean_render by (by destruct (render rooted (rev st))).
  unfold elements. rewrite HasPrefix_app_nonempty by done.
  rewrite (render_rooted _ _ Hst).
  rewrite splitSlash_app_slash, fold_left_app. by rewrite (elements_render _ _ Hst).
Qed.

Lemma render_inj rooted st1 st2 :
  cleanStack rooted st1 -> cleanStack rooted st2 ->
  render rooted (rev st1) = render rooted (rev st2) -> st1 = st2.
Proof.
  intros H1 H2 Heq.
  rewrite <- (elements_render _ _ H1), <- (elements_render _ _ H2). by rewrite Heq.
Qed.

(** A joined path that is not empty is the rendering of a stack. *)
Lemma Join_render l :
  Join l <> "" ->
  exists rooted st, cleanStack rooted st /\ Join l = render rooted (rev st).
Proof.
  induction l as [|x l IH]; [done|].
  destruct (String.eqb_spec x "") as [->|Hx].
  - rewrite Join_cons_empty. apply IH.
  - intros _. rewrite (Join_cons x l Hx).
    exists (HasPrefix (joinSlash (x :: l)) "/"), (elements (joinSlash (x :: l))).
    split; [apply elements_cleanStack|].
    apply Clean_render. by apply joinSlash_nonempty.
Qed.

Lemma Join_empty l : Join l = "" -> Forall (fun x => x = "") l.
Proof.
  induction l as [|x l IH]; [done|].
  destruct (String.eqb_spec x "") as [->|Hx].
  - rewrite Join_cons_empty. intros H. constructor; [done | by apply IH].
  - rewrite (Join_cons x l Hx). intros H. by apply Clean_nonempty in H.
Qed.

Lemma Join_all_empty l d : Forall (fun x => x = "") l -> Join (l ++ [d]) = Join [d].
Proof.
  induction 1 as [|x l -> _ IH]; [done|].
  change (("" :: l) ++ [d]) with ("" :: (l ++ [d])). by rewrite Join_cons_empty.
Qed.

(** The path of [more] below a rendered stack. *)
Lemma Join_render_more rooted st more :
  cleanStack rooted st ->
  Join [render rooted (rev st); more]
  = render rooted (rev (fold_left (cleanStep rooted) (splitSlash more) st)).
Proof.
  intros Hst. rewrite Join_cons by (by apply render_nonempty).
  change (joinSlash [render rooted (rev st); more])
    with (render rooted (rev st) +:+ "/" +:+ more).
  by apply Clean_render_more.
Qed.

(** *** [filepath.Dir] *)

Lemma uptoLastSlash_element x : hasSlash x = false -> uptoLastSlash x = "".
Proof. destruct x as [|c x]; [done|]. simpl. by intros ->. Qed.

Lemma hasSlash_app_slash a b : hasSlash (a +:+ "/" +:+ b) = true.
Proof.
  induction a as [|c a IH]; [done|].
  change (hasSlash (String c (a +:+ "/" +:+ b)) = true). simpl.
  rewrite IH. apply orb_true_r.
Qed.

Lemma uptoLastSlash_app_slash a x :
  hasSlash x = false -> uptoLastSlash (a +:+ "/" +:+ x) = a +:+ "/".
Proof.
  intros Hx. induction a as [|c a IH].
  - change (uptoLastSlash (String "/" x) = "/"). simpl.
    by rewrite (uptoLastSlash_element x Hx).
  - change (uptoLastSlash (String c (a +:+ "/" +:+ x)) = String c (a +:+ "/")).
    change (uptoLastSlash (String c (a +:+ "/" +:+ x)))
      with (if hasSlash (String c (a +:+ "/" +:+ x))
            then String c (uptoLastSlash (a +:+ "/" +:+ x)) else "").
    change (hasSlash (String c (a +:+ "/" +:+ x)))
      with (Ascii.eqb c "/" || hasSlash (a +:+ "/" +:+ x)).
    rewrite hasSlash_app_slash, orb_true_r. by rewrite IH.
Qed.

(** The directory of a rendered stack is the stack below its top. *)
Lemma Dir_render rooted x st :
  cleanStack rooted (x :: st) ->
  Dir (render rooted (rev (x :: st))) = render rooted (rev st).
Proof.
  intros Hxst. pose proof (cleanStack_tail _ _ _ Hxst) as Hst.
  pose proof (cleanStack_elements _ _ Hxst) as Hel.
  inversion Hel as [|? ? [Hx Hslash] _]; subst.
  assert (Hmore : forall q, q = render rooted (rev st) ->
             Clean (q +:+ "/") = render rooted (rev st)).
  { intros q ->. change (render rooted (rev st) +:+ "/")
      with (render rooted (rev st) +:+ "/" +:+ "").
    by rewrite Clean_render_more. }
  unfold Dir. simpl rev. unfold render at 1. destruct rooted.
  - destruct (rev st) as [|y out] eqn:Hrev.
    + change ("/" +:+ joinSlash ([] ++ [x])) with ("" +:+ "/" +:+ x).
      rewrite uptoLastSlash_app_slash by done. done.
    + rewrite joinSlash_snoc.
      rewrite <- (append_assoc "/" (joinSlash (y :: out)) ("/" +:+ x)).
      rewrite uptoLastSlash_app_slash by done.
      by apply Hmore.
  - destruct (rev st) as [|y out] eqn:Hrev.
    + simpl. rewrite uptoLastSlash_element by done. done.
    + assert (Hj : match (y :: out) ++ [x] with
                   | [] => "."
                   | _ :: _ => joinSlash ((y :: out) ++ [x])
                   end = joinSlash (y :: out) +:+ "/" +:+ x)
        by apply joinSlash_snoc.
      rewrite Hj, uptoLastSlash_app_slash by done.
      by apply Hmore.
Qed.

(** The stack of a joined path, the empty stack for the empty path. *)
Lemma Join_base l :
  exists rooted st,
    cleanStack rooted st
    /\ forall d, d <> "" -> HasPrefix d "/" = false ->
         Join [Join l; d]
         = render rooted (rev (fold_left (cleanStep rooted) (splitSlash d) st)).
Proof.
  destruct (String.eqb_spec (Join l) "") as [Hl|Hl].
  - exists false, []. split; [apply cleanStack_nil|]. intros d Hd Hrel.
    rewrite Hl, Join_cons_empty, (Join_cons d []) by done.
    change (joinSlash [d]) with d. rewrite (Clean_render d Hd). unfold elements.
    by rewrite Hrel.
  - destruct (Join_render l Hl) as (rooted & st & Hst & ->).
    exists rooted, st. split; [done|]. intros d _ _. by apply Join_render_more.
Qed.

Lemma isName_models : isName "models".
Proof. by repeat split. Qed.

Lemma isName_metadata_yaml : isName "metadata.yaml".
Proof. by repeat split. Qed.

Lemma isName_relative x : isName x -> x <> "" /\ HasPrefix x "/" = false.
Proof.
  intros [[Hne Hslash] _]. split; [done|].
  destruct x as [|c x]; [done|]. simpl in Hslash. apply orb_false_iff in Hslash as [Hc _].
  unfold HasPrefix.
  change (String.prefix "/" (String c x))
    with (if Ascii.ascii_dec "/" c then String.prefix "" x else false).
  destruct (Ascii.ascii_dec "/" c) as [<-|]; [|done]. by rewrite Ascii.eqb_refl in Hc.
Qed.

End CleanPathProps.

Module ScanMore.
Import GoStrings Filepath Extractor WorldOrder ScanProps.

(** *** Layers that give no archive *)

Lemma layerArchive_None E src layer :
  layerArchive E src layer = None
  <-> registryBlob E src (Digest layer) = BlobError
      \/ registryBlob E src (Digest layer) = BlobNil
      \/ exists raw, registryBlob E src (Digest layer) = BlobStream raw
                     /\ Contains (MediaType layer) "+gzip" = true
                     /\ gzip_NewReader E raw = None.
Proof.
  unfold layerArchive.
  destruct (registryBlob E src (Digest layer)) as [| |raw]; [split; auto | split; auto |].
  destruct (Contains (MediaType layer) "+gzip").
  - destruct (gzip_NewReader E raw) as [reader|] eqn:Hz; simpl.
    + split; [done|]. intros [?|[?|(raw' & [= <-] & _ & Hz')]]; [done..|].
      by rewrite Hz in Hz'.
    + split; [|done]. intros _. right; right. by exists raw.
  - simpl. split; [done|]. by intros [?|[?|(raw' & _ & ? & _)]].
Qed.

(** X2.  The layers without the model card annotation are passed over: they
    cost no request and leave no trace.  Before other layers the scan goes on
    as if they were not there; a manifest with such layers only gets the
    skeleton metadata, and the registry is not asked for any blob. *)
Theorem scanLayersForModelCard_unannotated E pre rest src manifestRef configBlob w :
  Forall (fun layer => isModelCardLayer layer = false) pre ->
  scanLayersForModelCard E (pre ++ rest) src manifestRef configBlob w
  = scanLayersForModelCard E rest src manifestRef configBlob w
  /\ scanLayersForModelCard E pre src manifestRef configBlob w
     = (false, zeroModelMetadata E, createSkeletonMetadata E manifestRef configBlob w)
  /\ requests (scanLayersForModelCard E pre src manifestRef configBlob w).2 = requests w.
Proof.
  intros Hpre.
  assert (Hskip : forall more,
             scanLayersForModelCard E (pre ++ more) src manifestRef configBlob w
             = scanLayersForModelCard E more src manifestRef configBlob w).
  { intros more. induction Hpre as [|layer pre Hl _ IH]; [done|].
    simpl. by rewrite (scanLayer_other E layer src manifestRef configBlob w Hl). }
  split; [apply Hskip|].
  specialize (Hskip []). rewrite app_nil_r in Hskip. rewrite Hskip. simpl.
  split; [done|]. apply createSkeletonMetadata_world.
Qed.

Lemma scanLayersForModelCard_unannotated_witness :
  let E := Demo.demoEnv Demo.oneReadme [] Demo.noConfig [] in
  scanLayersForModelCard E ([Demo.dataLayer "sha256:bb"] ++ [Demo.docLayer "sha256:aa"])
                         "quay.io/org/model:1.0" "quay.io/org/model:1.0" [] emptyWorld
  = scanLayersForModelCard E [Demo.docLayer "sha256:aa"]
                           "quay.io/org/model:1.0" "quay.io/org/model:1.0" [] emptyWorld.
Proof.
  intros E.
  apply (scanLayersForModelCard_unannotated E [Demo.dataLayer "sha256:bb"]
           [Demo.docLayer "sha256:aa"] "quay.io/org/model:1.0" "quay.io/org/model:1.0"
           [] emptyWorld).
  repeat constructor.
Defined.

(** X3.  A layer that carries the annotation and whose blob the registry
    does not serve (an error, or no stream), or whose compressed blob does
    not decompress, is given up after its one request: nothing is written for
    it and the scan goes on with the next layer.  A blob whose media type
    does not name gzip is never handed to the decompressor. *)
Theorem scanLayersForModelCard_unreadable E layer rest src manifestRef configBlob w :
  isModelCardLayer layer = true ->
  registryBlob E src (Digest layer) = BlobError
  \/ registryBlob E src (Digest layer) = BlobNil
  \/ (exists raw, registryBlob E src (Digest layer) = BlobStream raw
                  /\ Contains (MediaType layer) "+gzip" = true
                  /\ gzip_NewReader E raw = None) ->
  scanLayer E layer src manifestRef configBlob w = Continue (requested src layer w)
  /\ scanLayersForModelCard E (layer :: rest) src manifestRef configBlob w
     = scanLayersForModelCard E rest src manifestRef configBlob (requested src layer w)
  /\ files (requested src layer w) = files w
  /\ dirs (requested src layer w) = dirs w.
Proof.
  intros Hdoc Hnone%layerArchive_None.
  assert (Hs : scanLayer E layer src manifestRef configBlob w
               = Continue (requested src layer w)).
  { rewrite scanLayer_doc by done. by rewrite Hnone. }
  split; [done|]. split; [|done].
  by apply scanLayersForModelCard_continue.
Qed.

Lemma scanLayersForModelCard_unreadable_witness :
  let E := RegistryDemo.registryEnv RegistryDemo.lostBlob [] in
  scanLayersForModelCard E [Demo.docLayer "sha256:aa"; Demo.docLayer "sha256:cc"]
                         "quay.io/org/model:1.0" "quay.io/org/model:1.0" [] emptyWorld
  = scanLayersForModelCard E [Demo.docLayer "sha256:cc"]
                           "quay.io/org/model:1.0" "quay.io/org/model:1.0" []
                           (requested "quay.io/org/model:1.0" (Demo.docLayer "sha256:aa")
                                      emptyWorld).
Proof.
  intros E.
  apply (scanLayersForModelCard_unreadable E (Demo.docLayer "sha256:aa")
           [Demo.docLayer "sha256:cc"] "quay.io/org/model:1.0" "quay.io/org/model:1.0"
           [] emptyWorld); [reflexivity|].
  left. reflexivity.
Defined.

(** X4.  The scan stops at the first layer that gives a model card: the
    layers after it are not requested and do not change the result. *)
Theorem scanLayersForModelCard_first_card E layers more src manifestRef configBlob w :
  (scanLayersForModelCard E layers src manifestRef configBlob w).1.1 = true ->
  scanLayersForModelCard E (layers ++ more) src manifestRef configBlob w
  = scanLayersForModelCard E layers src manifestRef configBlob w.
Proof.
  revert w. induction layers as [|layer rest IH]; intros w; simpl; [done|].
  destruct (scanLayer E layer src manifestRef configBlob w) as [found md w'|w']; [done|].
  apply IH.
Qed.

Lemma scanLayersForModelCard_first_card_witness :
  let E := Demo.demoEnv Demo.oneReadme [] Demo.noConfig [] in
  scanLayersForModelCard E ([Demo.docLayer "sha256:aa"] ++ [Demo.docLayer "sha256:cc"])
                         "quay.io/org/model:1.0" "quay.io/org/model:1.0" [] emptyWorld
  = scanLayersForModelCard E [Demo.docLayer "sha256:aa"]
                           "quay.io/org/model:1.0" "quay.io/org/model:1.0" [] emptyWorld.
Proof.
  intros E.
  apply (scanLayersForModelCard_first_card E [Demo.docLayer "sha256:aa"]
           [Demo.docLayer "sha256:cc"] "quay.io/org/model:1.0" "quay.io/org/model:1.0"
           [] emptyWorld).
  vm_compute. reflexivity.
Defined.

(** *** The world only grows *)

Lemma grows_refl w : grows w w.
Proof. by split_and!. Qed.

Lemma grows_trans w1 w2 w3 : grows w1 w2 -> grows w2 w3 -> grows w1 w3.
Proof.
  intros (Hf & Hd & Hr) (Hf' & Hd' & Hr'). split_and!; [set_solver | set_solver |].
  by etrans.
Qed.

Lemma grows_WriteFile E path data w w' : WriteFile E path data w = Some w' -> grows w w'.
Proof.
  unfold WriteFile. destruct (writeFails E path); [done|]. intros [= <-].
  split_and!; simpl; [|done..]. rewrite dom_insert. set_solver.
Qed.

Lemma grows_MkdirAll E path w w' : MkdirAll E path w = Some w' -> grows w w'.
Proof.
  unfold MkdirAll. destruct (mkdirFails E path); [done|]. intros [= <-].
  split_and!; simpl; [done| set_solver | done].
Qed.

Lemma grows_requested src layer w : grows w (requested src layer w).
Proof. split_and!; simpl; [done..|]. by apply prefix_app_r. Qed.

Lemma grows_createSkeletonMetadata E manifestRef configBlob w :
  grows w (createSkeletonMetadata E manifestRef configBlob w).
Proof.
  unfold createSkeletonMetadata.
  destruct (MkdirAll E _ w) as [w1|] eqn:H1; [|apply grows_refl].
  apply grows_MkdirAll in H1.
  destruct (extractTimestampsFromConfig E configBlob) as [createTime updateTime].
  destruct (yaml_Marshal E _) as [y|]; [|done].
  destruct (WriteFile E _ y w1) as [w2|] eqn:H2; [|done].
  apply grows_WriteFile in H2. by eapply grows_trans.
Qed.

Lemma grows_addModelLabelTags E manifestRef entry w :
  grows w (addModelLabelTags E manifestRef entry w).
Proof.
  destruct (LabelProps.addModelLabelTags_cases E manifestRef entry w)
    as [->|(data & metadata & updated & w' & _ & _ & _ & Hw & ->)]; [apply grows_refl|].
  by eapply grows_WriteFile.
Qed.

Lemma grows_writeModelCard E manifestRef configBlob name content w :
  grows w (outcomeWorld (writeModelCard E manifestRef configBlob name content w)).
Proof.
  unfold writeModelCard.
  destruct (IsAbs (Clean name) || HasPrefix (Clean name) "../"); [apply grows_refl|].
  destruct (negb _ && negb _); [apply grows_refl|].
  destruct (MkdirAll E _ w) as [w1|] eqn:H1; [|apply grows_refl].
  apply grows_MkdirAll in H1.
  destruct (WriteFile E _ content w1) as [w2|] eqn:H2; [|exact H1].
  apply grows_WriteFile in H2.
  destruct (extractTimestampsFromConfig E configBlob) as [createTime updateTime].
  simpl. apply (grows_trans _ w2); [by eapply grows_trans|].
  destruct (yaml_Marshal E _) as [y|]; [|apply grows_refl].
  destruct (WriteFile E _ y w2) as [w3|] eqn:H3; [|apply grows_refl].
  by eapply grows_WriteFile.
Qed.

Lemma grows_scanLayer E layer src manifestRef configBlob w :
  grows w (outcomeWorld (scanLayer E layer src manifestRef configBlob w)).
Proof.
  destruct (isModelCardLayer layer) eqn:Hdoc.
  - rewrite scanLayer_doc by done.
    destruct (layerArchive E src layer) as [tr|]; [|apply grows_requested].
    destruct (mdEntries tr) as [|[name body] [|? ?]]; [apply grows_requested | |
                                                        apply grows_requested].
    eapply grows_trans; [apply grows_requested | apply grows_writeModelCard].
  - rewrite scanLayer_other by done. apply grows_refl.
Qed.

Lemma grows_scanLayersForModelCard E layers src manifestRef configBlob : forall w,
  grows w (scanLayersForModelCard E layers src manifestRef configBlob w).2.
Proof.
  induction layers as [|layer rest IH]; intros w; simpl.
  - apply grows_createSkeletonMetadata.
  - pose proof (grows_scanLayer E layer src manifestRef configBlob w) as Hg.
    destruct (scanLayer E layer src manifestRef configBlob w) as [found md w'|w'];
      simpl in *; [done|].
    eapply grows_trans; [exact Hg | apply IH].
Qed.

Lemma grows_worker E ref entry w : grows w (worker E ref entry w).2.
Proof.
  unfold worker.
  destruct (fetchManifestSrcAndLayers E ref) as [err|[[src layers] cfg]];
    [apply grows_refl|].
  unfold scanLayersForModelCardWithTags.
  pose proof (grows_scanLayersForModelCard E layers src ref cfg w) as Hg.
  destruct (scanLayersForModelCard E layers src ref cfg w) as [[found md] w1].
  simpl in *. eapply grows_trans; [exact Hg | apply grows_addModelLabelTags].
Qed.

Lemma grows_step E uriToEntry sem cap (c c' : Coord E) :
  step E uriToEntry sem cap c c' -> grows (world c) (world c').
Proof.
  intros [ref rest run res w Hsem | pend run1 ref entry run2 res w result w' Hw Hcap];
    simpl; [apply grows_refl|].
  pose proof (grows_worker E ref entry w) as Hg. by rewrite Hw in Hg.
Qed.

(** X6.  The extractor never takes anything away: whatever the registry
    answers and in whatever order the goroutines run, every file and every
    directory that existed before a run exists after it, and the requests
    sent before are the first of those sent after.  It holds for one model
    and for every run over a list of references. *)
Theorem extractor_never_removes E uriToEntry manifestRefs maxConcurrent :
  (forall ref entry w, grows w (worker E ref entry w).2)
  /\ (forall w modelResults w',
        processModelsInParallelWithEntryMap E manifestRefs uriToEntry maxConcurrent
                                            w modelResults w' ->
        grows w w')
  /\ (forall w, grows w (runInOrder E manifestRefs uriToEntry w).2).
Proof.
  assert (Hrtc : forall sem cap (c c' : Coord E),
             rtc (step E uriToEntry sem cap) c c' -> grows (world c) (world c')).
  { intros sem cap c c' Hrun. induction Hrun as [|c1 c2 c3 Hs _ IH]; [apply grows_refl|].
    eapply grows_trans; [by eapply grows_step | exact IH]. }
  split_and!.
  - apply grows_worker.
  - intros w modelResults w' Hrun. by apply Hrtc in Hrun.
  - intros w.
    pose proof (CoordinatorProps.runInOrder_run E uriToEntry 1
                  (Z.of_nat (length manifestRefs)) manifestRefs [] w) as Hrun.
    apply Hrtc in Hrun; [done | lia | simpl; lia].
Qed.

(** X5.  When the scan reports a model card, one of the annotated layers
    holds an archive with exactly one [.md] entry, the name of that entry
    passed the path checks, and the file of the model card exists in the
    world the scan leaves.  The same holds for the result of a goroutine:
    the labels are added after the card is written and do not remove it. *)
Theorem found_model_card_is_written E :
  (forall layers src manifestRef configBlob w,
      let r := scanLayersForModelCard E layers src manifestRef configBlob w in
      r.1.1 = true ->
      exists layer tr name body,
        layer ∈ layers
        /\ isModelCardLayer layer = true
        /\ layerArchive E src layer = Some tr
        /\ mdEntries tr = [(name, body)]
        /\ safeEntryName E manifestRef name = true
        /\ is_Some (files r.2 !! cardPath E manifestRef name))
  /\ (forall ref entry w,
        ModelCardFound (worker E ref entry w).1 = true ->
        exists layer tr name body,
          layer ∈ LayerInfos E ref
          /\ isModelCardLayer layer = true
          /\ layerArchive E ref layer = Some tr
          /\ mdEntries tr = [(name, body)]
          /\ safeEntryName E ref name = true
          /\ is_Some (files (worker E ref entry w).2 !! cardPath E ref name)).
Proof.
  assert (Hscan : forall layers src manifestRef configBlob w,
      (scanLayersForModelCard E layers src manifestRef configBlob w).1.1 = true ->
      exists layer tr name body,
        layer ∈ layers
        /\ isModelCardLayer layer = true
        /\ layerArchive E src layer = Some tr
        /\ mdEntries tr = [(name, body)]
        /\ safeEntryName E manifestRef name = true
        /\ is_Some (files (scanLayersForModelCard E layers src manifestRef configBlob w).2
                      !! cardPath E manifestRef name)).
  { intros layers src manifestRef configBlob.
    induction layers as [|layer rest IH]; intros w; simpl; [done|].
    destruct (scanLayer E layer src manifestRef configBlob w) as [found md w'|w'] eqn:Hs.
    - simpl. intros ->.
      destruct (isModelCardLayer layer) eqn:Hdoc;
        [|by rewrite scanLayer_other in Hs].
      rewrite scanLayer_doc in Hs by done.
      destruct (layerArchive E src layer) as [tr|] eqn:Harch; [|done].
      destruct (mdEntries tr) as [|[name body] [|? ?]] eqn:Hmd; [done | | done].
      destruct (safeEntryName E manifestRef name) eqn:Hsafe;
        [|by rewrite writeModelCard_unsafe in Hs].
      exists layer, tr, name, body. split_and!; [apply elem_of_cons; by left | done..|].
      revert Hs. unfold writeModelCard.
      fold (modelDirOf E manifestRef). fold (cardPath E manifestRef name).
      destruct (IsAbs (Clean name) || HasPrefix (Clean name) "../"); [done|].
      destruct (negb _ && negb _); [done|].
      unfold MkdirAll. destruct (mkdirFails E _); [done|].
      unfold WriteFile at 1. destruct (writeFails E (cardPath E manifestRef name)); [done|].
      destruct (extractTimestampsFromConfig E configBlob) as [createTime updateTime].
      intros Hret. inversion Hret as [[Hm Hw]]. clear Hret Hm.
      destruct (yaml_Marshal E _) as [y|].
      + unfold WriteFile. destruct (writeFails E _); simpl.
        * by rewrite lookup_insert_eq.
        * apply elem_of_dom. rewrite dom_insert, dom_insert. set_solver.
      + simpl. by rewrite lookup_insert_eq.
    - intros Hfound. destruct (IH w' Hfound) as (l & tr & name & body & Hin & H).
      exists l, tr, name, body. split; [apply elem_of_cons; by right | exact H]. }
  split; [exact Hscan|].
  intros ref entry w. unfold worker, fetchManifestSrcAndLayers.
  destruct (negb (ParseReference E _)); [done|].
  destruct (negb (NewImageSource E ref)); [done|].
  destruct (GetManifest E ref); [|done].
  destruct (negb (NewImage E ref)); [done|].
  destruct (ConfigBlob E ref) as [cfg|]; [|done].
  unfold scanLayersForModelCardWithTags.
  specialize (Hscan (LayerInfos E ref) ref ref cfg w).
  destruct (scanLayersForModelCard E (LayerInfos E ref) ref ref cfg w) as [[found md] w1].
  simpl in *. intros Hfound.
  destruct (Hscan Hfound) as (l & tr & name & body & H1 & H2 & H3 & H4 & H5 & H6).
  exists l, tr, name, body. split_and!; [done..|].
  destruct (grows_addModelLabelTags E ref entry w1) as (Hdom & _).
  apply elem_of_dom. apply Hdom. by apply elem_of_dom.
Qed.

End ScanMore.

Module SkeletonProps.
Import GoStrings Filepath Extractor CleanPaths CleanPathProps LabelProps.

Lemma skeletonPath_metadataPathOf E manifestRef :
  skeletonPath E manifestRef = metadataPathOf E manifestRef.
Proof. unfold skeletonPath, metadataPathOf. by rewrite Join_snoc. Qed.

Lemma addLabels_unchanged (labels tags merged : list string) :
  addLabels labels tags false = (merged, false) -> merged = tags.
Proof.
  destruct (addLabels_appends labels tags false) as (new & -> & _).
  intros [= <- Hc]. simpl in Hc. apply negb_false_iff, bool_decide_eq_true in Hc.
  subst new. by rewrite app_nil_r.
Qed.

(** X22.  The skeleton metadata of a model without model card is written to
    the [metadata.yaml] that the labels of its entry are merged into: once
    the skeleton is written, the tags the label merge reads are those of the
    skeleton, and after the merge the file holds the tags followed by the
    new labels, as long as the record is written and read back with the tags
    it was given.  So a model whose layers carry no model card annotation
    ends up with the labels of its entry among its tags. *)
Theorem skeleton_metadata_gets_labels E manifestRef configBlob entry w
        metadataYaml metadata :
  let skeleton :=
    setArtifacts zeroExtractedMetadata
      (fillTimestamps (extractTimestampsFromConfig E configBlob).1
                      (extractTimestampsFromConfig E configBlob).2
                      (ExtractOCIArtifactsFromRegistry E manifestRef)) in
  mkdirFails E (Join [outputDir E; SanitizeManifestRef E manifestRef; "models"]) = false ->
  writeFails E (metadataPathOf E manifestRef) = false ->
  yaml_Marshal E skeleton = Some metadataYaml ->
  yaml_Unmarshal E metadataYaml = Some metadata ->
  let w1 := createSkeletonMetadata E manifestRef configBlob w in
  let merged := (addLabels (Labels entry) (Tags metadata) false).1 in
  skeletonPath E manifestRef = metadataPathOf E manifestRef
  /\ ReadFile (metadataPathOf E manifestRef) w1 = Some metadataYaml
  /\ persistedTags E manifestRef w1 = Some (Tags metadata)
  /\ ((forall updated,
         yaml_Marshal E (setTags metadata merged) = Some updated ->
         Tags <$> yaml_Unmarshal E updated = Some merged) ->
      is_Some (yaml_Marshal E (setTags metadata merged)) ->
      persistedTags E manifestRef (addModelLabelTags E manifestRef entry w1) = Some merged
      /\ forall label, label ∈ Labels entry -> label <> "" -> label ∈ merged)
  /\ (forall layers src,
        Forall (fun layer => isModelCardLayer layer = false) layers ->
        scanLayersForModelCardWithTags E layers src manifestRef configBlob entry w
        = (false, zeroModelMetadata E, addModelLabelTags E manifestRef entry w1)).
Proof.
  intros skeleton Hmk Hwr Hmarshal Hunmarshal w1 merged.
  pose proof (skeletonPath_metadataPathOf E manifestRef) as Hpath.
  assert (Hread : ReadFile (metadataPathOf E manifestRef) w1 = Some metadataYaml).
  { unfold w1, createSkeletonMetadata, MkdirAll. rewrite Hmk.
    unfold skeleton in Hmarshal.
    destruct (extractTimestampsFromConfig E configBlob) as [createTime updateTime].
    simpl in Hmarshal. rewrite Hmarshal.
    fold (skeletonPath E manifestRef). rewrite Hpath.
    unfold WriteFile. rewrite Hwr. unfold ReadFile. simpl. apply lookup_insert_eq. }
  assert (Htags : persistedTags E manifestRef w1 = Some (Tags metadata)).
  { unfold persistedTags. by rewrite Hread, Hunmarshal. }
  split_and!; [done | done | done | |].
  - subst merged. intros Hkeeps [updated Hupd]. split.
    + unfold persistedTags, addModelLabelTags. rewrite Hread, Hunmarshal.
      destruct (addLabels (Labels entry) (Tags metadata) false) as [tags changed] eqn:Ha.
      simpl in Hkeeps, Hupd |- *.
      destruct changed.
      * rewrite Hupd. unfold WriteFile. rewrite Hwr. unfold ReadFile. simpl.
        rewrite lookup_insert_eq. by apply Hkeeps.
      * rewrite Hread, Hunmarshal. simpl. f_equal. symmetry.
        by apply (addLabels_unchanged (Labels entry)).
    + intros label Hin Hne.
      by destruct (addLabels_covers (Labels entry) (Tags metadata) false label Hin).
  - intros layers src Hall. unfold scanLayersForModelCardWithTags.
    assert (Hscan : scanLayersForModelCard E layers src manifestRef configBlob w
                    = (false, zeroModelMetadata E, w1)).
    { clear -Hall. unfold w1. induction Hall as [|layer rest Hl _ IH]; [done|].
      simpl. by rewrite (ScanProps.scanLayer_other E layer src manifestRef configBlob w Hl). }
    by rewrite Hscan.
Qed.

Lemma skeleton_metadata_gets_labels_witness :
  let E := Demo.demoEnv [] [] Demo.noConfig [] in
  persistedTags E "quay.io/org/model:1.0"
                (createSkeletonMetadata E "quay.io/org/model:1.0" [] emptyWorld)
  = Some [].
Proof.
  intros E.
  refine (proj1 (proj2 (proj2
            (skeleton_metadata_gets_labels E "quay.io/org/model:1.0" [] Demo.taggedEntry
               emptyWorld [] (setTags zeroExtractedMetadata []) _ _ _ _))));
    reflexivity.
Defined.

(** The paths of a model, over the stack of its directory. *)
Lemma model_paths E manifestRef :
  exists rooted st,
    cleanStack rooted st
    /\ metadataPathOf E manifestRef
       = render rooted (rev ("metadata.yaml" :: "models" :: st))
    /\ Join [modelDirOf E manifestRef; "metadata.yaml"]
       = render rooted (rev ("metadata.yaml" :: st))
    /\ (forall name x,
          isName x -> Clean name = x ->
          cardPath E manifestRef name = render rooted (rev (x :: st)))
    /\ (forall name x,
          isName x -> Clean name = "models" +:+ "/" +:+ x ->
          cardPath E manifestRef name = render rooted (rev (x :: "models" :: st))).
Proof.
  destruct (Join_base [outputDir E; SanitizeManifestRef E manifestRef])
    as (rooted & st & Hst & Hjoin).
  fold (modelDirOf E manifestRef) in Hjoin.
  assert (Hone : forall x, isName x ->
             Join [modelDirOf E manifestRef; x] = render rooted (rev (x :: st))).
  { intros x Hx. destruct (isName_relative x Hx) as [Hne Hrel].
    rewrite (Hjoin x Hne Hrel). destruct Hx as [[_ Hslash] Hx].
    rewrite (splitSlash_element x Hslash). simpl fold_left.
    by rewrite cleanStep_name. }
  exists rooted, st. split_and!; [done | | | |].
  - unfold metadataPathOf.
    change [outputDir E; SanitizeManifestRef E manifestRef; "models"; "metadata.yaml"]
      with ([outputDir E; SanitizeManifestRef E manifestRef; "models"] ++ ["metadata.yaml"]).
    rewrite <- Join_snoc.
    change [outputDir E; SanitizeManifestRef E manifestRef; "models"]
      with ([outputDir E; SanitizeManifestRef E manifestRef] ++ ["models"]).
    rewrite <- Join_snoc. fold (modelDirOf E manifestRef).
    rewrite (Hone "models" isName_models).
    rewrite Join_render_more by (apply cleanStack_name; [done | apply isName_models]).
    simpl fold_left. by rewrite (cleanStep_name _ _ _ isName_metadata_yaml).
  - by apply Hone, isName_metadata_yaml.
  - intros name x Hx Hname. unfold cardPath. rewrite Hname. by apply Hone.
  - intros name x Hx Hname. unfold cardPath. rewrite Hname.
    rewrite Hjoin; [|done|done].
    rewrite splitSlash_app_slash. destruct Hx as [[Hne Hslash] Hx].
    rewrite (splitSlash_element x Hslash). simpl fold_left.
    rewrite (cleanStep_name _ _ _ isName_models). by rewrite cleanStep_name.
Qed.

(** X23.  The [metadata.yaml] of a model card is written beside the card,
    and the labels of the entry are merged into [models/metadata.yaml] of
    the model.  For a card that lies in [models] the two are the same file.
    For a card at the top level of its layer they are not: its metadata goes
    to the directory of the model, and when no [models/metadata.yaml] exists
    beforehand the label merge finds no file and changes nothing, so the
    labels of the entry are not recorded. *)
Theorem model_card_metadata_location E manifestRef name x :
  isName x ->
  (Clean name = "models" +:+ "/" +:+ x ->
   Join [Dir (cardPath E manifestRef name); "metadata.yaml"]
   = metadataPathOf E manifestRef)
  /\ (Clean name = x ->
      Join [Dir (cardPath E manifestRef name); "metadata.yaml"]
      = Join [modelDirOf E manifestRef; "metadata.yaml"]
      /\ Join [modelDirOf E manifestRef; "metadata.yaml"] <> metadataPathOf E manifestRef
      /\ cardPath E manifestRef name <> metadataPathOf E manifestRef
      /\ forall configBlob content entry w found metadata w',
           files w !! metadataPathOf E manifestRef = None ->
           writeModelCard E manifestRef configBlob name content w
           = Return found metadata w' ->
           ReadFile (metadataPathOf E manifestRef) w' = None
           /\ addModelLabelTags E manifestRef entry w' = w').
Proof.
  intros Hx.
  destruct (model_paths E manifestRef) as (rooted & st & Hst & Hmeta & Hdir & Htop & Hsub).
  assert (Hmodels : cleanStack rooted ("models" :: st))
    by (apply cleanStack_name; [done | apply isName_models]).
  split.
  - intros Hname. rewrite (Hsub name x Hx Hname), Hmeta.
    rewrite Dir_render by (by apply cleanStack_name).
    rewrite Join_render_more by done. simpl fold_left.
    by rewrite (cleanStep_name _ _ _ isName_metadata_yaml).
  - intros Hname.
    assert (Hbeside : Join [Dir (cardPath E manifestRef name); "metadata.yaml"]
                      = Join [modelDirOf E manifestRef; "metadata.yaml"]).
    { rewrite (Htop name x Hx Hname), Hdir.
      rewrite Dir_render by (by apply cleanStack_name).
      rewrite Join_render_more by done. simpl fold_left.
      by rewrite (cleanStep_name _ _ _ isName_metadata_yaml). }
    assert (Hne1 : Join [modelDirOf E manifestRef; "metadata.yaml"]
                   <> metadataPathOf E manifestRef).
    { rewrite Hdir, Hmeta. intros Heq. apply render_inj in Heq.
      - apply (f_equal length) in Heq. simpl in Heq. lia.
      - apply cleanStack_name; [done | apply isName_metadata_yaml].
      - apply cleanStack_name; [done | apply isName_metadata_yaml]. }
    assert (Hne2 : cardPath E manifestRef name <> metadataPathOf E manifestRef).
    { rewrite (Htop name x Hx Hname), Hmeta. intros Heq. apply render_inj in Heq.
      - apply (f_equal length) in Heq. simpl in Heq. lia.
      - by apply cleanStack_name.
      - apply cleanStack_name; [done | apply isName_metadata_yaml]. }
    split_and!; [done | done | done |].
    intros configBlob content entry w found metadata w' Hnone Hret.
    assert (Hread : ReadFile (metadataPathOf E manifestRef) w' = None).
    { destruct (safeEntryName E manifestRef name) eqn:Hsafe.
      - destruct (ScanProps.writeModelCard_safe E manifestRef configBlob name content w Hsafe)
          as (_ & _ & Hwrote & _).
        rewrite Hret in Hwrote. simpl in Hwrote. unfold ReadFile.
        destruct (files w' !! metadataPathOf E manifestRef) as [data|] eqn:Hf; [|done].
        assert (Hdiff : files w' !! metadataPathOf E manifestRef
                        <> files w !! metadataPathOf E manifestRef)
          by (by rewrite Hf, Hnone).
        apply Hwrote in Hdiff. rewrite Hbeside in Hdiff.
        apply elem_of_cons in Hdiff as [Hd|Hd]; [by symmetry in Hd|].
        apply list_elem_of_singleton in Hd. by symmetry in Hd.
      - by rewrite ScanProps.writeModelCard_unsafe in Hret. }
    split; [done|]. unfold addModelLabelTags. by rewrite Hread.
Qed.

Lemma model_card_metadata_location_witness :
  let E := Demo.demoEnv [] [] Demo.noConfig [] in
  Join [Dir (cardPath E "quay.io/org/model:1.0" "models/README.md"); "metadata.yaml"]
  = metadataPathOf E "quay.io/org/model:1.0".
Proof.
  intros E.
  refine (proj1 (model_card_metadata_location E "quay.io/org/model:1.0"
                   "models/README.md" "README.md" _) _).
  - by repeat split.
  - reflexivity.
Defined.

(** A model card at the top level of its layer: the labels of the entry
    are not recorded. *)
Example top_level_card_without_labels :
  let E := Demo.demoEnv [TarEntry "README.md" 7 (Some Demo.readme)]
                        [Demo.docLayer "sha256:aa"] Demo.noConfig [] in
  let r := worker E "quay.io/org/model:1.0" Demo.taggedEntry emptyWorld in
  ModelCardFound r.1 = true
  /\ dom (files r.2) = {["output/quay.io_org_model_1.0/README.md";
                         "output/quay.io_org_model_1.0/metadata.yaml"]}
  /\ persistedTags E "quay.io/org/model:1.0" r.2 = None.
Proof. split_and!; vm_compute; reflexivity. Qed.

End SkeletonProps.

Module CoordinatorMore.
Import Extractor CoordinatorProps.

Lemma rtc_running_bound E uriToEntry sem cap (c c' : Coord E) :
  rtc (step E uriToEntry sem cap) c c' ->
  Z.of_nat (length (running c)) <= sem -> Z.of_nat (length (running c')) <= sem.
Proof.
  induction 1 as [|c1 c2 c3 Hs _ IH]; [done|]. intros H1. apply IH.
  inversion Hs
    as [ref rest run res w0 Hsem | pend run1 ref entry run2 res w0 result w' Hw Hcap];
    subst; simpl in *.
  - rewrite length_app. simpl. lia.
  - rewrite length_app in *. simpl in *. lia.
Qed.

Lemma rtc_running_entries E uriToEntry sem cap (c c' : Coord E) :
  rtc (step E uriToEntry sem cap) c c' ->
  Forall (fun started => started.2 = entryOf uriToEntry started.1) (running c) ->
  Forall (fun started => started.2 = entryOf uriToEntry started.1) (running c').
Proof.
  induction 1 as [|c1 c2 c3 Hs _ IH]; [done|]. intros H1. apply IH.
  inversion Hs
    as [ref rest run res w0 Hsem | pend run1 ref entry run2 res w0 result w' Hw Hcap];
    subst; simpl in *.
  - apply Forall_app. split; [done|]. by repeat constructor.
  - apply Forall_app in H1 as [H1 H2]. inversion H2; subst. by apply Forall_app.
Qed.

(** The loop starts [k] goroutines in a row while permits are left. *)
Lemma rtc_starts E uriToEntry sem cap (k : nat) : forall manifestRefs run res w,
  (k <= length manifestRefs)%nat ->
  Z.of_nat (length run + k) <= sem ->
  rtc (step E uriToEntry sem cap)
      (mkCoord manifestRefs run res w)
      (mkCoord (drop k manifestRefs)
               (run ++ ((fun ref => (ref, entryOf uriToEntry ref)) <$> take k manifestRefs))
               res w).
Proof.
  induction k as [|k IH]; intros refs run res w Hk Hsem.
  - rewrite drop_0, take_0. simpl. rewrite app_nil_r. apply rtc_refl.
  - destruct refs as [|ref rest]; [simpl in Hk; lia|].
    eapply rtc_l; [apply step_start; lia|].
    specialize (IH rest (run ++ [(ref, entryOf uriToEntry ref)]) res w).
    rewrite <- app_assoc in IH. simpl in IH |- *.
    apply IH; [simpl in Hk; lia|]. rewrite length_app. simpl. lia.
Qed.

(** X7.  The semaphore bounds the goroutines at work: in every state of a
    run no more of them hold a permit than [maxConcurrent] after its
    correction, so no more than [maxConcurrent] when it is positive.  The
    references answered, at work and waiting are at every moment those of
    the input, repetitions included, each goroutine works with the entry of
    its reference, and the results channel never holds more results than
    there are references.  The bound is reached: some state of a run has as
    many goroutines at work as there are permits, or references when these
    are fewer. *)
Theorem running_within_permits E uriToEntry manifestRefs maxConcurrent w (c : Coord E) :
  rtc (step E uriToEntry (permits maxConcurrent) (Z.of_nat (length manifestRefs)))
      (start manifestRefs w) c ->
  Z.of_nat (length (running c)) <= permits maxConcurrent
  /\ (1 <= maxConcurrent -> Z.of_nat (length (running c)) <= maxConcurrent)
  /\ (length (results c) + length (running c) + length (pending c)
      = length manifestRefs)%nat
  /\ (length (results c) <= length manifestRefs)%nat
  /\ (Ref <$> results c) ++ (fst <$> running c) ++ pending c ≡ₚ manifestRefs
  /\ Forall (fun started => started.2 = entryOf uriToEntry started.1) (running c)
  /\ (exists c' : Coord E,
        rtc (step E uriToEntry (permits maxConcurrent) (Z.of_nat (length manifestRefs)))
            (start manifestRefs w) c'
        /\ Z.of_nat (length (running c'))
           = Z.min (permits maxConcurrent) (Z.of_nat (length manifestRefs))).
Proof.
  intros Hrun.
  assert (Hbound : Z.of_nat (length (running c)) <= permits maxConcurrent).
  { pose proof (permits_ge_1 maxConcurrent) as Hp.
    eapply (rtc_running_bound E uriToEntry); [exact Hrun | simpl; lia]. }
  pose proof (rtc_step_refsOf E uriToEntry _ _ _ _ Hrun) as Hperm.
  assert (Hrefs : (Ref <$> results c) ++ (fst <$> running c) ++ pending c ≡ₚ manifestRefs).
  { exact Hperm. }
  apply Permutation_length in Hperm. rewrite refsOf_length in Hperm.
  unfold start, refsOf in Hperm. simpl in Hperm.
  split_and!; [done | | lia | lia | done | |].
  - intros Hpos. unfold permits, correctMaxConcurrent in Hbound.
    destruct (Z.ltb_spec maxConcurrent 1); simpl in Hbound; lia.
  - eapply (rtc_running_entries E uriToEntry); [exact Hrun|]. constructor.
  - pose proof (permits_ge_1 maxConcurrent) as Hp.
    set (k := Z.to_nat (Z.min (permits maxConcurrent) (Z.of_nat (length manifestRefs)))).
    exists (mkCoord (drop k manifestRefs)
                    ([] ++ ((fun ref => (ref, entryOf uriToEntry ref))
                              <$> take k manifestRefs))
                    [] w).
    split.
    + apply rtc_starts; simpl; lia.
    + simpl. rewrite length_fmap, length_take. lia.
Qed.

Lemma running_within_permits_witness :
  let E := Demo.demoEnv Demo.oneReadme [Demo.docLayer "sha256:aa"] Demo.noConfig [] in
  let c : Coord E :=
    mkCoord ["quay.io/org/model:1.0"]
            [("quay.io/org/model:1.0", entryOf ∅ "quay.io/org/model:1.0");
             ("unreachable.example/model:1", entryOf ∅ "unreachable.example/model:1")]
            [] emptyWorld in
  Z.of_nat (length (running c)) <= permits 2
  /\ (Ref <$> results c) ++ (fst <$> running c) ++ pending c ≡ₚ Demo.mixedRefs.
Proof.
  intros E c.
  assert (Hrun : rtc (step E ∅ (permits 2) (Z.of_nat (length Demo.mixedRefs)))
                     (start Demo.mixedRefs emptyWorld) c).
  { eapply rtc_l.
    { exact (step_start E ∅ (permits 2) (Z.of_nat (length Demo.mixedRefs))
               "quay.io/org/model:1.0"
               ["unreachable.example/model:1"; "quay.io/org/model:1.0"]
               [] [] emptyWorld ltac:(vm_compute; reflexivity)). }
    eapply rtc_l; [|apply rtc_refl].
    exact (step_start E ∅ (permits 2) (Z.of_nat (length Demo.mixedRefs))
             "unreachable.example/model:1" ["quay.io/org/model:1.0"]
             [("quay.io/org/model:1.0", entryOf ∅ "quay.io/org/model:1.0")]
             [] emptyWorld ltac:(vm_compute; reflexivity)). }
  pose proof (running_within_permits E ∅ Demo.mixedRefs 2 emptyWorld c Hrun)
    as (Hbound & _ & _ & _ & Hperm & _).
  split; [exact Hbound | exact Hperm].
Defined.

End CoordinatorMore.

Module TimestampMore.
Import GoStrings GoTime Extractor TimestampProps.

(** X8.  Without a config blob, and with one that does not decode, there
    are no timestamps.  Whatever the blob, an update time is given whenever
    a creation time is: the creation time stands in for a history that is
    missing or does not parse.  The converse fails: a config whose creation
    time does not parse still gets the update time of its history. *)
Theorem extractTimestampsFromConfig_absent E configBlob :
  let r := extractTimestampsFromConfig E configBlob in
  (configBlob = [] \/ json_Unmarshal E configBlob = None -> r = (None, None))
  /\ (is_Some r.1 -> is_Some r.2)
  /\ (forall config,
        configBlob <> [] ->
        json_Unmarshal E configBlob = Some config ->
        History config = [] \/ last (History config) = Some "" ->
        r.2 = r.1)
  /\ (forall config lastHistoryEntry parsedTime,
        configBlob <> [] ->
        json_Unmarshal E configBlob = Some config ->
        parseTimestampWithFallback (Created config) = None ->
        last (History config) = Some lastHistoryEntry ->
        parseTimestampWithFallback lastHistoryEntry = Some parsedTime ->
        r = (None, Some (Unix parsedTime * 1000))).
Proof.
  intros r. unfold r. split_and!.
  - intros [->|Hjson]; [done|]. unfold extractTimestampsFromConfig.
    destruct configBlob; [done|]. by rewrite Hjson.
  - destruct configBlob as [|b bs] eqn:Hblob; [by intros [? ?]|].
    destruct (json_Unmarshal E (b :: bs)) as [config|] eqn:Hjson.
    + rewrite (extractTimestampsFromConfig_eq E (b :: bs) config) by done. simpl.
      intros Hc. destruct (last (History config)) as [h|]; [|done].
      by destruct (parseTimestampWithFallback h).
    + unfold extractTimestampsFromConfig. rewrite Hjson. by intros [? ?].
  - intros config Hne Hjson Hhist.
    rewrite (extractTimestampsFromConfig_eq E configBlob config) by done. simpl.
    destruct Hhist as [->| ->]; [done|]. by rewrite parseTimestampWithFallback_empty.
  - intros config h t Hne Hjson Hc Hlast Ht.
    rewrite (extractTimestampsFromConfig_eq E configBlob config) by done.
    rewrite Hc, Hlast, Ht. simpl. by rewrite (epochMs_exact h t Ht).
Qed.

(** X9.  The timestamps of the config are used only where an artifact has
    none of its own: the artifacts keep their number, their order, their
    URIs and the timestamps they have.  Filling a second time changes
    nothing, and neither does filling without timestamps; once the config
    gives both timestamps, no artifact is left without. *)
Theorem fillTimestamps_keeps (createTime updateTime : option Z)
        (artifacts : list OCIArtifact) :
  let filled := fillTimestamps createTime updateTime artifacts in
  ArtifactURI <$> filled = ArtifactURI <$> artifacts
  /\ (forall i artifact,
        artifacts !! i = Some artifact ->
        exists artifact',
          filled !! i = Some artifact'
          /\ (forall t, ArtifactCreateTimeSinceEpoch artifact = Some t ->
                        ArtifactCreateTimeSinceEpoch artifact' = Some t)
          /\ (forall t, ArtifactLastUpdateTimeSinceEpoch artifact = Some t ->
                        ArtifactLastUpdateTimeSinceEpoch artifact' = Some t)
          /\ (ArtifactCreateTimeSinceEpoch artifact = None ->
              ArtifactCreateTimeSinceEpoch artifact' = createTime)
          /\ (ArtifactLastUpdateTimeSinceEpoch artifact = None ->
              ArtifactLastUpdateTimeSinceEpoch artifact' = updateTime))
  /\ (forall createTime' updateTime',
        (createTime = None -> createTime' = None) ->
        (updateTime = None -> updateTime' = None) ->
        fillTimestamps createTime' updateTime' filled = filled)
  /\ fillTimestamps None None artifacts = artifacts
  /\ (is_Some createTime -> is_Some updateTime ->
      Forall (fun artifact => is_Some (ArtifactCreateTimeSinceEpoch artifact)
                              /\ is_Some (ArtifactLastUpdateTimeSinceEpoch artifact))
             filled).
Proof.
  intros filled. unfold filled, fillTimestamps. split_and!.
  - induction artifacts as [|a rest IH]; simpl; [done|]. by f_equal.
  - intros i. revert i. induction artifacts as [|a rest IH]; intros i a' Hi; [done|].
    destruct i as [|i]; [|by apply IH].
    injection Hi as ->. eexists. split; [done|]. simpl.
    split_and!; try (by intros ? ->); by intros ->.
  - intros c' u' Hc Hu. induction artifacts as [|a rest IH]; simpl; [done|].
    f_equal; [|exact IH].
    destruct (ArtifactCreateTimeSinceEpoch a), (ArtifactLastUpdateTimeSinceEpoch a),
      createTime, updateTime; simpl; try done;
      rewrite ?Hc, ?Hu; done.
  - induction artifacts as [|a rest IH]; simpl; [done|]. rewrite IH.
    by destruct a as [uri [c|] [u|]].
  - intros [c ->] [u ->]. induction artifacts as [|a rest IH]; simpl; constructor;
      [|exact IH].
    simpl. by destruct (ArtifactCreateTimeSinceEpoch a),
                       (ArtifactLastUpdateTimeSinceEpoch a).
Qed.

End TimestampMore.

Module CatalogMore.
Import GoStrings Catalog CatalogProps.

(** What is kept depends on the names seen before, not on who carries them. *)
Lemma keptStatics_seen (stat : list CatalogMetadata) : forall dyn earlier dyn' earlier',
  (forall k, Some k ∈ normName <$> dyn \/ Some k ∈ normName <$> earlier
             <-> Some k ∈ normName <$> dyn' \/ Some k ∈ normName <$> earlier') ->
  keptStatics dyn earlier stat = keptStatics dyn' earlier' stat.
Proof.
  induction stat as [|s rest IH]; intros dyn earlier dyn' earlier' Hseen; simpl; [done|].
  assert (Hk : keptStatic dyn earlier s = keptStatic dyn' earlier' s).
  { unfold keptStatic. destruct (normName s) as [k|]; [|done].
    rewrite <- !negb_orb. f_equal. apply eq_true_iff_eq.
    rewrite !orb_true_iff, !bool_decide_eq_true. apply Hseen. }
  rewrite Hk. f_equal. apply IH. intros k.
  rewrite !elem_of_snoc_normName. specialize (Hseen k). naive_solver.
Qed.

Lemma keptStatics_app dyn (s1 : list CatalogMetadata) : forall earlier s2,
  keptStatics dyn earlier (s1 ++ s2)
  = keptStatics dyn earlier s1 ++ keptStatics dyn (earlier ++ s1) s2.
Proof.
  induction s1 as [|s rest IH]; intros earlier s2; simpl.
  - by rewrite app_nil_r.
  - rewrite IH, <- !app_assoc. simpl. done.
Qed.

(** A static model with a name is kept, or its name was seen before. *)
Lemma keptStatics_covers dyn (stat : list CatalogMetadata) : forall earlier k,
  Some k ∈ normName <$> stat ->
  Some k ∈ normName <$> dyn \/ Some k ∈ normName <$> earlier
  \/ Some k ∈ normName <$> keptStatics dyn earlier stat.
Proof.
  induction stat as [|s rest IH]; intros earlier k Hk; simpl in *.
  - by apply elem_of_nil in Hk.
  - rewrite fmap_app, elem_of_app.
    apply elem_of_cons in Hk as [Hs|Hk].
    + unfold keptStatic. rewrite <- Hs.
      destruct (bool_decide (Some k ∈ normName <$> dyn)) eqn:Hd;
        [apply bool_decide_eq_true in Hd; auto|].
      destruct (bool_decide (Some k ∈ normName <$> earlier)) eqn:He;
        [apply bool_decide_eq_true in He; auto|].
      simpl. right. right. left. rewrite <- Hs. apply elem_of_cons. by left.
    + destruct (IH (earlier ++ [s]) k Hk) as [H|[H|H]]; [auto | | auto].
      apply elem_of_snoc_normName in H as [H|H]; [auto|].
      destruct (keptStatic dyn earlier s) eqn:Hkept.
      * right. right. left. simpl. rewrite H. apply elem_of_cons. by left.
      * unfold keptStatic in Hkept. rewrite H in Hkept.
        apply andb_false_iff in Hkept as [Hkept|Hkept];
          apply negb_false_iff, bool_decide_eq_true in Hkept; auto.
Qed.

Lemma keptStatics_from dyn (stat : list CatalogMetadata) : forall earlier k,
  Some k ∈ normName <$> keptStatics dyn earlier stat -> Some k ∈ normName <$> stat.
Proof.
  induction stat as [|s rest IH]; intros earlier k; simpl; [done|].
  rewrite fmap_app, elem_of_app, elem_of_cons. intros [H|H].
  - destruct (keptStatic dyn earlier s); simpl in H.
    + apply list_elem_of_singleton in H. auto.
    + by apply elem_of_nil in H.
  - right. by eapply IH.
Qed.

Lemma deduplicateModels_keptStatics (dyn stat : list CatalogMetadata) :
  deduplicateModels dyn stat = dyn ++ keptStatics dyn [] stat.
Proof.
  unfold deduplicateModels. apply appendStatic_keptStatics.
  intros k. rewrite dynamicNames_get, mapGet_empty. simpl.
  rewrite elem_of_nil. naive_solver.
Qed.

(** X1.  Merging static models in two steps gives what merging them at
    once gives: the result of a merge can be taken as the dynamic models of
    the next.  Merging the same static models a second time adds nothing, so
    a catalog file that is listed twice counts once.  A merge keeps every
    dynamic model, in place and in order, at the head of the result; what
    follows are static models only, in their order, each at most once: a
    static model without a usable name never, one with a name that is
    neither among the dynamic models nor earlier among the static ones
    always.  Without static models the result is the dynamic models. *)
Theorem deduplicateModels_composes (dyn s1 s2 : list CatalogMetadata) :
  deduplicateModels dyn (s1 ++ s2) = deduplicateModels (deduplicateModels dyn s1) s2
  /\ deduplicateModels (deduplicateModels dyn s1) s1 = deduplicateModels dyn s1
  /\ deduplicateModels dyn (s1 ++ s1) = deduplicateModels dyn s1
  /\ (length dyn <= length (deduplicateModels dyn s1) <= length dyn + length s1)%nat
  /\ (forall m, m ∈ deduplicateModels dyn s1 -> m ∈ dyn \/ m ∈ s1)
  /\ (exists kept,
        deduplicateModels dyn s1 = dyn ++ kept
        /\ sublist kept s1
        /\ (forall m, m ∈ kept -> is_Some (normName m))
        /\ (forall before m after k,
              s1 = before ++ m :: after ->
              normName m = Some k ->
              Some k ∉ normName <$> dyn ->
              Some k ∉ normName <$> before ->
              m ∈ kept))
  /\ deduplicateModels dyn [] = dyn.
Proof.
  assert (Hkept : exists kept,
             deduplicateModels dyn s1 = dyn ++ kept
             /\ sublist kept s1
             /\ (forall m, m ∈ kept -> is_Some (normName m))
             /\ (forall before m after k,
                   s1 = before ++ m :: after ->
                   normName m = Some k ->
                   Some k ∉ normName <$> dyn ->
                   Some k ∉ normName <$> before ->
                   m ∈ kept)).
  { exists (keptStatics dyn [] s1).
    split; [apply deduplicateModels_keptStatics|]. split_and!.
    - generalize (@nil CatalogMetadata). induction s1 as [|s t IH]; intros earlier; simpl.
      + constructor.
      + destruct (keptStatic dyn earlier s); simpl.
        * apply sublist_skip, IH.
        * apply sublist_cons, IH.
    - generalize (@nil CatalogMetadata). induction s1 as [|s t IH]; intros earlier m; simpl.
      + by intros ?%elem_of_nil.
      + rewrite elem_of_app. intros [H|H]; [|by eapply IH].
        unfold keptStatic in H. destruct (normName s) as [k|] eqn:Hs.
        * destruct (negb _ && negb _); simpl in H.
          -- apply list_elem_of_singleton in H as ->. rewrite Hs. eauto.
          -- by apply elem_of_nil in H.
        * by apply elem_of_nil in H.
    - intros before m after k -> Hm Hdyn Hbefore.
      rewrite keptStatics_app, elem_of_app. right. simpl.
      rewrite elem_of_app. left. unfold keptStatic. rewrite Hm.
      rewrite !bool_decide_eq_false_2 by done. simpl. apply list_elem_of_singleton.
      done. }
  assert (Happ : forall t1 t2 : list CatalogMetadata,
             deduplicateModels dyn (t1 ++ t2)
             = deduplicateModels (deduplicateModels dyn t1) t2).
  { intros t1 t2. rewrite !deduplicateModels_keptStatics, keptStatics_app, <- app_assoc.
    do 2 f_equal. simpl. apply keptStatics_seen. intros k.
    rewrite fmap_app, elem_of_app.
    pose proof (keptStatics_covers dyn t1 [] k) as Hc.
    pose proof (keptStatics_from dyn t1 [] k) as Hf.
    assert (Hnil : ~ Some k ∈ normName <$> @nil CatalogMetadata)
      by (simpl; apply not_elem_of_nil).
    naive_solver. }
  assert (Hidem : deduplicateModels (deduplicateModels dyn s1) s1
                  = deduplicateModels dyn s1).
  { rewrite (deduplicateModels_keptStatics (deduplicateModels dyn s1) s1).
    assert (keptStatics (deduplicateModels dyn s1) [] s1 = []) as ->;
      [|by rewrite app_nil_r].
    rewrite deduplicateModels_keptStatics.
    assert (Hnone : forall (t earlier : list CatalogMetadata),
               (forall k, Some k ∈ normName <$> t ->
                          Some k ∈ normName <$> (dyn ++ keptStatics dyn [] s1)) ->
               keptStatics (dyn ++ keptStatics dyn [] s1) earlier t = []).
    { induction t as [|s t IH]; intros earlier Ht; simpl; [done|].
      rewrite IH by (intros k Hk; apply Ht; simpl; apply elem_of_cons; auto).
      rewrite app_nil_r. unfold keptStatic.
      destruct (normName s) as [k|] eqn:Hs; [|done].
      rewrite (bool_decide_eq_true_2 (Some k ∈ normName <$> (dyn ++ keptStatics dyn [] s1))).
      - done.
      - apply Ht. simpl. rewrite Hs. apply elem_of_cons. by left. }
    apply Hnone. intros k Hk. rewrite fmap_app, elem_of_app.
    destruct (keptStatics_covers dyn s1 [] k Hk) as [H|[H|H]]; auto.
    by apply elem_of_nil in H. }
  split; [apply Happ|]. split; [exact Hidem|]. split; [by rewrite Happ, Hidem|].
  split; [|split; [|split; [exact Hkept | done]]].
  - rewrite deduplicateModels_keptStatics, length_app.
    assert (Hlen : forall (t earlier : list CatalogMetadata),
               (length (keptStatics dyn earlier t) <= length t)%nat).
    { induction t as [|s t IH]; intros earlier; simpl; [lia|].
      rewrite length_app. specialize (IH (earlier ++ [s])).
      destruct (keptStatic dyn earlier s); simpl; lia. }
    specialize (Hlen s1 []). lia.
  - intros m. rewrite deduplicateModels_keptStatics, elem_of_app. intros [H|H]; [auto|].
    right. revert H. generalize (@nil CatalogMetadata). clear Happ Hidem Hkept.
    induction s1 as [|s t IH]; intros earlier; simpl.
    + by intros ?%elem_of_nil.
    + rewrite elem_of_app, elem_of_cons. intros [H|H].
      * destruct (keptStatic dyn earlier s); simpl in H.
        -- apply list_elem_of_singleton in H. auto.
        -- by apply elem_of_nil in H.
      * right. by eapply IH.
Qed.

End CatalogMore.

Module GoLibProps.
Import GoStrings GoLib.

(** *** [strings.TrimSpace] *)

Lemma trimRight_idem s : trimRight (trimRight s) = trimRight s.
Proof.
  induction s as [|c rest IH]; simpl; [done|].
  destruct (trimRight rest) as [|c' kept] eqn:Hr.
  - destruct (isSpace c) eqn:Hc; simpl; [done|]. by rewrite Hc.
  - cbn [trimRight]. cbn [trimRight] in IH. by rewrite IH.
Qed.

Lemma headOK_trimLeft s : headOK (trimLeft s).
Proof.
  induction s as [|c rest IH]; simpl; [done|].
  destruct (isSpace c) eqn:Hc; [done|]. simpl. done.
Qed.

Lemma headOK_trimRight s : headOK s -> headOK (trimRight s).
Proof.
  destruct s as [|c rest]; simpl; [done|]. intros Hc.
  destruct (trimRight rest); [by rewrite Hc|done].
Qed.

Lemma trimLeft_headOK s : headOK s -> trimLeft s = s.
Proof. destruct s as [|c rest]; simpl; [done|]. by intros ->. Qed.

Lemma TrimSpace_idem s : TrimSpace (TrimSpace s) = TrimSpace s.
Proof.
  unfold TrimSpace.
  rewrite (trimLeft_headOK (trimRight (trimLeft s)))
    by apply headOK_trimRight, headOK_trimLeft.
  apply trimRight_idem.
Qed.

Lemma hasChar_trimLeft c s : hasChar c s = false -> hasChar c (trimLeft s) = false.
Proof.
  induction s as [|c' rest IH]; simpl; [done|].
  intros [H1 H2]%orb_false_iff. destruct (isSpace c'); [auto|].
  simpl. by rewrite H1, H2.
Qed.

Lemma hasChar_trimRight c s : hasChar c s = false -> hasChar c (trimRight s) = false.
Proof.
  induction s as [|c' rest IH]; simpl; [done|].
  intros [H1 H2]%orb_false_iff. specialize (IH H2).
  destruct (trimRight rest) as [|c'' kept].
  - destruct (isSpace c'); simpl; [done|]. by rewrite H1.
  - cbn [hasChar]. cbn [hasChar] in IH. by rewrite H1, IH.
Qed.

Lemma hasChar_TrimSpace c s : hasChar c s = false -> hasChar c (TrimSpace s) = false.
Proof. intros H. by apply hasChar_trimRight, hasChar_trimLeft. Qed.

(** *** [strings.Split] *)

Lemma Split_no_sep s sep : Forall (fun x => hasChar sep x = false) (Split s sep).
Proof.
  induction s as [|c rest IH]; simpl; [by repeat constructor|].
  destruct (Ascii.eqb c sep) eqn:Hc; [by constructor|].
  destruct (Split rest sep) as [|x xs]; [by repeat constructor; simpl; rewrite Hc|].
  inversion IH as [|? ? Hx Hxs]; subst. constructor; [|done].
  simpl. by rewrite Hc, Hx.
Qed.

(** *** [strconv.FormatInt] *)

Lemma FormatInt_inj i j : FormatInt i = FormatInt j -> i = j.
Proof.
  unfold FormatInt. intros H.
  assert (Hnil : forall z, Z.to_int z <> Pos Nil /\ Z.to_int z <> Neg Nil).
  { intros z. destruct z as [|p|p]; unfold Z.to_int; split; try discriminate;
      intros [= Hp]; by apply Unsigned.to_uint_nonnil in Hp. }
  assert (Hint : Z.to_int i = Z.to_int j).
  { destruct (Hnil i) as [Hi1 Hi2]. destruct (Hnil j) as [Hj1 Hj2].
    pose proof (NilZero.isi (Z.to_int i) Hi1 Hi2) as Hi.
    pose proof (NilZero.isi (Z.to_int j) Hj1 Hj2) as Hj.
    rewrite H in Hi. rewrite Hi in Hj. by injection Hj. }
  rewrite <- (DecimalZ.of_to i), <- (DecimalZ.of_to j). by rewrite Hint.
Qed.

(** *** [sort.Strings] *)

Lemma sort_Strings_Permutation (x : list string) : sort_Strings x ≡ₚ x.
Proof. apply merge_sort_Permutation. Qed.

Lemma StronglySorted_last (l : list string) x :
  StronglySorted String.le l -> last l = Some x -> forall y, y ∈ l -> String.le y x.
Proof.
  induction 1 as [|a l Hs IH Hall]; [done|].
  intros Hlast y Hy. destruct l as [|b l].
  - simpl in Hlast. injection Hlast as <-. apply list_elem_of_singleton in Hy as ->. done.
  - change (last (a :: b :: l)) with (last (b :: l)) in Hlast.
    apply elem_of_cons in Hy as [->|Hy]; [|by apply IH].
    rewrite Forall_forall in Hall. apply Hall.
    apply last_Some in Hlast as [l' ->]. set_solver.
Qed.

Lemma sort_Strings_last (files : list string) :
  files <> [] ->
  exists latest, last (sort_Strings files) = Some latest
                 /\ latest ∈ files
                 /\ forall f, f ∈ files -> String.le f latest.
Proof.
  intros Hne.
  destruct (last (sort_Strings files)) as [latest|] eqn:Hlast.
  - exists latest. split; [done|].
    assert (Hin : latest ∈ sort_Strings files).
    { apply last_Some in Hlast as [l' ->]. set_solver. }
    split; [by rewrite sort_Strings_Permutation in Hin|].
    intros f Hf. eapply StronglySorted_last; [| exact Hlast |].
    + apply StronglySorted_merge_sort; apply _.
    + by rewrite sort_Strings_Permutation.
  - apply last_None in Hlast.
    pose proof (sort_Strings_Permutation files) as Hp. rewrite Hlast in Hp.
    by apply Permutation_nil_l in Hp.
Qed.

End GoLibProps.

Module CatalogIOProps.
Import GoStrings GoLib CatalogIO GoLibProps.

(** *** [validateStaticCatalog] *)

Lemma validateArtifacts_None name artifacts : forall j,
  validateArtifacts name artifacts j = None
  <-> Forall (fun artifact => URI artifact <> "") artifacts.
Proof.
  induction artifacts as [|a rest IH]; intros j; simpl; [by split|].
  rewrite Forall_cons. destruct (String.eqb_spec (URI a) ""); [naive_solver|].
  rewrite IH. naive_solver.
Qed.

Lemma validateArtifacts_Some name artifacts err : forall j,
  validateArtifacts name artifacts j = Some err ->
  exists k artifact,
    err = ErrMissingURI name (j + k)
    /\ artifacts !! k = Some artifact
    /\ URI artifact = ""
    /\ Forall (fun artifact => URI artifact <> "") (take k artifacts).
Proof.
  induction artifacts as [|a rest IH]; intros j; simpl; [done|].
  destruct (String.eqb_spec (URI a) "") as [Ha|Ha].
  - intros [= <-]. exists 0%nat, a. rewrite Nat.add_0_r. by split_and!.
  - intros (k & a' & -> & Hk & Ha' & Hall)%IH.
    exists (S k), a'. split_and!; [f_equal; lia | done | done |].
    simpl. by constructor.
Qed.

Lemma validateModel_valid model name :
  Name model = Some name -> name <> "" ->
  length (Artifacts model) <> 0%nat ->
  validateArtifacts name (Artifacts model) 0 = None ->
  validModel model.
Proof.
  intros Hn Hne Hlen Ha. split_and!; [eauto | by destruct (Artifacts model) |].
  by eapply validateArtifacts_None.
Qed.

Lemma validateModels_None models : forall i,
  validateModels models i = None <-> Forall validModel models.
Proof.
  induction models as [|m rest IH]; intros i; simpl; [by split|].
  rewrite Forall_cons. unfold validModel at 1.
  destruct (Name m) as [name|]; [|naive_solver].
  destruct (String.eqb_spec name "") as [Hn|Hn]; [naive_solver|].
  destruct (Nat.eqb_spec (length (Artifacts m)) 0) as [Hl|Hl].
  { split; [done|]. intros [(_ & Hne & _) _]. by destruct (Artifacts m). }
  destruct (validateArtifacts name (Artifacts m) 0) as [err|] eqn:Ha.
  - split; [done|]. intros [(_ & _ & Hall) _].
    apply (validateArtifacts_None name _ 0%nat) in Hall. by rewrite Ha in Hall.
  - rewrite IH. apply (validateArtifacts_None name _ 0%nat) in Ha.
    split; [|naive_solver]. intros Hrest. split; [|done].
    split_and!; [eauto | by destruct (Artifacts m) | done].
Qed.

Lemma validateModels_Some models err : forall i,
  validateModels models i = Some err ->
  exists k model,
    models !! k = Some model
    /\ Forall validModel (take k models)
    /\ (err = ErrMissingName (i + k)
           /\ (Name model = None \/ Name model = Some "")
        \/ exists name,
             Name model = Some name /\ name <> ""
             /\ (err = ErrNoArtifacts name /\ Artifacts model = []
                 \/ exists j artifact,
                      err = ErrMissingURI name j
                      /\ Artifacts model !! j = Some artifact
                      /\ URI artifact = ""
                      /\ Forall (fun artifact => URI artifact <> "")
                                (take j (Artifacts model)))).
Proof.
  induction models as [|m rest IH]; intros i; simpl; [done|].
  destruct (Name m) as [name|] eqn:Hname.
  2:{ intros [= <-]. exists 0%nat, m. rewrite Nat.add_0_r.
      split_and!; [done | by constructor |]. left. auto. }
  destruct (String.eqb_spec name "") as [Hn|Hn].
  { intros [= <-]. exists 0%nat, m. rewrite Nat.add_0_r.
    split_and!; [done | by constructor |]. left. subst. auto. }
  destruct (Nat.eqb_spec (length (Artifacts m)) 0) as [Hl|Hl].
  { intros [= <-]. exists 0%nat, m.
    split_and!; [done | by constructor |]. right. exists name.
    split_and!; [done..|]. left. split; [done|]. by destruct (Artifacts m). }
  destruct (validateArtifacts name (Artifacts m) 0) as [err'|] eqn:Ha.
  { intros [= <-]. exists 0%nat, m.
    split_and!; [done | by constructor |]. right. exists name.
    split_and!; [done..|]. right.
    apply validateArtifacts_Some in Ha as (k & a & -> & Hk & Hu & Hall).
    exists k, a. by split_and!. }
  intros (k & model & Hk & Hall & Herr)%IH.
  exists (S k), model. split_and!; [done | |].
  - simpl. constructor; [|done]. by eapply validateModel_valid.
  - replace (i + S k)%nat with (S i + k)%nat by lia. exact Herr.
Qed.

Lemma validateStaticCatalog_None (catalog : ModelsCatalog) :
  validateStaticCatalog catalog = None
  <-> Source catalog <> "" /\ Forall validModel (Models catalog).
Proof.
  unfold validateStaticCatalog.
  destruct (String.eqb_spec (Source catalog) "") as [Hs|Hs]; [naive_solver|].
  rewrite validateModels_None. naive_solver.
Qed.

(** X15.  [validateStaticCatalog] accepts a catalog exactly when its source
    is not empty and every model has a name that is not empty, an artifact
    at least, and a URI for every artifact.  A catalog without models is
    accepted when it has a source. *)
Theorem validateStaticCatalog_accepts (catalog : ModelsCatalog) :
  (validateStaticCatalog catalog = None
   <-> Source catalog <> "" /\ Forall validModel (Models catalog))
  /\ (validateStaticCatalog catalog = Some ErrMissingSource <-> Source catalog = "")
  /\ (Source catalog <> "" -> Models catalog = [] -> validateStaticCatalog catalog = None).
Proof.
  split; [apply validateStaticCatalog_None|]. split.
  - unfold validateStaticCatalog.
    destruct (String.eqb_spec (Source catalog) "") as [Hs|Hs]; [done|].
    split; [|done]. intros Herr.
    apply validateModels_Some in Herr as (k & model & _ & _ & [[? _]|(n & _ & _ & H)]);
      [done|]. destruct H as [[? _]|(j & a & ? & _)]; done.
  - intros Hs Hm. apply validateStaticCatalog_None. rewrite Hm. by split.
Qed.

(** X16.  The error of [validateStaticCatalog] is that of the first model
    that is not valid: the models before it are valid, and the error tells
    its defect.  A missing name is reported with the index of the model; a
    model without artifacts, and the first artifact without URI with its
    index, under the name of the model. *)
Theorem validateStaticCatalog_first_error (catalog : ModelsCatalog) err :
  Source catalog <> "" ->
  validateStaticCatalog catalog = Some err ->
  exists k model,
    Models catalog !! k = Some model
    /\ Forall validModel (take k (Models catalog))
    /\ ~ validModel model
    /\ (err = ErrMissingName k /\ (Name model = None \/ Name model = Some "")
        \/ exists name,
             Name model = Some name /\ name <> ""
             /\ (err = ErrNoArtifacts name /\ Artifacts model = []
                 \/ exists j artifact,
                      err = ErrMissingURI name j
                      /\ Artifacts model !! j = Some artifact
                      /\ URI artifact = ""
                      /\ Forall (fun artifact => URI artifact <> "")
                                (take j (Artifacts model)))).
Proof.
  unfold validateStaticCatalog. intros Hs.
  destruct (String.eqb_spec (Source catalog) "") as [|_]; [done|].
  intros (k & model & Hk & Hall & Herr)%validateModels_Some.
  exists k, model. split_and!; [done | done | | exact Herr].
  intros ((name & Hname & Hne) & Harts & Huris).
  destruct Herr as [[_ [Hn|Hn]]|(n & Hn & _ & [[_ Ha]|(j & a & _ & Hj & Hu & _)])];
    [congruence | congruence | done |].
  rewrite Forall_forall in Huris. apply (Huris a); [|done].
  by eapply list_elem_of_lookup_2.
Qed.

Lemma validateStaticCatalog_first_error_witness :
  exists k model,
    Models CatalogDemo.badCatalog !! k = Some model
    /\ Forall validModel (take k (Models CatalogDemo.badCatalog))
    /\ ~ validModel model
    /\ (ErrMissingURI "llama" 1 = ErrMissingName k
           /\ (Name model = None \/ Name model = Some "")
        \/ exists name,
             Name model = Some name /\ name <> ""
             /\ (ErrMissingURI "llama" 1 = ErrNoArtifacts name /\ Artifacts model = []
                 \/ exists j artifact,
                      ErrMissingURI "llama" 1 = ErrMissingURI name j
                      /\ Artifacts model !! j = Some artifact
                      /\ URI artifact = ""
                      /\ Forall (fun artifact => URI artifact <> "")
                                (take j (Artifacts model)))).
Proof.
  apply (validateStaticCatalog_first_error CatalogDemo.badCatalog (ErrMissingURI "llama" 1)).
  - simpl. discriminate.
  - vm_compute. reflexivity.
Defined.

(** *** [LoadStaticCatalogs] *)

Lemma Stat_ReadFile path w : Stat path w = false -> Extractor.ReadFile path w = None.
Proof.
  unfold Stat, Extractor.ReadFile. intros [H _]%orb_false_iff.
  apply bool_decide_eq_false in H. destruct (Extractor.files w !! path); [|done].
  destruct H. eauto.
Qed.

Lemma loadFrom_catalogOf C filePaths w : forall allStaticModels,
  loadFrom C filePaths w allStaticModels
  = allStaticModels ++ mjoin ((fun filePath => catalogOf C filePath w) <$> filePaths).
Proof.
  induction filePaths as [|p rest IH]; intros acc; simpl; [by rewrite app_nil_r|].
  unfold catalogOf at 1.
  destruct (Stat p w) eqn:Hstat; simpl.
  - destruct (Extractor.ReadFile p w) as [data|]; [|by rewrite IH].
    destruct (yaml_UnmarshalCatalog C data) as [cat|]; [|by rewrite IH].
    destruct (validateStaticCatalog cat); rewrite IH; [done|]. by rewrite app_assoc.
  - rewrite (Stat_ReadFile p w Hstat). by rewrite IH.
Qed.

Lemma LoadStaticCatalogs_concat C filePaths w :
  LoadStaticCatalogs C filePaths w
  = mjoin ((fun filePath => catalogOf C filePath w) <$> filePaths).
Proof. unfold LoadStaticCatalogs. by rewrite loadFrom_catalogOf. Qed.

(** X17.  The static models are those of the listed files that exist, decode
    and are valid, file by file in the order of the list.  A file that can
    be read, decodes and is valid contributes all the models of its catalog,
    in their order, between those of the files before it and those of the
    files after it; loading two lists one after the other gives the models
    of the first followed by those of the second, and no file gives no
    model.  Every model loaded is valid.  A file that is missing or cannot
    be read, that does not decode, or whose catalog is not valid contributes
    nothing, not even its valid models: the result is that of the list
    without it. *)
Theorem LoadStaticCatalogs_valid_files C (paths1 paths2 : list string) w :
  LoadStaticCatalogs C (paths1 ++ paths2) w
  = LoadStaticCatalogs C paths1 w ++ LoadStaticCatalogs C paths2 w
  /\ Forall validModel (LoadStaticCatalogs C paths1 w)
  /\ (forall model,
        model ∈ LoadStaticCatalogs C paths1 w ->
        exists filePath data staticCatalog,
          filePath ∈ paths1
          /\ Extractor.ReadFile filePath w = Some data
          /\ yaml_UnmarshalCatalog C data = Some staticCatalog
          /\ validateStaticCatalog staticCatalog = None
          /\ model ∈ Models staticCatalog)
  /\ (forall filePath,
        Extractor.ReadFile filePath w = None
        \/ (exists data,
              Extractor.ReadFile filePath w = Some data
              /\ (yaml_UnmarshalCatalog C data = None
                  \/ exists staticCatalog err,
                       yaml_UnmarshalCatalog C data = Some staticCatalog
                       /\ validateStaticCatalog staticCatalog = Some err)) ->
        LoadStaticCatalogs C (paths1 ++ filePath :: paths2) w
        = LoadStaticCatalogs C (paths1 ++ paths2) w)
  /\ (forall filePath data staticCatalog,
        Extractor.ReadFile filePath w = Some data ->
        yaml_UnmarshalCatalog C data = Some staticCatalog ->
        validateStaticCatalog staticCatalog = None ->
        LoadStaticCatalogs C (paths1 ++ filePath :: paths2) w
        = LoadStaticCatalogs C paths1 w ++ Models staticCatalog
          ++ LoadStaticCatalogs C paths2 w)
  /\ LoadStaticCatalogs C [] w = [].
Proof.
  assert (Hmem : forall paths model,
             model ∈ LoadStaticCatalogs C paths w ->
             exists filePath data staticCatalog,
               filePath ∈ paths
               /\ Extractor.ReadFile filePath w = Some data
               /\ yaml_UnmarshalCatalog C data = Some staticCatalog
               /\ validateStaticCatalog staticCatalog = None
               /\ model ∈ Models staticCatalog).
  { intros paths model. rewrite LoadStaticCatalogs_concat.
    intros (l & Hm & Hl)%list_elem_of_join.
    apply list_elem_of_fmap in Hl as (p & -> & Hp).
    unfold catalogOf in Hm.
    destruct (Extractor.ReadFile p w) as [data|] eqn:Hr; [|by apply elem_of_nil in Hm].
    destruct (yaml_UnmarshalCatalog C data) as [cat|] eqn:Hu;
      [|by apply elem_of_nil in Hm].
    destruct (validateStaticCatalog cat) eqn:Hv; [by apply elem_of_nil in Hm|].
    exists p, data, cat. by split_and!. }
  split_and!.
  - rewrite !LoadStaticCatalogs_concat. by rewrite fmap_app, join_app.
  - apply Forall_forall. intros model (p & data & cat & _ & _ & _ & Hv & Hm)%Hmem.
    apply validateStaticCatalog_None in Hv as [_ Hall].
    rewrite Forall_forall in Hall. by apply Hall.
  - apply Hmem.
  - intros p Hp. rewrite !LoadStaticCatalogs_concat, !fmap_app, !join_app.
    f_equal. simpl.
    assert (catalogOf C p w = []) as ->; [|done].
    unfold catalogOf.
    destruct Hp as [->|(data & -> & [->|(cat & err & -> & ->)])]; done.
  - intros p data cat Hr Hu Hv.
    rewrite !LoadStaticCatalogs_concat, !fmap_app, !join_app. f_equal. simpl.
    f_equal. unfold catalogOf. by rewrite Hr, Hu, Hv.
  - done.
Qed.

Example LoadStaticCatalogs_demo :
  LoadStaticCatalogs CatalogDemo.catalogEnv
    ["missing.yaml"; "good.yaml"; "input"; "bad.yaml"; "junk.yaml"; "good.yaml"]
    CatalogDemo.catalogWorld
  = Models CatalogDemo.goodCatalog ++ Models CatalogDemo.goodCatalog.
Proof. vm_compute. reflexivity. Qed.

(** *** The conversion *)

Lemma addTagProperties_lookup tags : forall customProps k,
  addTagProperties tags customProps !! k
  = if bool_decide (k ∈ tags /\ k <> "")
    then Some (mkMetadataValue "MetadataStringValue" "")
    else customProps !! k.
Proof.
  induction tags as [|tag rest IH]; intros m k; cbn [addTagProperties].
  - rewrite bool_decide_eq_false_2; [done|]. rewrite elem_of_nil. tauto.
  - destruct (String.eqb_spec tag "") as [Ht|Ht]; cbn [negb]; rewrite IH.
    + rewrite (bool_decide_ext (k ∈ tag :: rest /\ k <> "") (k ∈ rest /\ k <> ""));
        [done|]. rewrite elem_of_cons. naive_solver.
    + destruct (decide (k = tag)) as [->|Hne].
      * rewrite (bool_decide_eq_true_2 (tag ∈ tag :: rest /\ tag <> ""))
          by (rewrite elem_of_cons; auto).
        case_bool_decide; [done|]. by rewrite lookup_insert_eq.
      * rewrite lookup_insert_ne by done.
        rewrite (bool_decide_ext (k ∈ tag :: rest /\ k <> "") (k ∈ rest /\ k <> ""));
          [done|]. rewrite elem_of_cons. naive_solver.
Qed.

Lemma addTagProperties_size tags : forall customProps,
  (size (addTagProperties tags customProps) <= size customProps + length tags)%nat.
Proof.
  induction tags as [|tag rest IH]; intros m; cbn [addTagProperties length]; [lia|].
  destruct (String.eqb tag ""); cbn [negb].
  - specialize (IH m). lia.
  - specialize (IH (<[tag := mkMetadataValue "MetadataStringValue" ""]> m)).
    rewrite map_size_insert in IH. destruct (m !! tag); unfold id in IH; lia.
Qed.

(** X18.  The custom properties of a model have one entry for each tag that
    is not empty, whatever the number of times and the place it occurs in the
    list, and no other entry; each of them is the string marker with the
    empty value.  So two lists with the same tags give the same custom
    properties, and there are no more entries than tags. *)
Theorem convertTagsToCustomProperties_entries (tags : list string) :
  (forall k v,
      convertTagsToCustomProperties tags !! k = Some v
      <-> k ∈ tags /\ k <> "" /\ v = mkMetadataValue "MetadataStringValue" "")
  /\ (forall tags' : list string,
        (forall k, k ∈ tags <-> k ∈ tags') ->
        convertTagsToCustomProperties tags' = convertTagsToCustomProperties tags)
  /\ (size (convertTagsToCustomProperties tags) <= length tags)%nat.
Proof.
  assert (Hlook : forall (l : list string) k v,
             convertTagsToCustomProperties l !! k = Some v
             <-> k ∈ l /\ k <> "" /\ v = mkMetadataValue "MetadataStringValue" "").
  { intros l k v. unfold convertTagsToCustomProperties.
    rewrite addTagProperties_lookup, lookup_empty.
    case_bool_decide; naive_solver. }
  split_and!; [apply Hlook | |].
  - intros tags' Hsame. apply map_eq. intros k. apply option_eq. intros v.
    rewrite !Hlook, Hsame. done.
  - unfold convertTagsToCustomProperties.
    pose proof (addTagProperties_size tags ∅) as Hs. rewrite map_size_empty in Hs. lia.
Qed.

(** *** The logo *)

Lemma validatedPath_existsb tags : forall svgPath,
  validatedPath tags svgPath
  = if existsb isValidatedTag tags then "assets/catalog-validated_model.svg"
    else svgPath.
Proof.
  induction tags as [|raw rest IH]; intros svgPath; simpl; [done|].
  unfold isValidatedTag at 1.
  destruct (String.eqb (TrimSpace (ToLower raw)) "validated"); simpl; [done|].
  apply IH.
Qed.

Lemma encodeSVGToDataURI_logoOf C svgPath :
  encodeSVGToDataURI C svgPath = Some (logoOf C svgPath).
Proof.
  unfold encodeSVGToDataURI, logoOf, getFallbackLogo.
  by destruct (assetsFS C !! svgPath).
Qed.

Lemma HasPrefix_app (pfx s : string) : HasPrefix (pfx +:+ s) pfx = true.
Proof.
  unfold HasPrefix. induction pfx as [|c pfx IH]; simpl.
  - by destruct s.
  - by destruct (Ascii.ascii_dec c c).
Qed.

Lemma existsb_elem_of (f : string -> bool) (l : list string) :
  existsb f l = true <-> exists x, x ∈ l /\ f x = true.
Proof.
  rewrite existsb_exists. split; intros (x & Hx & Hf); exists x; split; try done;
    by apply list_elem_of_In.
Qed.

(** X19.  The logo of a model is the validated one exactly when one of its
    tags reads [validated] once lowercased and trimmed, wherever it stands in
    the list; every other model gets the standard logo.  The logo is never
    nil and always a base64 data URI of an SVG image: when the embedded asset
    cannot be read it is the fallback logo.  A model whose entry carries the
    label [validated] has the validated logo once its labels are merged into
    its tags. *)
Theorem determineLogo_validated C (tags : list string) :
  determineLogo C tags
  = Some (logoOf C (if existsb isValidatedTag tags
                    then "assets/catalog-validated_model.svg"
                    else "assets/catalog-model.svg"))
  /\ (exists uri, determineLogo C tags = Some uri
                  /\ HasPrefix uri "data:image/svg+xml;base64," = true)
  /\ (forall tags' : list string,
        (forall x, x ∈ tags <-> x ∈ tags') ->
        determineLogo C tags' = determineLogo C tags)
  /\ (forall labels : list string,
        "validated" ∈ labels ->
        determineLogo C (Extractor.addLabels labels tags false).1
        = Some (logoOf C "assets/catalog-validated_model.svg")).
Proof.
  assert (Hlogo : forall l : list string,
             determineLogo C l
             = Some (logoOf C (if existsb isValidatedTag l
                               then "assets/catalog-validated_model.svg"
                               else "assets/catalog-model.svg"))).
  { intros l. unfold determineLogo. rewrite validatedPath_existsb.
    rewrite encodeSVGToDataURI_logoOf. by destruct (existsb isValidatedTag l). }
  split_and!; [apply Hlogo | | |].
  - rewrite Hlogo. eexists. split; [done|]. apply HasPrefix_app.
  - intros tags' Hsame. rewrite !Hlogo.
    assert (existsb isValidatedTag tags' = existsb isValidatedTag tags) as ->; [|done].
    apply eq_true_iff_eq. rewrite !existsb_elem_of.
    split; intros (x & Hx & Hf); exists x; split; try done; by apply Hsame.
  - intros labels Hin. rewrite Hlogo.
    assert (existsb isValidatedTag (Extractor.addLabels labels tags false).1 = true)
      as ->; [|done].
    apply existsb_elem_of. exists "validated". split; [|by vm_compute].
    by destruct (LabelProps.addLabels_covers labels tags false "validated" Hin).
Qed.


Example determineLogo_spellings :
  isValidatedTag " Validated " = true /\ isValidatedTag "VALIDATED" = true
  /\ isValidatedTag "validated-model" = false /\ isValidatedTag "" = false.
Proof. vm_compute. done. Qed.

(** *** The timestamps *)

(** X20.  The text of a timestamp determines it: two timestamps with the
    same text are the same, and a timestamp is written when there is one and
    only then. *)
Theorem convertTimestampToString_inj (t1 t2 : option Z) :
  (convertTimestampToString t1 = convertTimestampToString t2 -> t1 = t2)
  /\ (convertTimestampToString t1 = None <-> t1 = None)
  /\ convertTimestampToString (Some 1705312800000) = Some "1705312800000".
Proof.
  split_and!.
  - destruct t1 as [i|], t2 as [j|]; simpl; try done.
    intros [= H]. f_equal. by apply FormatInt_inj.
  - by destruct t1.
  - by vm_compute.
Qed.

(** X21.  In the catalog a model carries its own timestamps; where it has
    none, those of its first artifact, and none when that has none either:
    the artifacts after the first are not looked at.  The artifacts are
    converted one by one, in order, each with its URI and its own timestamps,
    and the name of the model is kept. *)
Theorem convertExtractedToCatalogMetadata_timestamps C (model : Extractor.ExtractedMetadata) :
  let r := convertExtractedToCatalogMetadata C model in
  CreateTimeSinceEpoch r
  = FormatInt <$> match Extractor.CreateTimeSinceEpoch model with
                   | Some t => Some t
                   | None => head (Extractor.Artifacts model)
                             ≫= Extractor.ArtifactCreateTimeSinceEpoch
                   end
  /\ LastUpdateTimeSinceEpoch r
     = FormatInt <$> match Extractor.LastUpdateTimeSinceEpoch model with
                      | Some t => Some t
                      | None => head (Extractor.Artifacts model)
                                ≫= Extractor.ArtifactLastUpdateTimeSinceEpoch
                      end
  /\ Artifacts r
     = (fun artifact =>
          mkCatalogOCIArtifact
            (Extractor.ArtifactURI artifact)
            (FormatInt <$> Extractor.ArtifactCreateTimeSinceEpoch artifact)
            (FormatInt <$> Extractor.ArtifactLastUpdateTimeSinceEpoch artifact))
       <$> Extractor.Artifacts model
  /\ Name r = Extractor.Name model
  /\ (forall createTime updateTime artifacts,
        let skeleton :=
          Extractor.setArtifacts Extractor.zeroExtractedMetadata
            (Extractor.fillTimestamps createTime updateTime artifacts) in
        CreateTimeSinceEpoch (convertExtractedToCatalogMetadata C skeleton)
        = FormatInt <$> (head artifacts
                         ≫= fun first =>
                              match Extractor.ArtifactCreateTimeSinceEpoch first with
                              | Some t => Some t
                              | None => createTime
                              end)).
Proof.
  intros r. subst r. unfold convertExtractedToCatalogMetadata.
  cbn [CreateTimeSinceEpoch LastUpdateTimeSinceEpoch Artifacts Name CustomProperties Logo].
  split_and!; [| | | done |].
  2:{ destruct (Extractor.LastUpdateTimeSinceEpoch model) as [t|]; simpl; [done|].
      destruct (Extractor.Artifacts model) as [|first rest]; simpl; [done|].
      by destruct (Extractor.ArtifactLastUpdateTimeSinceEpoch first). }
  3:{ intros createTime updateTime [|first rest]; simpl; [done|].
      destruct (Extractor.ArtifactCreateTimeSinceEpoch first); [done|].
      by destruct createTime. }
  - destruct (Extractor.CreateTimeSinceEpoch model) as [t|]; simpl; [done|].
    destruct (Extractor.Artifacts model) as [|first rest]; simpl; [done|].
    by destruct (Extractor.ArtifactCreateTimeSinceEpoch first).
  - apply list_fmap_ext. intros i a _.
    by destruct (Extractor.ArtifactCreateTimeSinceEpoch a),
                (Extractor.ArtifactLastUpdateTimeSinceEpoch a).
Qed.

End CatalogIOProps.

Module MainProps.
Import GoStrings Filepath GoLib Extractor Main GoLibProps.

(** *** [getStaticCatalogPaths] *)

Lemma appendCustomPaths_filter pieces : forall paths,
  appendCustomPaths pieces paths
  = paths ++ List.filter (fun path => negb (String.eqb path "")) (TrimSpace <$> pieces).
Proof.
  induction pieces as [|piece rest IH]; intros paths; simpl; [by rewrite app_nil_r|].
  destruct (String.eqb (TrimSpace piece) ""); simpl; rewrite IH; [done|].
  by rewrite <- app_assoc.
Qed.

(** X11.  The static catalog paths are the pieces of the flag between the
    commas, trimmed, without the empty ones, in their order, followed by the
    default catalog when it is not skipped and exists.  No path on the list
    is empty; a path of the flag has no white space around it and no comma.
    The list is empty exactly when the flag names no path and the default
    catalog is skipped or missing. *)
Theorem getStaticCatalogPaths_paths staticCatalogFiles skipDefaultStaticCatalog w :
  let paths := getStaticCatalogPaths staticCatalogFiles skipDefaultStaticCatalog w in
  paths
  = customPaths staticCatalogFiles
    ++ (if negb skipDefaultStaticCatalog && Stat "input/supplemental-catalog.yaml" w
        then ["input/supplemental-catalog.yaml"] else [])
  /\ Forall (fun path => path <> "" /\ TrimSpace path = path /\ hasChar "," path = false)
            (customPaths staticCatalogFiles)
  /\ Forall (fun path => path <> "") paths
  /\ (paths = [] <->
      customPaths staticCatalogFiles = []
      /\ (skipDefaultStaticCatalog = true
          \/ Stat "input/supplemental-catalog.yaml" w = false)).
Proof.
  intros paths.
  assert (Heq : paths
                = customPaths staticCatalogFiles
                  ++ (if negb skipDefaultStaticCatalog
                         && Stat "input/supplemental-catalog.yaml" w
                      then ["input/supplemental-catalog.yaml"] else [])).
  { unfold paths, getStaticCatalogPaths, customPaths.
    assert (Hcustom : (if negb (String.eqb staticCatalogFiles "")
                       then appendCustomPaths (Split staticCatalogFiles ",") []
                       else [])
                      = List.filter (fun path => negb (String.eqb path ""))
                                    (TrimSpace <$> Split staticCatalogFiles ",")).
    { destruct (String.eqb_spec staticCatalogFiles "") as [->|_]; simpl; [done|].
      by rewrite appendCustomPaths_filter. }
    rewrite Hcustom.
    destruct skipDefaultStaticCatalog; simpl; [by rewrite app_nil_r|].
    destruct (Stat "input/supplemental-catalog.yaml" w); [done|by rewrite app_nil_r]. }
  assert (Hcustom : Forall (fun path => path <> "" /\ TrimSpace path = path
                                        /\ hasChar "," path = false)
                           (customPaths staticCatalogFiles)).
  { unfold customPaths. apply Forall_forall. intros path Hin.
    apply list_elem_of_In, filter_In in Hin as [Hin Hne].
    apply list_elem_of_In, list_elem_of_fmap in Hin as (piece & -> & Hpiece).
    split_and!.
    - by destruct (String.eqb_spec (TrimSpace piece) "").
    - apply TrimSpace_idem.
    - apply hasChar_TrimSpace.
      pose proof (Split_no_sep staticCatalogFiles ",") as Hall.
      rewrite Forall_forall in Hall. by apply Hall. }
  split_and!; [exact Heq | exact Hcustom | |].
  - rewrite Heq. apply Forall_app. split.
    + eapply Forall_impl; [exact Hcustom|]. by intros path (? & _).
    + destruct (negb skipDefaultStaticCatalog && _); by repeat constructor.
  - rewrite Heq. destruct skipDefaultStaticCatalog; simpl.
    + rewrite app_nil_r. naive_solver.
    + destruct (Stat "input/supplemental-catalog.yaml" w).
      * split; [by intros [? ?]%app_eq_nil | naive_solver].
      * rewrite app_nil_r. naive_solver.
Qed.

Example getStaticCatalogPaths_flag :
  getStaticCatalogPaths " a.yaml , ,b.yaml," false CatalogDemo.catalogWorld
  = ["a.yaml"; "b.yaml"]
  /\ getStaticCatalogPaths "" true CatalogDemo.catalogWorld = []
  /\ getStaticCatalogPaths "input" false
       (mkWorld {["input/supplemental-catalog.yaml" := []]} ∅ [])
     = ["input"; "input/supplemental-catalog.yaml"].
Proof. vm_compute. done. Qed.

(** *** [getLatestVersionIndexFile] *)

(** X12.  With version index files present the latest one is returned: one
    of the files found, not before any of them in the order of their names,
    byte by byte, and the same one in whatever order the files are found.
    Without any file the function fails. *)
Theorem getLatestVersionIndexFile_latest M w (files : list string) :
  Glob M "data/hugging-face-redhat-ai-validated-v*.yaml" w = Some files ->
  (files = [] -> getLatestVersionIndexFile M w = inl ErrNoVersionIndex)
  /\ (files <> [] ->
      exists latest,
        getLatestVersionIndexFile M w = inr latest
        /\ latest ∈ files
        /\ forall file, file ∈ files -> String.le file latest)
  /\ (forall M' w' files',
        Glob M' "data/hugging-face-redhat-ai-validated-v*.yaml" w' = Some files' ->
        files' ≡ₚ files ->
        getLatestVersionIndexFile M' w' = getLatestVersionIndexFile M w).
Proof.
  intros Hglob.
  assert (Hlatest : forall M0 w0 (l : list string),
             Glob M0 "data/hugging-face-redhat-ai-validated-v*.yaml" w0 = Some l ->
             l <> [] ->
             exists latest,
               getLatestVersionIndexFile M0 w0 = inr latest
               /\ latest ∈ l
               /\ forall file, file ∈ l -> String.le file latest).
  { intros M0 w0 l Hg Hne. unfold getLatestVersionIndexFile. rewrite Hg.
    destruct (sort_Strings_last l Hne) as (latest & Hlast & Hin & Hmax).
    exists latest. rewrite Hlast. by destruct l. }
  assert (Hnone : forall M0 w0,
             Glob M0 "data/hugging-face-redhat-ai-validated-v*.yaml" w0 = Some [] ->
             getLatestVersionIndexFile M0 w0 = inl ErrNoVersionIndex).
  { intros M0 w0 Hg. unfold getLatestVersionIndexFile. by rewrite Hg. }
  split_and!.
  - intros ->. by apply Hnone.
  - by apply Hlatest.
  - intros M' w' files' Hglob' Hperm.
    destruct files as [|f files].
    + apply Permutation_nil_r in Hperm as ->. by rewrite !Hnone.
    + assert (Hne' : files' <> []).
      { intros ->. by apply Permutation_nil_l in Hperm. }
      destruct (Hlatest M w (f :: files) Hglob) as (l1 & -> & Hin1 & Hmax1); [done|].
      destruct (Hlatest M' w' files' Hglob' Hne') as (l2 & -> & Hin2 & Hmax2).
      f_equal. apply (anti_symm String.le).
      * apply Hmax1. by rewrite <- Hperm.
      * apply Hmax2. by rewrite Hperm.
Qed.

Lemma getLatestVersionIndexFile_latest_witness :
  exists latest,
    getLatestVersionIndexFile MainDemo.mainEnv emptyWorld = inr latest
    /\ latest ∈ MainDemo.versionFiles
    /\ forall file, file ∈ MainDemo.versionFiles -> String.le file latest.
Proof.
  apply (proj1 (proj2 (getLatestVersionIndexFile_latest
                         MainDemo.mainEnv emptyWorld MainDemo.versionFiles eq_refl))).
  discriminate.
Defined.

Example getLatestVersionIndexFile_demo :
  getLatestVersionIndexFile MainDemo.mainEnv emptyWorld
  = inr "data/hugging-face-redhat-ai-validated-v2-1.yaml".
Proof. vm_compute. reflexivity. Qed.

(** The order is that of the bytes, not that of the version numbers. *)
Example sort_Strings_not_numeric :
  last (sort_Strings ["data/hugging-face-redhat-ai-validated-v9.yaml";
                      "data/hugging-face-redhat-ai-validated-v10.yaml"])
  = Some "data/hugging-face-redhat-ai-validated-v9.yaml".
Proof. vm_compute. reflexivity. Qed.

(** *** [loadModelsWithMetadata] *)




Example loadModelsWithMetadata_demo :
  loadModelsWithMetadata MainDemo.mainEnv "data/models-index.yaml" emptyWorld
  = inr [mkModelEntry "oci" "quay.io/org/model:1.0" ["validated"];
         mkModelEntry "oci" "quay.io/org/model:2.0" ["validated"]].
Proof. vm_compute. reflexivity. Qed.

(** *** [processModelsInParallelWithMetadata] *)

Lemma collectRefs_refs modelEntries : forall manifestRefs uriToEntry,
  (collectRefs modelEntries manifestRefs uriToEntry).1
  = manifestRefs ++ (URI <$> modelEntries).
Proof.
  induction modelEntries as [|entry rest IH]; intros refs m; simpl;
    [by rewrite app_nil_r|].
  rewrite IH. by rewrite <- app_assoc.
Qed.

Lemma last_filter_snoc (f : ModelEntry -> bool) (l : list ModelEntry) x :
  last (List.filter f (l ++ [x]))
  = if f x then Some x else last (List.filter f l).
Proof.
  rewrite List.filter_app. simpl. destruct (f x).
  - by rewrite last_snoc.
  - by rewrite app_nil_r.
Qed.

Lemma collectRefs_lookup modelEntries : forall manifestRefs uriToEntry uri,
  (collectRefs modelEntries manifestRefs uriToEntry).2 !! uri
  = match lastWithURI modelEntries uri with
    | Some entry => Some entry
    | None => uriToEntry !! uri
    end.
Proof.
  induction modelEntries as [|entry rest IH] using rev_ind; intros refs m uri.
  - done.
  - assert (Hsnoc : forall (l : list ModelEntry) refs0 m0,
               collectRefs (l ++ [entry]) refs0 m0
               = let '(refs1, m1) := collectRefs l refs0 m0 in
                 (refs1 ++ [URI entry], <[URI entry := entry]> m1)).
    { clear. induction l as [|e l IH]; intros refs0 m0; simpl; [done|]. apply IH. }
    rewrite Hsnoc. specialize (IH refs m uri).
    destruct (collectRefs rest refs m) as [refs1 m1]. simpl in *.
    unfold lastWithURI in *. rewrite last_filter_snoc.
    destruct (String.eqb_spec (URI entry) uri) as [<-|Hne].
    + by rewrite lookup_insert_eq.
    + by rewrite lookup_insert_ne.
Qed.

Lemma lastWithURI_Some modelEntries uri entry :
  lastWithURI modelEntries uri = Some entry -> entry ∈ modelEntries /\ URI entry = uri.
Proof.
  unfold lastWithURI. intros Hlast.
  assert (Hin : entry ∈ List.filter (fun e => String.eqb (URI e) uri) modelEntries).
  { apply last_Some in Hlast as [l' ->]. set_solver. }
  apply list_elem_of_In, filter_In in Hin as [Hin Heq].
  split; [by apply list_elem_of_In|]. by apply String.eqb_eq.
Qed.

Lemma lastWithURI_elem_of modelEntries entry :
  entry ∈ modelEntries -> is_Some (lastWithURI modelEntries (URI entry)).
Proof.
  intros Hin. unfold lastWithURI.
  destruct (last (List.filter _ modelEntries)) eqn:Hlast; [eauto|].
  apply last_None in Hlast.
  assert (Hf : entry ∈ List.filter (fun e => String.eqb (URI e) (URI entry)) modelEntries).
  { apply list_elem_of_In, filter_In. split; [by apply list_elem_of_In|].
    apply String.eqb_refl. }
  rewrite Hlast in Hf. by apply elem_of_nil in Hf.
Qed.

Lemma NoDup_URI_inj (modelEntries : list ModelEntry) entry entry' :
  NoDup (URI <$> modelEntries) ->
  entry ∈ modelEntries -> entry' ∈ modelEntries -> URI entry' = URI entry ->
  entry = entry'.
Proof.
  induction modelEntries as [|e rest IH]; simpl; [by intros _ ?%elem_of_nil|].
  intros [Hnotin Hnd]%NoDup_cons [->|H1]%elem_of_cons [->|H2]%elem_of_cons Heq.
  - done.
  - destruct Hnotin. rewrite <- Heq. apply list_elem_of_fmap. eauto.
  - destruct Hnotin. rewrite Heq. apply list_elem_of_fmap. eauto.
  - by apply IH.
Qed.

(** X10.  [processModelsInParallelWithMetadata] processes the URIs of the
    entries, in their order and with their repetitions, and returns one
    result per entry.  A model is processed with the last entry that
    carries its URI: when the URIs are all different, each model with its
    own entry; when an URI is listed twice, both times with the entry listed
    last, and the labels of the earlier entry are not used. *)
Theorem processModelsInParallelWithMetadata_entries E (modelEntries : list ModelEntry)
        maxConcurrent :
  let manifestRefs := (collectRefs modelEntries [] ∅).1 in
  let uriToEntry := (collectRefs modelEntries [] ∅).2 in
  manifestRefs = URI <$> modelEntries
  /\ (forall uri, uriToEntry !! uri = lastWithURI modelEntries uri)
  /\ (forall entry,
        entry ∈ modelEntries ->
        exists used,
          entryOf uriToEntry (URI entry) = used
          /\ lastWithURI modelEntries (URI entry) = Some used
          /\ used ∈ modelEntries
          /\ URI used = URI entry)
  /\ (NoDup (URI <$> modelEntries) ->
      forall entry, entry ∈ modelEntries -> entryOf uriToEntry (URI entry) = entry)
  /\ (forall w modelResults w',
        processModelsInParallelWithMetadata E modelEntries maxConcurrent
                                            w modelResults w' ->
        length modelResults = length modelEntries
        /\ Ref <$> modelResults ≡ₚ URI <$> modelEntries)
  /\ (forall w, exists modelResults w',
        processModelsInParallelWithMetadata E modelEntries maxConcurrent
                                            w modelResults w').
Proof.
  intros manifestRefs uriToEntry.
  assert (Hrefs : manifestRefs = URI <$> modelEntries).
  { unfold manifestRefs. by rewrite collectRefs_refs. }
  assert (Hlook : forall uri, uriToEntry !! uri = lastWithURI modelEntries uri).
  { intros uri. unfold uriToEntry. rewrite collectRefs_lookup, lookup_empty.
    by destruct (lastWithURI modelEntries uri). }
  assert (Hused : forall entry,
             entry ∈ modelEntries ->
             exists used,
               entryOf uriToEntry (URI entry) = used
               /\ lastWithURI modelEntries (URI entry) = Some used
               /\ used ∈ modelEntries
               /\ URI used = URI entry).
  { intros entry Hin. destruct (lastWithURI_elem_of modelEntries entry Hin) as [used Hu].
    exists used. unfold entryOf. rewrite Hlook, Hu.
    apply lastWithURI_Some in Hu as [Hu1 Hu2]. by split_and!. }
  assert (Hrun : forall w modelResults w',
             processModelsInParallelWithMetadata E modelEntries maxConcurrent
                                                 w modelResults w'
             <-> processModelsInParallelWithEntryMap E manifestRefs uriToEntry
                   maxConcurrent w modelResults w').
  { intros w rs w'. unfold processModelsInParallelWithMetadata, manifestRefs, uriToEntry.
    by destruct (collectRefs modelEntries [] ∅). }
  split; [exact Hrefs|]. split; [exact Hlook|]. split; [exact Hused|]. split_and!.
  - intros Hnd entry Hin. destruct (Hused entry Hin) as (used & <- & _ & Hu & Huri).
    symmetry. by apply (NoDup_URI_inj modelEntries).
  - intros w rs w' Hp%Hrun. unfold processModelsInParallelWithEntryMap in Hp.
    apply CoordinatorProps.rtc_step_refsOf in Hp. unfold refsOf in Hp. simpl in Hp.
    rewrite app_nil_r in Hp. rewrite Hrefs in Hp. split; [|done].
    apply Permutation_length in Hp. by rewrite !length_fmap in Hp.
  - intros w.
    exists (runInOrder E manifestRefs uriToEntry w).1,
           (runInOrder E manifestRefs uriToEntry w).2.
    apply Hrun. unfold processModelsInParallelWithEntryMap.
    apply (CoordinatorProps.runInOrder_run E uriToEntry _ _ manifestRefs [] w).
    + apply CoordinatorProps.permits_ge_1.
    + simpl. lia.
Qed.

Example processModelsInParallelWithMetadata_twice :
  let uriToEntry := (collectRefs MainDemo.twiceListed [] ∅).2 in
  Labels (entryOf uriToEntry "quay.io/org/model:1.0") = ["featured"]
  /\ (collectRefs MainDemo.twiceListed [] ∅).1
     = ["quay.io/org/model:1.0"; "quay.io/org/model:2.0"; "quay.io/org/model:1.0"].
Proof. vm_compute. done. Qed.

(** *** [generateManifestsYAML] *)

(** X14.  The manifest lists the results one by one, in their order, each
    with its reference and whether a model card was found.  The function
    succeeds exactly when the manifest encodes and the output directory and
    the file can be written; then [manifests.yaml] in the output directory
    holds the encoded manifest.  When it fails no file is written, and it
    never writes another file. *)
Theorem generateManifestsYAML_file E yaml_MarshalManifests
        (modelResults : list (ModelResult E)) outputDir w :
  let r := generateManifestsYAML E yaml_MarshalManifests modelResults outputDir w in
  let manifests :=
    (fun result => mkModelManifest (Ref result) (ModelCardFound result) (Metadata result))
      <$> modelResults in
  let manifestsPath := Join [outputDir; "manifests.yaml"] in
  (r.1 = None <->
     is_Some (yaml_MarshalManifests manifests)
     /\ mkdirFails E outputDir = false
     /\ writeFails E manifestsPath = false)
  /\ (r.1 = None ->
      ReadFile manifestsPath r.2 = yaml_MarshalManifests manifests
      /\ outputDir ∈ dirs r.2)
  /\ (r.1 <> None -> files r.2 = files w)
  /\ wroteOnly w r.2 [manifestsPath]
  /\ ManifestRef <$> manifests = Ref <$> modelResults
  /\ Present <$> manifests = ModelCardFound <$> modelResults.
Proof.
  intros r manifests manifestsPath. unfold r, generateManifestsYAML.
  fold manifests. fold manifestsPath. unfold MkdirAll, WriteFile.
  assert (Hrefs : ManifestRef <$> manifests = Ref <$> modelResults
                  /\ Present <$> manifests = ModelCardFound <$> modelResults).
  { unfold manifests. by rewrite <- !list_fmap_compose. }
  destruct Hrefs as [Hr1 Hr2].
  destruct (yaml_MarshalManifests manifests) as [yamlData|]; simpl.
  2:{ split_and!; try done; [|apply ScanProps.wroteOnly_refl].
      split; [done|]. by intros [[? ?] _]. }
  destruct (mkdirFails E outputDir); simpl.
  { split_and!; try done; [|apply ScanProps.wroteOnly_refl].
    split; [done|]. by intros (_ & ? & _). }
  destruct (writeFails E manifestsPath); simpl.
  { split_and!; try done; [|by intros p Hp].
    split; [done|]. by intros (_ & _ & ?). }
  split_and!; try done.
  - intros _. split; [|set_solver]. unfold ReadFile. simpl. by rewrite lookup_insert_eq.
  - intros p Hp. simpl in Hp. apply list_elem_of_singleton.
    destruct (decide (p = manifestsPath)) as [->|Hne]; [done|].
    by rewrite lookup_insert_ne in Hp.
Qed.

End MainProps.
